(** * Note-Taking: the note store and the PDF renderer, embedded and verified

    The development follows the two Python modules of the repository:

    - [note_manager.py]: class [NoteManager], a JSON file holding a list of
      note dictionaries, re-read and re-written as a whole by every method;
    - [pdf_generator.py]: class [PDFGenerator], a cascade of [re.sub] calls
      ([clean_content]) feeding ReportLab paragraphs.

    Part I holds the embedding, Part II the theorems. *)

From Stdlib Require Import String Ascii DecimalString.
From Stdlib Require Import List NArith Bool Arith Lia Permutation Sorted.
Import ListNotations.

(* ================================================================== *)
(** * Part I: the embedding *)
(* ================================================================== *)

(** ** Python text

    A Python [str] is a sequence of Unicode code points; [len], slicing,
    comparison and the [re] module all work on code points.  A code point
    is an [N], a text is a list of them. *)

Module Py.

Definition char := N.
Definition str := list char.

(** A literal whose characters are all ASCII. *)
Definition lit (s : string) : str :=
  map N_of_ascii (list_ascii_of_string s).

Definition NL : char := 10%N.

(** [a == b] on [str]. *)
Fixpoint str_eqb (a b : str) : bool :=
  match a, b with
  | [], [] => true
  | x :: a', y :: b' => N.eqb x y && str_eqb a' b'
  | _, _ => false
  end.

(** [a < b] on [str]: lexicographic on code points, a proper prefix is
    smaller. *)
Fixpoint str_ltb (a b : str) : bool :=
  match a, b with
  | _, [] => false
  | [], _ :: _ => true
  | x :: a', y :: b' =>
      if N.ltb x y then true
      else if N.eqb x y then str_ltb a' b' else false
  end.

(** [s.startswith(p)]. *)
Fixpoint startswith (p s : str) : bool :=
  match p, s with
  | [], _ => true
  | _ :: _, [] => false
  | x :: p', y :: s' => N.eqb x y && startswith p' s'
  end.

(** [sub in s]: substring test. *)
Fixpoint contains (s sub : str) : bool :=
  startswith sub s ||
  match s with
  | [] => false
  | _ :: s' => contains s' sub
  end.

(** [str.isspace] for one code point (the table of CPython's
    [_PyUnicode_IsWhitespace]); [str.strip] removes these. *)
Definition isspace (c : char) : bool :=
  ((9 <=? c) && (c <=? 13) || (28 <=? c) && (c <=? 32)
   || (c =? 133) || (c =? 160) || (c =? 5760)
   || (8192 <=? c) && (c <=? 8202)
   || (c =? 8232) || (c =? 8233) || (c =? 8239) || (c =? 8287)
   || (c =? 12288))%N.

Fixpoint lstrip (s : str) : str :=
  match s with
  | c :: s' => if isspace c then lstrip s' else s
  | [] => []
  end.

Definition rstrip (s : str) : str := rev (lstrip (rev s)).

Definition strip (s : str) : str := rstrip (lstrip s).

(** [sep.join(parts)]. *)
Fixpoint join (sep : str) (parts : list str) : str :=
  match parts with
  | [] => []
  | [p] => p
  | p :: rest => p ++ sep ++ join sep rest
  end.

(** [s.split(c)] for a one-character separator: the pieces between the
    occurrences of [c]; never the empty list. *)
Fixpoint split_char (c : char) (s : str) : list str :=
  match s with
  | [] => [[]]
  | x :: s' =>
      if N.eqb x c then [] :: split_char c s'
      else match split_char c s' with
           | piece :: rest => (x :: piece) :: rest
           | [] => [[x]]
           end
  end.

(** ASCII lower-casing, the restriction of [str.lower] to ASCII text. *)
Definition ascii_lower_char (c : char) : char :=
  if ((65 <=? c) && (c <=? 90))%N then (c + 32)%N else c.

Definition ascii_lower (s : str) : str := map ascii_lower_char s.

(** ASCII digits, the restriction of the class [\d] to ASCII text. *)
Definition ascii_digit (c : char) : bool := ((48 <=? c) && (c <=? 57))%N.

(** The first character of [s], if any, is no white space. *)
Definition head_nonspace (s : str) : Prop :=
  match s with
  | [] => True
  | c :: _ => isspace c = false
  end.

(** [str(n)] for a non-negative integer. *)
Definition str_of_nat (n : nat) : str :=
  lit (NilEmpty.string_of_uint (Nat.to_uint n)).

End Py.

Import Py.

(* ------------------------------------------------------------------ *)
(** ** Exceptions and the file behind the store *)

(** The exception classes that can reach the code under study. *)
Inductive exn : Type :=
| FileNotFoundError   (* open(): no such file or directory *)
| JSONDecodeError     (* json.load(): the text is not JSON *)
| PermissionError     (* open(): any other OSError *)
| ValueError.         (* ReportLab's markup parser, datetime.fromisoformat *)

Inductive exc (A : Type) : Type :=
| Ret (a : A)
| Raise (e : exn).

Arguments Ret {A} a.
Arguments Raise {A} e.

Definition exc_bind {A B} (m : exc A) (k : A -> exc B) : exc B :=
  match m with
  | Ret a => k a
  | Raise e => Raise e
  end.

Notation "x <~ m ;; k" := (exc_bind m (fun x => k))
  (at level 61, m at next level, right associativity).

Module NoteManager.

(** A note is a dictionary with five string entries. *)
Record Note : Type := mkNote {
  id : str;
  title : str;
  content : str;
  created_at : str;
  updated_at : str
}.

(** What [open(self.data_file, 'r')] followed by [json.load] finds.
    [json.dump] followed by [json.load] gives back the same list of
    dictionaries, so a well-formed file is identified with the list it
    holds.  The store is the only writer of the file and writes nothing
    but such lists; JSON text of another shape is not part of the
    model. *)
Inductive file_state : Type :=
| Absent                      (* no file, or no directory *)
| Garbled                     (* present, readable, not JSON *)
| Denied                      (* the load raises anything else: another
                                 OSError of open(), a decoding error *)
| Holds (notes : list Note).

(** What happens to a write.  [save_notes] opens the file with mode ['w'],
    which truncates it, and then streams the JSON text into it; either
    step can raise. *)
Inductive write_fault : Type :=
| NoFault
| OpenFails                   (* open(..., 'w') raises: nothing is touched *)
| DumpFails.                  (* json.dump or the closing flush raises after
                                 the file has been truncated *)

Record world : Type := mkWorld {
  file : file_state;
  fault : write_fault
}.

(** Store methods run on the disk and may raise: a state monad over
    [world] whose results are in [exc].  The disk keeps the effects of a
    computation that raised. *)
Definition M (A : Type) : Type := world -> exc A * world.

Definition ret {A} (a : A) : M A := fun w => (Ret a, w).

Definition raise {A} (e : exn) : M A := fun w => (Raise e, w).

Definition bind {A B} (m : M A) (k : A -> M B) : M B :=
  fun w =>
    match m w with
    | (Ret a, w') => k a w'
    | (Raise e, w') => (Raise e, w')
    end.

(** [try: m  except ...: h e]; the handler decides which classes it
    takes and re-raises the others. *)
Definition try_except {A} (m : M A) (h : exn -> M A) : M A :=
  fun w =>
    match m w with
    | (Ret a, w') => (Ret a, w')
    | (Raise e, w') => h e w'
    end.

Notation "x <- m ;; k" := (bind m (fun x => k))
  (at level 61, m at next level, right associativity).

(** [with open(self.data_file, 'r') as f: return json.load(f)] *)
Definition read_json : M (list Note) :=
  fun w =>
    match file w with
    | Absent => (Raise FileNotFoundError, w)
    | Garbled => (Raise JSONDecodeError, w)
    | Denied => (Raise PermissionError, w)
    | Holds notes => (Ret notes, w)
    end.

(** [load_notes]: only [FileNotFoundError] and [json.JSONDecodeError] are
    caught. *)
Definition load_notes : M (list Note) :=
  try_except read_json
    (fun e =>
       match e with
       | FileNotFoundError | JSONDecodeError => ret []
       | _ => raise e
       end).

(** [save_notes]: [except Exception] turns every failure into [False].
    A write that breaks off leaves a proper prefix of the text of a JSON
    array, which is not JSON. *)
Definition save_notes (notes : list Note) : M bool :=
  fun w =>
    match fault w with
    | NoFault => (Ret true, mkWorld (Holds notes) (fault w))
    | OpenFails => (Ret false, w)
    | DumpFails => (Ret false, mkWorld Garbled (fault w))
    end.

(** [create_note]; [uuid4] is the value of [str(uuid.uuid4())] and [now]
    that of [datetime.now().isoformat()] in this call. *)
Definition create_note (uuid4 now : str) (title content : str)
  : M (option str) :=
  try_except
    (notes <- load_notes ;;
     let note_id := uuid4 in
     let current_time := now in
     let new_note := {| id := note_id; title := title; content := content;
                        created_at := current_time;
                        updated_at := current_time |} in
     let notes := notes ++ [new_note] in
     ok <- save_notes notes ;;
     if ok then ret (Some note_id) else ret None)
    (fun _ => ret None).

(** The loop of [get_note]: the first note with the identifier. *)
Fixpoint first_with_id (notes : list Note) (note_id : str) : option Note :=
  match notes with
  | [] => None
  | note :: rest =>
      if str_eqb (id note) note_id then Some note
      else first_with_id rest note_id
  end.

Definition get_note (note_id : str) : M (option Note) :=
  try_except
    (notes <- load_notes ;;
     ret (first_with_id notes note_id))
    (fun _ => ret None).

(** [sorted(notes, key=lambda x: x['created_at'], reverse=True)].
    Python's sort is stable, also with [reverse=True]: notes with equal
    keys keep their order.  A stable sort has one possible output, here
    computed by insertion. *)
Fixpoint insert_desc (x : Note) (l : list Note) : list Note :=
  match l with
  | [] => [x]
  | y :: l' =>
      if str_ltb (created_at x) (created_at y) then y :: insert_desc x l'
      else x :: l
  end.

Fixpoint sorted_desc (l : list Note) : list Note :=
  match l with
  | [] => []
  | x :: l' => insert_desc x (sorted_desc l')
  end.

Definition get_all_notes : M (list Note) :=
  try_except
    (notes <- load_notes ;;
     ret (sorted_desc notes))
    (fun _ => ret []).

(** The loop of [update_note]: the first note with the identifier gets the
    new title, content and [updated_at]; [None] when the loop ends without
    a match. *)
Fixpoint update_first (notes : list Note) (note_id title content now : str)
  : option (list Note) :=
  match notes with
  | [] => None
  | note :: rest =>
      if str_eqb (id note) note_id
      then Some ({| id := id note; title := title; content := content;
                    created_at := created_at note;
                    updated_at := now |} :: rest)
      else option_map (cons note) (update_first rest note_id title content now)
  end.

Definition update_note (now : str) (note_id title content : str) : M bool :=
  try_except
    (notes <- load_notes ;;
     match update_first notes note_id title content now with
     | Some notes' => save_notes notes'
     | None => ret false
     end)
    (fun _ => ret false).

(** [[note for note in notes if note['id'] != note_id]] *)
Definition without_id (notes : list Note) (note_id : str) : list Note :=
  filter (fun note => negb (str_eqb (id note) note_id)) notes.

Definition delete_note (note_id : str) : M bool :=
  try_except
    (notes <- load_notes ;;
     let original_length := length notes in
     let notes := without_id notes note_id in
     if length notes <? original_length then save_notes notes
     else ret false)
    (fun _ => ret false).

Definition get_notes_count : M nat :=
  try_except
    (notes <- load_notes ;;
     ret (length notes))
    (fun _ => ret 0).

Section Search.

(** [str.lower] of the Python runtime (full Unicode lower-casing). *)
Variable lower : str -> str.

(** The test of the loop body of [search_notes]; [query] is already
    lower-cased. *)
Definition note_matches (query : str) (note : Note) : bool :=
  contains (lower (title note)) query ||
  contains (lower (content note)) query.

(** The loop of [search_notes], appending to [matching_notes]. *)
Fixpoint search_loop (query : str) (notes matching_notes : list Note)
  : list Note :=
  match notes with
  | [] => matching_notes
  | note :: rest =>
      if note_matches query note
      then search_loop query rest (matching_notes ++ [note])
      else search_loop query rest matching_notes
  end.

Definition search_notes (query : str) : M (list Note) :=
  try_except
    (notes <- get_all_notes ;;
     let query := lower query in
     ret (search_loop query notes []))
    (fun _ => ret []).

End Search.

(** *** Vocabulary of the statements *)

(** The collection the methods work on: what the file holds, nothing
    when it holds no list. *)
Definition stored (w : world) : list Note :=
  match file w with
  | Holds notes => notes
  | _ => []
  end.

(** The listing a caller gets from the disk [w]. *)
Definition listing (w : world) : list Note :=
  match fst (get_all_notes w) with
  | Ret l => l
  | Raise _ => []
  end.

(** [a] may stand before [b] in the listing. *)
Definition not_older (a b : Note) : Prop :=
  str_ltb (created_at a) (created_at b) = false.

(** [a] is strictly newer than [b]. *)
Definition newer (a b : Note) : Prop :=
  str_ltb (created_at b) (created_at a) = true.

(** The note [update_note] writes in place of [n]. *)
Definition updated (n : Note) (title content now : str) : Note :=
  {| id := id n; title := title; content := content;
     created_at := created_at n; updated_at := now |}.

(** [note_id] names one of [notes]. *)
Definition present (notes : list Note) (note_id : str) : Prop :=
  exists n, In n notes /\ id n = note_id.

(** *** A small store for closed examples *)

Definition note_a : Note :=
  mkNote (lit "id-a") (lit "Groceries") (lit "say hello")
    (lit "2024-03-01T09:00:00") (lit "2024-03-01T09:00:00").

Definition note_b : Note :=
  mkNote (lit "id-b") (lit "Report") (lit "numbers for *May*")
    (lit "2024-03-02T18:30:00.250000") (lit "2024-03-05T08:00:00").

Definition note_c : Note :=
  mkNote (lit "id-c") (lit "Trip") (lit "book the train")
    (lit "2024-02-11T07:15:00") (lit "2024-02-11T07:15:00").

Definition sample_world : world :=
  mkWorld (Holds [note_a; note_b; note_c]) NoFault.

(** The same file on a disk where the write fails after the file has
    been opened. *)
Definition full_disk_world : world :=
  mkWorld (Holds [note_a; note_b; note_c]) DumpFails.

(** A file the process may not read. *)
Definition denied_world : world := mkWorld Denied NoFault.

(** *** The constructor *)

(** [os.path.exists(self.data_file)]: the file is there in every state
    but [Absent]. *)
Definition path_exists : M bool :=
  fun w => (Ret (match file w with Absent => false | _ => true end), w).

(** [ensure_data_directory], which [__init__] runs outside any [try].
    [makedirs] is what
    [os.makedirs(os.path.dirname(self.data_file), exist_ok=True)] does;
    the answer of [save_notes] is dropped. *)
Definition ensure_data_directory (makedirs : exc unit) : M unit :=
  made <- (fun w => (makedirs, w)) ;;
  there <- path_exists ;;
  if there then ret tt
  else (saved <- save_notes [] ;; ret tt).

(** *** More vocabulary *)

(** The identifiers of the stored notes are pairwise distinct. *)
Definition ids_unique (w : world) : Prop := NoDup (map id (stored w)).

(** The notes whose [created_at] is [k], in the order of [l]. *)
Definition with_key (k : str) (l : list Note) : list Note :=
  filter (fun n => str_eqb (created_at n) k) l.

(** Title and content are non-empty and carry no white space at either
    end: what [str.strip] returns on a text that is not blank. *)
Definition trimmed (s : str) : Prop := s <> [] /\ strip s = s.

Definition well_formed (n : Note) : Prop :=
  trimmed (title n) /\ trimmed (content n).

(** A store with one identifier on two notes. *)
Definition twin_world : world :=
  mkWorld (Holds [note_a;
                  mkNote (lit "id-a") (lit "Copy") (lit "second")
                    (lit "2024-03-01T09:00:00") (lit "2024-03-01T09:00:00");
                  note_c]) NoFault.

(** No file yet, on a disk that works. *)
Definition fresh_world : world := mkWorld Absent NoFault.

End NoteManager.

(* ------------------------------------------------------------------ *)
(** ** The renderer: [PDFGenerator.clean_content] *)

Module PDFGenerator.

(** *** Characters and literals of the patterns *)

Definition DQ : char := 34%N.          (* the double quote *)
Definition STAR : char := 42%N.
Definition DASH : char := 45%N.
Definition BACKTICK : char := 96%N.
Definition PIPE : char := 124%N.
Definition BULLET : char := 8226%N.    (* U+2022 *)
Definition CHECK : char := 10003%N.    (* U+2713 *)
Definition BOX : char := 9744%N.       (* U+2610 *)
Definition HLINE : char := 9472%N.     (* U+2500 *)

(** [name="value"] inside a tag. *)
Definition attr (name value : string) : str :=
  lit name ++ lit "=" ++ [DQ] ++ lit value ++ [DQ].

Definition fence : str := [BACKTICK; BACKTICK; BACKTICK].

Definition BR : str := lit "<br/>".

(** *** [re.sub]

    A pattern is given by its matcher: told whether the position is at
    the beginning of a line ([^] under [re.MULTILINE]) and given the text
    from the position on, it answers with the length of the match there
    and the text that replaces it.  Every pattern of [clean_content]
    consumes at least one character, so [re.sub] is: scan from the left,
    at the first position with a match emit the replacement and go on
    behind the match. *)
Definition matcher : Type := bool -> str -> option (nat * str).

Fixpoint re_sub_from (m : matcher) (skip : nat) (bol : bool) (s : str)
  : str :=
  match s with
  | [] => []
  | c :: rest =>
      let bol' := N.eqb c NL in
      match skip with
      | S k => re_sub_from m k bol' rest
      | O =>
          match m bol s with
          | Some (n, repl) => repl ++ re_sub_from m (pred n) bol' rest
          | None => c :: re_sub_from m 0 bol' rest
          end
      end
  end.

Definition re_sub (m : matcher) (s : str) : str := re_sub_from m 0 true s.

(** [.*?] in front of [$]: the rest of the line. *)
Fixpoint line_rest (s : str) : str :=
  match s with
  | [] => []
  | c :: s' => if N.eqb c NL then [] else c :: line_rest s'
  end.

(** [(.*?)close]: the shortest run of non-newline characters after which
    [close] matches. *)
Fixpoint lazy_dots (close : str) (s : str) : option str :=
  if startswith close s then Some []
  else match s with
       | [] => None
       | c :: s' =>
           if N.eqb c NL then None
           else option_map (cons c) (lazy_dots close s')
       end.

(** [[\s\S]*?close]: the same, across lines. *)
Fixpoint lazy_any (close : str) (s : str) : option str :=
  if startswith close s then Some []
  else match s with
       | [] => None
       | c :: s' => option_map (cons c) (lazy_any close s')
       end.

(** The longest prefix of characters satisfying [p] ([p+], [p*]). *)
Fixpoint span_of (p : char -> bool) (s : str) : str :=
  match s with
  | [] => []
  | c :: s' => if p c then c :: span_of p s' else []
  end.

(** [^prefix(.*?)$] replaced by [pre \1 post], with [re.MULTILINE]. *)
Definition m_line (prefix pre post : str) : matcher :=
  fun bol s =>
    if bol && startswith prefix s then
      let g := line_rest (skipn (length prefix) s) in
      Some (length prefix + length g, pre ++ g ++ post)
    else None.

(** [open(.*?)close] replaced by [pre \1 post]. *)
Definition m_span (open close pre post : str) : matcher :=
  fun _ s =>
    if startswith open s then
      match lazy_dots close (skipn (length open) s) with
      | Some g => Some (length open + length g + length close,
                        pre ++ g ++ post)
      | None => None
      end
    else None.

(** [`([^`]+)`]: a backtick, the longest non-empty run without
    backticks, a backtick. *)
Definition m_inline_code (pre post : str) : matcher :=
  fun _ s =>
    match s with
    | c :: s' =>
        if N.eqb c BACKTICK then
          let g := span_of (fun x => negb (N.eqb x BACKTICK)) s' in
          match g, skipn (length g) s' with
          | _ :: _, _ :: _ => Some (length g + 2, pre ++ g ++ post)
          | _, _ => None
          end
        else None
    | [] => None
    end.

(** [^literal] replaced by [repl], with [re.MULTILINE]. *)
Definition m_bol (literal repl : str) : matcher :=
  fun bol s =>
    if bol && startswith literal s then Some (length literal, repl)
    else None.

(** A literal anywhere: [str.replace]. *)
Definition m_lit (literal repl : str) : matcher :=
  fun _ s =>
    if startswith literal s then Some (length literal, repl) else None.

Definition str_replace (old new s : str) : str := re_sub (m_lit old new) s.

(** [^---+$] replaced by fifty underscores. *)
Definition m_rule : matcher :=
  fun bol s =>
    let l := line_rest s in
    if bol && (3 <=? length l) && forallb (N.eqb DASH) l
    then Some (length l, repeat 95%N 50)
    else None.

(** [\[(.*?)\]\(.*?\)] replaced by [\1]. *)
Definition m_link : matcher :=
  fun _ s =>
    match s with
    | c :: s' =>
        if N.eqb c 91%N then
          match lazy_dots (lit "](") s' with
          | Some g =>
              match lazy_dots (lit ")") (skipn (length g + 2) s') with
              | Some u => Some (1 + length g + 2 + length u + 1, g)
              | None => None
              end
          | None => None
          end
        else None
    | [] => None
    end.

(** [s.split(sep)] for a non-empty separator. *)
Fixpoint split_from (sep : str) (skip : nat) (cur : str) (s : str)
  : list str :=
  match s with
  | [] => [rev cur]
  | c :: rest =>
      match skip with
      | S k => split_from sep k cur rest
      | O =>
          if startswith sep s
          then rev cur :: split_from sep (pred (length sep)) [] rest
          else split_from sep 0 (c :: cur) rest
      end
  end.

Definition split (sep s : str) : list str := split_from sep 0 [] s.

(** *** The code-block step *)

(** The local function [replace_code_block], applied to [match.group(0)]. *)
Definition replace_code_block (group0 : str) : str :=
  let code_content := strip (str_replace fence [] group0) in
  let code_content :=
    if 100 <? length code_content
    then firstn 100 code_content ++ lit "..."
    else code_content in
  lit "<font " ++ attr "face" "Courier" ++ lit " " ++ attr "size" "9"
    ++ lit ">" ++ code_content ++ lit "</font>".

(** [```[\s\S]*?```] *)
Definition m_code_block : matcher :=
  fun _ s =>
    if startswith fence s then
      match lazy_any fence (skipn 3 s) with
      | Some body =>
          let group0 := fence ++ body ++ fence in
          Some (length group0, replace_code_block group0)
      | None => None
      end
    else None.

(** *** The table step *)

(** The local function [replace_table], applied to [match.group(0)]. *)
Definition table_line (line : str) : list str :=
  if contains line [PIPE] && negb (startswith (lit "|--") (strip line))
  then
    let cells :=
      map strip
        (filter (fun cell => negb (length (strip cell) =? 0))
           (split_char PIPE line)) in
    match cells with
    | [] => []
    | _ => [join ([32%N; BULLET; 32%N]) cells]
    end
  else [].

Definition replace_table (table_text : str) : str :=
  let lines := split_char NL table_text in
  join BR (flat_map table_line lines).

(** The lookahead [(?=\n\n|\n[^|]|\Z)]. *)
Definition table_lookahead (s : str) : bool :=
  match s with
  | [] => true
  | c :: d :: _ =>
      N.eqb c NL && N.eqb d NL || N.eqb c NL && negb (N.eqb d PIPE)
  | [_] => false
  end.

(** [[\s\S]*?] in front of the lookahead. *)
Fixpoint lazy_to_lookahead (s : str) : str :=
  if table_lookahead s then []
  else match s with
       | [] => []
       | c :: s' => c :: lazy_to_lookahead s'
       end.

(** [\|.*?\|[\s\S]*?(?=\n\n|\n[^|]|\Z)] *)
Definition m_table : matcher :=
  fun _ s =>
    match s with
    | c :: s' =>
        if N.eqb c PIPE then
          match lazy_dots [PIPE] s' with
          | Some g =>
              let ext := lazy_to_lookahead (skipn (length g + 1) s') in
              let group0 := PIPE :: g ++ [PIPE] ++ ext in
              Some (length group0, replace_table group0)
          | None => None
          end
        else None
    | [] => None
    end.

Section Renderer.

(** The class [\d] of the [re] module on [str] patterns: the Unicode
    decimal digits. *)
Variable digit : char -> bool.

(** [^\d+\. ] replaced by a bullet and a space. *)
Definition m_numbered : matcher :=
  fun bol s =>
    let ds := span_of digit s in
    match ds with
    | _ :: _ =>
        if bol && startswith (lit ". ") (skipn (length ds) s)
        then Some (length ds + 2, [BULLET; 32%N])
        else None
    | [] => None
    end.

(** [clean_content], one [let] per statement. *)
Definition clean_content (content : str) : str :=
  (* headings *)
  let content := re_sub (m_line (lit "### ")
      (lit "<b><font " ++ attr "size" "12" ++ lit ">") (lit "</font></b>"))
      content in
  let content := re_sub (m_line (lit "## ")
      (lit "<b><font " ++ attr "size" "14" ++ lit ">") (lit "</font></b>"))
      content in
  let content := re_sub (m_line (lit "# ")
      (lit "<b><font " ++ attr "size" "16" ++ lit ">") (lit "</font></b>"))
      content in
  (* text formatting *)
  let content := re_sub (m_span (lit "**") (lit "**") (lit "<b>") (lit "</b>"))
      content in
  let content := re_sub (m_span (lit "*") (lit "*") (lit "<i>") (lit "</i>"))
      content in
  let content := re_sub (m_span (lit "~~") (lit "~~")
      (lit "<strike>") (lit "</strike>")) content in
  let content := re_sub (m_inline_code
      (lit "<font " ++ attr "face" "Courier" ++ lit ">") (lit "</font>"))
      content in
  (* lists *)
  let content := re_sub (m_bol [BULLET; 32%N] [BULLET; 32%N]) content in
  let content := re_sub (m_bol (lit "- ") [BULLET; 32%N]) content in
  let content := re_sub m_numbered content in
  (* quotes *)
  let content := re_sub (m_line (lit "> ")
      (lit "<i>" ++ [DQ] ++ lit "  ") (lit "  " ++ [DQ] ++ lit "</i>"))
      content in
  (* code blocks *)
  let content := re_sub m_code_block content in
  (* tables *)
  let content := re_sub m_table content in
  (* checklists *)
  let content := re_sub (m_line (lit "- [x] ") [CHECK; 32%N] []) content in
  let content := re_sub (m_line (lit "- [ ] ") [BOX; 32%N] []) content in
  (* horizontal rules *)
  let content := re_sub m_rule content in
  (* links *)
  let content := re_sub m_link content in
  (* line breaks *)
  let content := str_replace [NL; NL] (BR ++ BR) content in
  let content := str_replace [NL] BR content in
  content.

(** The texts that become body paragraphs: the loop over
    [clean_content.split('<br/><br/>')] in both exports. *)
Definition body_paragraphs (content : str) : list str :=
  map strip
    (filter (fun paragraph_text => negb (length (strip paragraph_text) =? 0))
       (split (BR ++ BR) (clean_content content))).

End Renderer.

(** *** The two exports

    ReportLab and [datetime] are outside the repository; the exports are
    written over what they use of them. *)

Inductive style : Type :=
| CustomTitle | CustomHeading | CustomBody | MetaData | Separator.

Inductive flowable : Type :=
| Paragraph (text : str) (st : style)
| Spacer (width height : nat)
| PageBreak.

(** [SimpleDocTemplate(buffer, pagesize=A4, ...)], with the one-inch
    margins of the exports or with the defaults of the error document. *)
Inductive doc_template : Type := InchMargins | DefaultMargins.

Definition bytes : Type := list N.

Record backend : Type := mkBackend {
  (** the class [\d] of [re] *)
  re_digit : char -> bool;
  (** whether ReportLab's markup parser accepts a text; the constructor
      [Paragraph(text, style)] raises [ValueError] when it does not *)
  markup_ok : str -> bool;
  datetime : Type;
  (** [datetime.fromisoformat], [None] standing for [ValueError] *)
  fromisoformat : str -> option datetime;
  (** [d.strftime(fmt)] *)
  strftime : datetime -> str -> str;
  (** [doc.build(story)] followed by [buffer.getvalue()] *)
  doc_build : doc_template -> list flowable -> exc bytes
}.

Section Exports.

Variable rl : backend.

(** [Paragraph(text, style)]: the constructor parses the markup at once
    and raises on text it rejects.  [ValueError] stands for whatever it
    raises; the exports never look at the class of the exception. *)
Definition mkParagraph (text : str) (st : style) : exc flowable :=
  if markup_ok rl text then Ret (Paragraph text st) else Raise ValueError.

Definition parse_date (s : str) : exc (datetime rl) :=
  match fromisoformat rl s with
  | Some d => Ret d
  | None => Raise ValueError
  end.

Definition long_format : str := lit "%B %d, %Y at %I:%M %p".

Definition short_format : str := lit "%m/%d/%Y".


(** [meta_text] of both exports. *)
Definition meta_text (note : NoteManager.Note) : exc str :=
  created <~ parse_date (NoteManager.created_at note) ;;
  updated <~ parse_date (NoteManager.updated_at note) ;;
  let created_date := strftime rl created long_format in
  let updated_date := strftime rl updated long_format in
  let text := lit "Created: " ++ created_date in
  Ret (if str_eqb (NoteManager.created_at note) (NoteManager.updated_at note)
       then text
       else text ++ lit " | Last Updated: " ++ updated_date).

(** The loop over the paragraphs of the cleaned content: a paragraph and
    a spacer each. *)
Fixpoint body_flowables (paragraphs : list str) : exc (list flowable) :=
  match paragraphs with
  | [] => Ret []
  | paragraph_text :: rest =>
      paragraph <~ mkParagraph paragraph_text CustomBody ;;
      more <~ body_flowables rest ;;
      Ret (paragraph :: Spacer 1 6 :: more)
  end.

(** The story of [generate_single_note_pdf]: everything above its [try]. *)
Definition single_note_story (note : NoteManager.Note)
  : exc (list flowable) :=
  title <~ mkParagraph (NoteManager.title note) CustomTitle ;;
  text <~ meta_text note ;;
  metadata <~ mkParagraph text MetaData ;;
  separator <~ mkParagraph (repeat HLINE 50) Separator ;;
  body <~ body_flowables
            (body_paragraphs (re_digit rl) (NoteManager.content note)) ;;
  Ret ([title; Spacer 1 12; metadata; Spacer 1 12; separator] ++ body).


(** The table of contents: [for i, note in enumerate(notes, 1)]. *)
Fixpoint toc_entries (i : nat) (notes : list NoteManager.Note)
  : exc (list flowable) :=
  match notes with
  | [] => Ret []
  | note :: rest =>
      created <~ parse_date (NoteManager.created_at note) ;;
      let created_date := strftime rl created short_format in
      let toc_entry :=
        str_of_nat i ++ lit ". " ++ NoteManager.title note
          ++ lit " (" ++ created_date ++ lit ")" in
      toc_para <~ mkParagraph toc_entry CustomBody ;;
      more <~ toc_entries (S i) rest ;;
      Ret (toc_para :: more)
  end.

(** The second loop: one section per note, a separator after each but
    the last ([i < len(notes)]). *)
Fixpoint note_sections (total i : nat) (notes : list NoteManager.Note)
  : exc (list flowable) :=
  match notes with
  | [] => Ret []
  | note :: rest =>
      let note_title := str_of_nat i ++ lit ". " ++ NoteManager.title note in
      title_para <~ mkParagraph note_title CustomTitle ;;
      text <~ meta_text note ;;
      metadata <~ mkParagraph text MetaData ;;
      body <~ body_flowables
                (body_paragraphs (re_digit rl) (NoteManager.content note)) ;;
      tail <~ (if i <? total
               then separator <~ mkParagraph (repeat HLINE 80) Separator ;;
                    Ret [Spacer 1 24; separator; Spacer 1 24]
               else Ret []) ;;
      more <~ note_sections total (S i) rest ;;
      Ret ([title_para; Spacer 1 12; metadata; Spacer 1 8] ++ body
             ++ tail ++ more)
  end.

(** The story of [generate_all_notes_pdf]; [now] is the value of
    [datetime.now()]. *)
Definition all_notes_story (now : datetime rl)
  (notes : list NoteManager.Note) : exc (list flowable) :=
  cover_title <~ mkParagraph (lit "My Notes Collection") CustomTitle ;;
  let generation_date := strftime rl now long_format in
  date_para <~ mkParagraph (lit "Generated on: " ++ generation_date)
                 MetaData ;;
  summary_para <~ mkParagraph
                    (lit "Total Notes: " ++ str_of_nat (length notes))
                    CustomBody ;;
  toc_title <~ mkParagraph (lit "Table of Contents") CustomHeading ;;
  toc <~ toc_entries 1 notes ;;
  sections <~ note_sections (length notes) 1 notes ;;
  Ret ([cover_title; Spacer 1 12; date_para; Spacer 1 12;
        summary_para; Spacer 1 24; toc_title; Spacer 1 12]
         ++ toc ++ [PageBreak] ++ sections).


End Exports.

(** *** Vocabulary of the statements *)

(** The characters a pattern of [clean_content] can start with, newline
    apart: [#], [*], [~], the backtick, the bullet, [-], a digit, [>],
    the pipe and the opening bracket. *)
Definition marker (digit : char -> bool) (c : char) : bool :=
  N.eqb c 35 || N.eqb c STAR || N.eqb c 126 || N.eqb c BACKTICK
  || N.eqb c BULLET || N.eqb c DASH || digit c || N.eqb c 62
  || N.eqb c PIPE || N.eqb c 91.

(** The matcher [m] matches only where the next character is [k]. *)
Definition starts_with_char (m : matcher) (k : char) : Prop :=
  forall bol c rest, N.eqb c k = false -> m bol (c :: rest) = None.

(** A text without backticks. *)
Definition no_backtick (s : str) : Prop :=
  forall c, In c s -> N.eqb c BACKTICK = false.

(** A text without any of them. *)
Definition plain (digit : char -> bool) (s : str) : Prop :=
  forall c, In c s -> marker digit c = false.




(** *** Backends for closed examples *)

(** A markup parser that rejects a text opening a [<b>] tag it never
    closes, as ReportLab's does. *)
Definition unclosed_bold (text : str) : bool :=
  contains text (lit "<b>") && negb (contains text (lit "</b>")).

(** A build that writes the texts of the paragraphs, one per line. *)
Definition flatten (story : list flowable) : bytes :=
  flat_map (fun f => match f with
                     | Paragraph text _ => text ++ [NL]
                     | _ => []
                     end) story.

(** ASCII digits, timestamps kept as text, a build that succeeds. *)
Definition sample_backend : backend :=
  {| re_digit := ascii_digit;
     markup_ok := fun text => negb (unclosed_bold text);
     datetime := str;
     fromisoformat := fun s => Some s;
     strftime := fun d _ => d;
     doc_build := fun _ story => Ret (flatten story) |}.



(** A fenced block of 101 characters. *)
Definition long_fenced_block : str := fence ++ repeat 120%N 101 ++ fence.

(** *** More vocabulary *)

(** The character [k] does not occur in [s]. *)
Definition lacks (k : char) (s : str) : Prop :=
  forall c, In c s -> N.eqb c k = false.

(** None of the characters [ks] occurs in [s]. *)
Definition free_of (ks : list char) (s : str) : Prop :=
  forall k, In k ks -> lacks k s.

(** The first character of [s], if any, fails [p]. *)
Definition head_ok (p : char -> bool) (s : str) : Prop :=
  match s with
  | [] => True
  | c :: _ => p c = false
  end.

(** Newline and the characters an inline pattern can start with: the
    star, the tilde, the backtick, the pipe and the opening bracket. *)
Definition inline_markers : list char :=
  [NL; STAR; 126%N; BACKTICK; PIPE; 91%N].

(** One line of text in which no inline pattern starts. *)
Definition inline_free (s : str) : Prop := free_of inline_markers s.

(** The characters a line pattern can start with, the bullet apart: the
    hash, the dash, the closing angle bracket and the digits. *)
Definition line_marker (digit : char -> bool) (c : char) : bool :=
  N.eqb c 35 || N.eqb c DASH || N.eqb c 62 || digit c.

(** A line that no pattern of [clean_content] changes. *)
Definition quiet (digit : char -> bool) (s : str) : Prop :=
  inline_free s /\ head_ok (line_marker digit) s.

(** What the statements use of the class [\d]: on ASCII it is the ten
    digits, and the bullet is not in it. *)
Definition digit_class (digit : char -> bool) : Prop :=
  (forall c, (c <? 128)%N = true -> digit c = ascii_digit c)
  /\ digit BULLET = false.

(** The substitutions of [clean_content] by name, in the order of the
    source. *)
Definition step_h3 : str -> str :=
  re_sub (m_line (lit "### ")
            (lit "<b><font " ++ attr "size" "12" ++ lit ">")
            (lit "</font></b>")).

Definition step_h2 : str -> str :=
  re_sub (m_line (lit "## ")
            (lit "<b><font " ++ attr "size" "14" ++ lit ">")
            (lit "</font></b>")).

Definition step_h1 : str -> str :=
  re_sub (m_line (lit "# ")
            (lit "<b><font " ++ attr "size" "16" ++ lit ">")
            (lit "</font></b>")).

Definition step_bold : str -> str :=
  re_sub (m_span (lit "**") (lit "**") (lit "<b>") (lit "</b>")).

Definition step_italic : str -> str :=
  re_sub (m_span (lit "*") (lit "*") (lit "<i>") (lit "</i>")).

Definition step_strike : str -> str :=
  re_sub (m_span (lit "~~") (lit "~~") (lit "<strike>") (lit "</strike>")).

Definition step_code : str -> str :=
  re_sub (m_inline_code
            (lit "<font " ++ attr "face" "Courier" ++ lit ">")
            (lit "</font>")).

Definition step_bullet : str -> str :=
  re_sub (m_bol [BULLET; 32%N] [BULLET; 32%N]).

Definition step_dash : str -> str :=
  re_sub (m_bol (lit "- ") [BULLET; 32%N]).

Definition step_numbered (digit : char -> bool) : str -> str :=
  re_sub (m_numbered digit).

Definition step_quote : str -> str :=
  re_sub (m_line (lit "> ")
            (lit "<i>" ++ [DQ] ++ lit "  ") (lit "  " ++ [DQ] ++ lit "</i>")).

Definition step_block : str -> str := re_sub m_code_block.

Definition step_table : str -> str := re_sub m_table.

Definition step_checked : str -> str :=
  re_sub (m_line (lit "- [x] ") [CHECK; 32%N] []).

Definition step_unchecked : str -> str :=
  re_sub (m_line (lit "- [ ] ") [BOX; 32%N] []).

Definition step_rule : str -> str := re_sub m_rule.

Definition step_link : str -> str := re_sub m_link.

Definition step_blank : str -> str := str_replace [NL; NL] (BR ++ BR).

Definition step_break : str -> str := str_replace [NL] BR.

(** The tags around the text of a heading of the given font size. *)
Definition heading (size : string) (text : str) : str :=
  lit "<b><font " ++ attr "size" size ++ lit ">" ++ text
    ++ lit "</font></b>".

(** The flowables of [story] that are paragraphs in style [st]. *)
Definition in_style (st : style) (story : list flowable) : list flowable :=
  filter (fun f => match f, st with
                   | Paragraph _ CustomTitle, CustomTitle
                   | Paragraph _ CustomHeading, CustomHeading
                   | Paragraph _ CustomBody, CustomBody
                   | Paragraph _ MetaData, MetaData
                   | Paragraph _ Separator, Separator => true
                   | _, _ => false
                   end) story.

(** The page breaks of [story]. *)
Definition page_breaks (story : list flowable) : list flowable :=
  filter (fun f => match f with PageBreak => true | _ => false end) story.

(** The patterns of [clean_content] in the order of the source, the two
    literal replacements of the line breaks apart. *)
Definition cascade (digit : char -> bool) : list matcher :=
  [m_line (lit "### ")
     (lit "<b><font " ++ attr "size" "12" ++ lit ">") (lit "</font></b>");
   m_line (lit "## ")
     (lit "<b><font " ++ attr "size" "14" ++ lit ">") (lit "</font></b>");
   m_line (lit "# ")
     (lit "<b><font " ++ attr "size" "16" ++ lit ">") (lit "</font></b>");
   m_span (lit "**") (lit "**") (lit "<b>") (lit "</b>");
   m_span (lit "*") (lit "*") (lit "<i>") (lit "</i>");
   m_span (lit "~~") (lit "~~") (lit "<strike>") (lit "</strike>");
   m_inline_code
     (lit "<font " ++ attr "face" "Courier" ++ lit ">") (lit "</font>");
   m_bol [BULLET; 32%N] [BULLET; 32%N];
   m_bol (lit "- ") [BULLET; 32%N];
   m_numbered digit;
   m_line (lit "> ")
     (lit "<i>" ++ [DQ] ++ lit "  ") (lit "  " ++ [DQ] ++ lit "</i>");
   m_code_block;
   m_table;
   m_line (lit "- [x] ") [CHECK; 32%N] [];
   m_line (lit "- [ ] ") [BOX; 32%N] [];
   m_rule;
   m_link].

(** The pattern [m] matches at no position of [s]; [bol] tells whether
    [s] starts a line. *)
Fixpoint never_matches (m : matcher) (bol : bool) (s : str) : bool :=
  match s with
  | [] => true
  | c :: rest =>
      match m bol s with
      | Some _ => false
      | None => never_matches m (N.eqb c NL) rest
      end
  end.

(** Unmatched text: none of the patterns matches anywhere in it. *)
Definition unmatched (digit : char -> bool) (s : str) : bool :=
  forallb (fun m => never_matches m true s) (cascade digit).

(** The text with its line breaks as tags, lines 124 and 125. *)
Definition line_breaks (s : str) : str :=
  str_replace [NL] BR (str_replace [NL; NL] (BR ++ BR) s).

(** The characters an inline pattern starts with: the star, the tilde,
    the backtick, the pipe and the opening bracket. *)
Definition inline_opener (c : char) : bool :=
  N.eqb c STAR || N.eqb c 126 || N.eqb c BACKTICK || N.eqb c PIPE
  || N.eqb c 91.

(** The characters a line pattern starts with: the hash, the bullet, the
    dash, the closing angle bracket and the digits. *)
Definition line_opener (digit : char -> bool) (c : char) : bool :=
  N.eqb c 35 || N.eqb c BULLET || N.eqb c DASH || N.eqb c 62 || digit c.

(** Text of any number of lines without markup: no inline opener in it,
    and no line of it starts with a line opener.  Hashes, dashes, digits
    and angle brackets inside a line are allowed. *)
Fixpoint calm (digit : char -> bool) (bol : bool) (s : str) : bool :=
  match s with
  | [] => true
  | c :: rest =>
      negb (inline_opener c)
      && (negb bol || negb (line_opener digit c))
      && calm digit (N.eqb c NL) rest
  end.

(** An opener [o] that nothing closes in the text [b] behind it: a
    single star, one or two tildes, one, two or three backticks, a
    single pipe, or an opening bracket when [b] lacks the closing
    bracket or the closing parenthesis. *)
Definition unclosed (o b : str) : Prop :=
  In o [[STAR]; [126%N]; [126%N; 126%N]; [BACKTICK];
        [BACKTICK; BACKTICK]; fence; [PIPE]]
  \/ (o = [91%N] /\ (lacks 93%N b \/ lacks 41%N b)).

(** A pattern is guarded by the character it starts with: an inline
    opener, or a line opener at the beginning of a line. *)
Definition guarded (digit : char -> bool) (m : matcher) : Prop :=
  (exists k, starts_with_char m k /\ inline_opener k = true)
  \/ ((forall s, m false s = None)
      /\ forall c rest, line_opener digit c = false ->
                        m true (c :: rest) = None).

(** Blocks laid out one after the other, with [sep] between two of
    them and nowhere else. *)
Fixpoint between {A : Type} (sep : list A) (blocks : list (list A))
  : list A :=
  match blocks with
  | [] => []
  | b :: rest =>
      match rest with
      | [] => b
      | _ :: _ => b ++ sep ++ between sep rest
      end
  end.

(** The titles and the separators of [story], in its order. *)
Definition landmarks (story : list flowable) : list flowable :=
  filter (fun f => match f with
                   | Paragraph _ CustomTitle | Paragraph _ Separator => true
                   | _ => false
                   end) story.

(** A table row as it is written: a pipe, the cells with a pipe between
    two of them, a pipe. *)
Definition row_text (cells : list str) : str :=
  [PIPE] ++ join [PIPE] cells ++ [PIPE].

(** The cells of a row that is no rule: there is a cell, the first one
    does not start with two dashes, and every cell has something besides
    white space in it and neither a pipe nor a newline. *)
Definition table_cells (cells : list str) : Prop :=
  cells <> []
  /\ startswith (lit "--") (hd [] cells) = false
  /\ Forall (fun cell =>
               negb (length (strip cell) =? 0) = true
               /\ lacks PIPE cell /\ lacks NL cell) cells.

(** No occurrence of [sep] starts inside [p], whatever follows [p]. *)
Fixpoint never_starts (sep p : str) : Prop :=
  match p with
  | [] => True
  | c :: v =>
      (forall w, startswith sep (c :: v ++ w) = false)
      /\ never_starts sep v
  end.

(** A non-empty line of text without markers, newline or [<]. *)
Definition text_line (digit : char -> bool) (l : str) : Prop :=
  l <> [] /\ plain digit l /\ lacks NL l /\ lacks 60%N l.

(** [str.replace] of one character, character by character. *)
Definition replace_char (k : char) (new : str) (c : char) : str :=
  if N.eqb k c then new else [c].

(** The test of the paragraph loop: [if paragraph_text.strip()]. *)
Definition nonblank (paragraph_text : str) : bool :=
  negb (length (strip paragraph_text) =? 0).

End PDFGenerator.

(* ------------------------------------------------------------------ *)
(** ** The handlers of [app.py] that reach the store *)

Module App.

Import NoteManager.

(** Python's truth value of a [str]: non-empty. *)
Definition truthy (s : str) : bool := negb (length s =? 0).

Section Sidebar.

Variable lower : str -> str.

(** The sidebar's own filter over the listing, lines 66 to 73. *)
Definition filtered_notes (search_query : str) (notes : list Note)
  : list Note :=
  if truthy search_query then
    filter (fun note =>
              contains (lower (title note)) (lower search_query)
              || contains (lower (content note)) (lower search_query))
      notes
  else notes.

End Sidebar.

(** The label of a note's button: an icon, the first thirty characters
    of the title, and three dots when the title has more. *)
Definition note_button_label (note : Note) : str :=
  [128196%N; 32%N] ++ firstn 30 (title note)
    ++ (if 30 <? length (title note) then lit "..." else []).

(** The raw text shown beside the preview. *)
Definition display_content (content : str) : str :=
  if 1000 <? length content then firstn 1000 content ++ lit "..."
  else content.

(** The two entries of [st.session_state] the handlers share. *)
Record session : Type := mkSession {
  current_note_id : option str;
  edit_mode : bool
}.

(** What the user is told. *)
Inductive notice : Type :=
| NoteUpdated | UpdateFailed | NoteSaved | SaveFailed | EnterBoth
| NoteDeleted | NothingShown.

(** [if st.session_state.current_note_id:] *)
Definition selected (ss : session) : option str :=
  match current_note_id ss with
  | Some note_id => if truthy note_id then Some note_id else None
  | None => None
  end.

(** The handler of the Save button, lines 298 to 324; [title] and
    [content] are the texts of the two inputs. *)
Definition save_click (uuid4 now title content : str) (ss : session)
  : world -> exc (notice * session) * world :=
  fun w =>
    if truthy (strip title) && truthy (strip content) then
      match selected ss with
      | Some note_id =>
          match update_note now note_id (strip title) (strip content) w with
          | (Ret success, w') =>
              if success
              then (Ret (NoteUpdated, mkSession (current_note_id ss) false),
                    w')
              else (Ret (UpdateFailed, ss), w')
          | (Raise e, w') => (Raise e, w')
          end
      | None =>
          match create_note uuid4 now (strip title) (strip content) w with
          | (Ret (Some note_id), w') =>
              if truthy note_id
              then (Ret (NoteSaved, mkSession (Some note_id) false), w')
              else (Ret (SaveFailed, ss), w')
          | (Ret None, w') => (Ret (SaveFailed, ss), w')
          | (Raise e, w') => (Raise e, w')
          end
      end
    else (Ret (EnterBoth, ss), w).

(** The handler of a note's delete button, lines 96 to 101. *)
Definition delete_click (note_id : str) (ss : session)
  : world -> exc (notice * session) * world :=
  fun w =>
    match delete_note note_id w with
    | (Ret true, w') =>
        let ss' :=
          match current_note_id ss with
          | Some current =>
              if str_eqb current note_id
              then mkSession None (edit_mode ss) else ss
          | None => ss
          end in
        (Ret (NoteDeleted, ss'), w')
    | (Ret false, w') => (Ret (NothingShown, ss), w')
    | (Raise e, w') => (Raise e, w')
    end.

End App.

(* ================================================================== *)
(** * Part II: the theorems *)
(* ================================================================== *)

(** ** Facts about Python text *)

Module PyFacts.

Lemma str_eqb_eq (a b : str) : str_eqb a b = true <-> a = b.
Proof.
  revert b; induction a as [|x a IH]; intros [|y b]; simpl;
    try (split; [discriminate | discriminate]); try tauto.
  rewrite andb_true_iff, N.eqb_eq, IH.
  split; [intros [-> ->]; reflexivity | intros [= -> ->]; auto].
Qed.

Lemma str_eqb_refl (a : str) : str_eqb a a = true.
Proof. apply str_eqb_eq; reflexivity. Qed.

Lemma str_eqb_neq (a b : str) : str_eqb a b = false <-> a <> b.
Proof.
  rewrite <- str_eqb_eq. destruct (str_eqb a b); split; congruence.
Qed.

Lemma str_ltb_irrefl (a : str) : str_ltb a a = false.
Proof.
  induction a as [|x a IH]; simpl; auto.
  rewrite N.ltb_irrefl, N.eqb_refl; exact IH.
Qed.

Lemma str_ltb_trans (a b c : str) :
  str_ltb a b = true -> str_ltb b c = true -> str_ltb a c = true.
Proof.
  revert b c; induction a as [|x a IH]; intros [|y b] [|z c]; simpl;
    try discriminate; auto.
  destruct (N.ltb_spec x y), (N.ltb_spec y z), (N.ltb_spec x z);
    destruct (N.eqb_spec x y), (N.eqb_spec y z), (N.eqb_spec x z);
    try discriminate; try lia; auto.
  apply IH.
Qed.

(** The order is total: two texts neither of which is below the other
    are equal. *)
Lemma str_ltb_connex (a b : str) :
  str_ltb a b = false -> str_ltb b a = false -> a = b.
Proof.
  revert b; induction a as [|x a IH]; intros [|y b]; simpl;
    try discriminate; auto.
  destruct (N.ltb_spec x y), (N.ltb_spec y x);
    destruct (N.eqb_spec x y), (N.eqb_spec y x);
    try discriminate; try lia.
  intros H1 H2; subst; f_equal; auto.
Qed.

Lemma str_ltb_asym (a b : str) : str_ltb a b = true -> str_ltb b a = false.
Proof.
  intros H. destruct (str_ltb b a) eqn:E; auto.
  pose proof (str_ltb_trans _ _ _ H E) as F.
  rewrite str_ltb_irrefl in F; discriminate.
Qed.

(** "Not below" is transitive. *)
Lemma str_geb_trans (a b c : str) :
  str_ltb a b = false -> str_ltb b c = false -> str_ltb a c = false.
Proof.
  intros Hab Hbc. destruct (str_ltb a c) eqn:Hac; auto.
  destruct (str_ltb b a) eqn:Hba.
  - rewrite (str_ltb_trans _ _ _ Hba Hac) in Hbc; discriminate.
  - rewrite (str_ltb_connex _ _ Hab Hba) in Hac; congruence.
Qed.

Lemma startswith_spec (p s : str) :
  startswith p s = true <-> exists post, s = p ++ post.
Proof.
  revert s; induction p as [|x p IH]; intros s; simpl.
  - split; eauto.
  - destruct s as [|y s].
    + split; [discriminate | intros [post H]; discriminate].
    + rewrite andb_true_iff, N.eqb_eq, IH. split.
      * intros [-> [post ->]]; eauto.
      * intros [post [= -> ->]]; eauto.
Qed.

(** [sub in s] holds exactly when [s] is some text, then [sub], then
    some text. *)
Lemma contains_spec (s sub : str) :
  contains s sub = true <-> exists pre post, s = pre ++ sub ++ post.
Proof.
  induction s as [|c s IH]; simpl; rewrite orb_true_iff, startswith_spec.
  - split.
    + intros [[post H] | H]; [exists [], post; exact H | discriminate].
    + intros [pre [post H]]. left. exists post.
      destruct pre; [exact H | discriminate].
  - rewrite IH. split.
    + intros [[post H] | [pre [post H]]].
      * exists [], post; exact H.
      * exists (c :: pre), post; simpl; congruence.
    + intros [[|d pre] [post H]].
      * left; exists post; exact H.
      * right; injection H as _ H; eauto.
Qed.

End PyFacts.

Import PyFacts.

(* ------------------------------------------------------------------ *)
(** ** The note store *)

Module NoteManagerSpec.

Import NoteManager.

(** What a method sees of the disk after [load_notes]. *)
Lemma load_notes_eq (w : world) :
  load_notes w =
  (match file w with
   | Holds notes => Ret notes
   | Denied => Raise PermissionError
   | Absent | Garbled => Ret []
   end, w).
Proof.
  unfold load_notes, try_except, read_json.
  destruct (file w); reflexivity.
Qed.

Ltac run_method :=
  unfold create_note, get_note, get_all_notes, update_note, delete_note,
    get_notes_count, search_notes, try_except, bind, ret;
  repeat (unfold get_all_notes, try_except, bind, ret);
  rewrite ?load_notes_eq.

(** *** Sorting *)

Lemma insert_desc_perm (x : Note) (l : list Note) :
  Permutation (x :: l) (insert_desc x l).
Proof.
  induction l as [|y l IH]; simpl; auto.
  destruct (str_ltb (created_at x) (created_at y)); auto.
  rewrite perm_swap. constructor. exact IH.
Qed.

Lemma sorted_desc_perm (l : list Note) : Permutation l (sorted_desc l).
Proof.
  induction l as [|x l IH]; simpl; auto.
  rewrite <- insert_desc_perm. constructor. exact IH.
Qed.

Lemma insert_desc_sorted (x : Note) (l : list Note) :
  StronglySorted not_older l -> StronglySorted not_older (insert_desc x l).
Proof.
  induction l as [|y l IH]; simpl; intros Hs.
  - repeat constructor.
  - inversion Hs as [|? ? Hl Hy]; subst.
    destruct (str_ltb (created_at x) (created_at y)) eqn:E.
    + constructor; auto.
      eapply Permutation_Forall; [apply insert_desc_perm|].
      constructor; auto. apply str_ltb_asym; exact E.
    + constructor; auto. constructor; auto.
      eapply Forall_impl; [|exact Hy].
      intros z Hz. unfold not_older in *. eapply str_geb_trans; eauto.
Qed.

Lemma sorted_desc_sorted (l : list Note) :
  StronglySorted not_older (sorted_desc l).
Proof.
  induction l as [|x l IH]; simpl.
  - constructor.
  - apply insert_desc_sorted; exact IH.
Qed.

(** With pairwise distinct keys the order is strict. *)
Lemma sorted_distinct_strict (l : list Note) :
  NoDup (map created_at l) ->
  StronglySorted not_older l -> StronglySorted newer l.
Proof.
  induction l as [|x l IH]; simpl; intros Hn Hs.
  - constructor.
  - inversion Hn as [|? ? Hx Hl]; inversion Hs as [|? ? Hsl Hxl]; subst.
    constructor; auto.
    rewrite Forall_forall in *. intros y Hy.
    unfold newer. destruct (str_ltb (created_at y) (created_at x)) eqn:E; auto.
    exfalso. apply Hx. apply in_map_iff. exists y. split; auto.
    apply str_ltb_connex; auto. apply Hxl; exact Hy.
Qed.

(** A list has at most one arrangement in strictly descending order:
    with pairwise distinct keys every correct sort, Python's included,
    returns the list that [sorted_desc] computes. *)
Lemma newest_first_unique (l1 l2 : list Note) :
  Permutation l1 l2 ->
  StronglySorted newer l1 -> StronglySorted newer l2 -> l1 = l2.
Proof.
  revert l2; induction l1 as [|a l1 IH]; intros l2 Hp H1 H2.
  - apply Permutation_nil in Hp. auto.
  - destruct l2 as [|b l2].
    + apply Permutation_sym, Permutation_nil in Hp. discriminate.
    + inversion H1 as [|? ? Hs1 Ha]; inversion H2 as [|? ? Hs2 Hb]; subst.
      rewrite Forall_forall in Ha, Hb.
      assert (Hab : a = b).
      { assert (Ia : In a (b :: l2))
          by (eapply Permutation_in; [exact Hp | left; reflexivity]).
        assert (Ib : In b (a :: l1))
          by (eapply Permutation_in;
              [apply Permutation_sym; exact Hp | left; reflexivity]).
        destruct Ia as [Ia | Ia]; [auto|].
        destruct Ib as [Ib | Ib]; [auto|].
        apply Hb in Ia. apply Ha in Ib. unfold newer in Ia, Ib.
        rewrite (str_ltb_asym _ _ Ia) in Ib. discriminate. }
      subst b. f_equal. apply IH; auto.
      eapply Permutation_cons_inv; exact Hp.
Qed.

Lemma get_all_notes_eq (w : world) :
  get_all_notes w =
  (Ret (match file w with Holds notes => sorted_desc notes | _ => [] end), w).
Proof. run_method. destruct (file w); reflexivity. Qed.

Lemma stored_holds (notes : list Note) (flt : write_fault) :
  stored (mkWorld (Holds notes) flt) = notes.
Proof. reflexivity. Qed.

Lemma get_note_eq (w : world) (note_id : str) :
  get_note note_id w = (Ret (first_with_id (stored w) note_id), w).
Proof. run_method. unfold stored. destruct (file w); reflexivity. Qed.

Lemma get_notes_count_eq (w : world) :
  get_notes_count w = (Ret (length (stored w)), w).
Proof. run_method. unfold stored. destruct (file w); reflexivity. Qed.

(** *** The loops *)

Lemma search_loop_filter (lower : str -> str) (query : str)
  (notes acc : list Note) :
  search_loop lower query notes acc
  = acc ++ filter (note_matches lower query) notes.
Proof.
  revert acc; induction notes as [|n notes IH]; intros acc; simpl.
  - rewrite app_nil_r; reflexivity.
  - destruct (note_matches lower query n); rewrite IH; auto.
    rewrite <- app_assoc; reflexivity.
Qed.

Lemma first_with_id_none (notes : list Note) (note_id : str) :
  first_with_id notes note_id = None <->
  (forall n, In n notes -> id n <> note_id).
Proof.
  induction notes as [|x notes IH]; simpl.
  - split; [intros _ n [] | reflexivity].
  - destruct (str_eqb (id x) note_id) eqn:E.
    + apply str_eqb_eq in E. split; [discriminate|].
      intros H. exfalso. apply (H x); auto.
    + apply str_eqb_neq in E. rewrite IH. split.
      * intros H n [<-|Hn]; auto.
      * intros H n Hn; apply H; auto.
Qed.

Lemma first_with_id_app (notes : list Note) (n : Note) (note_id : str) :
  first_with_id notes note_id = None ->
  first_with_id (notes ++ [n]) note_id
  = if str_eqb (id n) note_id then Some n else None.
Proof.
  induction notes as [|x notes IH]; simpl; auto.
  destruct (str_eqb (id x) note_id); [discriminate | exact IH].
Qed.

Lemma first_with_id_without (notes : list Note) (note_id : str) :
  first_with_id (without_id notes note_id) note_id = None.
Proof.
  apply first_with_id_none. intros n Hn.
  apply filter_In in Hn. destruct Hn as [_ Hn].
  apply negb_true_iff, str_eqb_neq in Hn. exact Hn.
Qed.

Lemma without_id_length (notes : list Note) (note_id : str) :
  length (without_id notes note_id)
  + length (filter (fun n => str_eqb (id n) note_id) notes)
  = length notes.
Proof.
  unfold without_id. induction notes as [|x notes IH]; simpl; auto.
  destruct (str_eqb (id x) note_id); simpl; lia.
Qed.

Lemma matching_nonempty (notes : list Note) (note_id : str) :
  0 < length (filter (fun n => str_eqb (id n) note_id) notes) <->
  exists n, In n notes /\ id n = note_id.
Proof.
  split.
  - destruct (filter _ notes) as [|n l] eqn:E; simpl; [lia|].
    intros _. exists n.
    assert (H : In n (filter (fun n => str_eqb (id n) note_id) notes))
      by (rewrite E; left; reflexivity).
    apply filter_In in H. destruct H as [H1 H2].
    apply str_eqb_eq in H2; auto.
  - intros [n [Hn Hid]].
    assert (H : In n (filter (fun n => str_eqb (id n) note_id) notes)).
    { apply filter_In. split; auto. apply str_eqb_eq; auto. }
    destruct (filter _ notes); [destruct H | simpl; lia].
Qed.

Lemma update_first_nth (notes notes' : list Note)
  (note_id title content now : str) :
  NoDup (map id notes) ->
  update_first notes note_id title content now = Some notes' ->
  forall i n, nth_error notes i = Some n ->
    nth_error notes' i
    = Some (if str_eqb (id n) note_id then updated n title content now
            else n).
Proof.
  revert notes'; induction notes as [|x notes IH]; simpl; intros notes' Hn H.
  - discriminate.
  - inversion Hn as [|? ? Hx Hl]; subst.
    destruct (str_eqb (id x) note_id) eqn:E.
    + injection H as <-. intros [|i] n Hi; simpl in *.
      * injection Hi as <-. rewrite E. reflexivity.
      * rewrite Hi. apply nth_error_In in Hi.
        destruct (str_eqb (id n) note_id) eqn:E'; auto.
        exfalso. apply Hx. apply str_eqb_eq in E, E'.
        apply in_map_iff. exists n. split; congruence.
    + destruct (update_first notes note_id title content now) as [r|] eqn:U;
        [|discriminate].
      injection H as <-. intros [|i] n Hi; simpl in *.
      * injection Hi as <-. rewrite E. reflexivity.
      * eapply IH; eauto.
Qed.

Lemma update_first_length (notes notes' : list Note)
  (note_id title content now : str) :
  update_first notes note_id title content now = Some notes' ->
  length notes' = length notes.
Proof.
  revert notes'; induction notes as [|x notes IH]; simpl; intros notes' H.
  - discriminate.
  - destruct (str_eqb (id x) note_id).
    + injection H as <-. reflexivity.
    + destruct (update_first notes note_id title content now) as [r|];
        [|discriminate].
      injection H as <-. simpl. f_equal. apply IH. reflexivity.
Qed.

(** *** The claims about the store *)

(** C1, as amended.  [create_note] answers the generated identifier when
    the save succeeds and [None] when loading raises or the save fails.
    On success the file holds the whole loaded collection with the new
    note appended.  When loading raises or the file cannot be opened for
    writing, the disk is untouched.  When the write fails after the file
    has been opened, the file is left truncated: it no longer parses and
    later reads see an empty collection. *)
Theorem create_note_outcomes (w : world) (uuid4 now title content : str) :
  let new_note := mkNote uuid4 title content now now in
  match file w, fault w with
  | Denied, _ =>
      create_note uuid4 now title content w = (Ret None, w)
  | _, NoFault =>
      create_note uuid4 now title content w
      = (Ret (Some uuid4), mkWorld (Holds (stored w ++ [new_note])) NoFault)
  | _, OpenFails =>
      create_note uuid4 now title content w = (Ret None, w)
  | _, DumpFails =>
      create_note uuid4 now title content w
      = (Ret None, mkWorld Garbled DumpFails)
      /\ get_all_notes (mkWorld Garbled DumpFails)
         = (Ret [], mkWorld Garbled DumpFails)
  end.
Proof.
  destruct w as [f flt]. unfold stored. simpl.
  destruct f, flt; simpl; try split; reflexivity.
Qed.

(** C1 as stated fails: on a disk where the write breaks off after the
    file was opened, [create_note] reports failure and the three stored
    notes are gone. *)
Lemma create_note_truncates_file :
  fst (get_all_notes full_disk_world) = Ret [note_b; note_a; note_c]
  /\ create_note (lit "id-d") (lit "2024-03-09T10:00:00")
       (lit "Title") (lit "Text") full_disk_world
     = (Ret None, mkWorld Garbled DumpFails)
  /\ fst (get_all_notes (mkWorld Garbled DumpFails)) = Ret [].
Proof. repeat split; reflexivity. Qed.

(** C2.  On every disk the four read paths return a value and leave the
    disk alone; when the file holds no list (missing, unparseable, or not
    readable) they return what they return on an empty collection: no
    note, the empty listing, no match, the count zero. *)
Theorem read_paths_tolerate_load_errors (lower : str -> str) (w : world)
  (note_id query : str) :
  ((exists r, get_note note_id w = (Ret r, w))
   /\ (exists r, get_all_notes w = (Ret r, w))
   /\ (exists r, search_notes lower query w = (Ret r, w))
   /\ (exists r, get_notes_count w = (Ret r, w)))
  /\ ((forall notes, file w <> Holds notes) ->
      let empty := mkWorld (Holds []) (fault w) in
      (get_note note_id w = (Ret None, w)
       /\ fst (get_note note_id empty) = Ret None)
      /\ (get_all_notes w = (Ret [], w)
          /\ fst (get_all_notes empty) = Ret [])
      /\ (search_notes lower query w = (Ret [], w)
          /\ fst (search_notes lower query empty) = Ret [])
      /\ (get_notes_count w = (Ret 0, w)
          /\ fst (get_notes_count empty) = Ret 0)).
Proof.
  destruct w as [f flt]. split.
  - destruct f; run_method; simpl; eauto 10.
  - intros H. destruct f; try (exfalso; eapply H; reflexivity);
      repeat split; reflexivity.
Qed.

Lemma read_paths_tolerate_load_errors_witness :
  (forall notes, file denied_world <> Holds notes)
  /\ get_note (lit "id-a") denied_world = (Ret None, denied_world)
  /\ get_all_notes denied_world = (Ret [], denied_world)
  /\ search_notes ascii_lower (lit "hello") denied_world
     = (Ret [], denied_world)
  /\ get_notes_count denied_world = (Ret 0, denied_world).
Proof.
  split; [intros notes; discriminate|].
  destruct (read_paths_tolerate_load_errors ascii_lower denied_world
              (lit "id-a") (lit "hello")) as [_ H].
  destruct H as [[H1 _] [[H2 _] [[H3 _] [H4 _]]]];
    [intros notes; discriminate|].
  exact (conj H1 (conj H2 (conj H3 H4))).
Defined.

(** C5.  If [create_note] succeeds with an identifier that no stored note
    carries (what [uuid.uuid4] promises), [get_note] on the resulting
    disk returns a note with that identifier, the given title and
    content, and both timestamps equal to the time of creation.  The
    statement holds for every title and content, trimmed or not. *)
Theorem create_then_get (w w' : world) (uuid4 now T C note_id : str) :
  first_with_id (stored w) uuid4 = None ->
  create_note uuid4 now T C w = (Ret (Some note_id), w') ->
  exists n,
    get_note note_id w' = (Ret (Some n), w')
    /\ id n = note_id /\ title n = T /\ content n = C
    /\ created_at n = updated_at n /\ created_at n = now.
Proof.
  intros Hfresh Hc.
  destruct w as [f flt].
  assert (Hw : note_id = uuid4
               /\ w' = mkWorld (Holds (stored (mkWorld f flt)
                                        ++ [mkNote uuid4 T C now now]))
                         NoFault).
  { destruct f, flt; cbn in Hc; try discriminate;
      injection Hc as <- <-; auto. }
  destruct Hw as [-> ->].
  exists (mkNote uuid4 T C now now).
  run_method. simpl.
  rewrite first_with_id_app by exact Hfresh. simpl.
  rewrite str_eqb_refl. repeat split; reflexivity.
Qed.

Lemma create_then_get_witness :
  first_with_id (stored sample_world) (lit "id-d") = None
  /\ exists n,
       get_note (lit "id-d")
         (snd (create_note (lit "id-d") (lit "2024-03-09T10:00:00")
                 (lit "Title") (lit "Text") sample_world))
       = (Ret (Some n),
          snd (create_note (lit "id-d") (lit "2024-03-09T10:00:00")
                 (lit "Title") (lit "Text") sample_world))
       /\ id n = lit "id-d" /\ title n = lit "Title"
       /\ content n = lit "Text"
       /\ created_at n = updated_at n
       /\ created_at n = lit "2024-03-09T10:00:00".
Proof.
  split; [reflexivity|].
  apply (create_then_get sample_world _ (lit "id-d")
           (lit "2024-03-09T10:00:00") (lit "Title") (lit "Text")
           (lit "id-d")); reflexivity.
Defined.

(** C6.  In a store whose identifiers are pairwise distinct, after a
    successful [update_note] the note with the identifier keeps its
    position, its [id] and its [created_at], has the new title and
    content and [updated_at] set to the current time (hence not earlier
    than before when the clock has not gone back), and every other note
    is unchanged. *)
Theorem update_note_frame (w w' : world) (now note_id T2 C2 : str) :
  NoDup (map id (stored w)) ->
  update_note now note_id T2 C2 w = (Ret true, w') ->
  exists notes',
    file w' = Holds notes'
    /\ length notes' = length (stored w)
    /\ forall i n, nth_error (stored w) i = Some n ->
         (id n = note_id ->
          exists n',
            nth_error notes' i = Some n'
            /\ id n' = id n /\ created_at n' = created_at n
            /\ title n' = T2 /\ content n' = C2 /\ updated_at n' = now
            /\ (str_ltb now (updated_at n) = false ->
                str_ltb (updated_at n') (updated_at n) = false))
         /\ (id n <> note_id -> nth_error notes' i = Some n).
Proof.
  intros Hnd Hu. revert Hu. run_method.
  assert (Hl : (match file w with
                | Holds notes => Ret notes
                | Denied => Raise PermissionError
                | _ => Ret []
                end) = Ret (stored w) \/ file w = Denied).
  { unfold stored. destruct (file w); auto. }
  destruct Hl as [Hl | Hl]; [rewrite Hl | rewrite Hl; discriminate].
  destruct (update_first (stored w) note_id T2 C2 now) as [notes'|] eqn:U;
    [|discriminate].
  unfold save_notes. destruct (fault w); try discriminate.
  intros [= <-]. exists notes'. simpl. split; [reflexivity|].
  split; [eapply update_first_length; eauto|].
  intros i n Hi.
  pose proof (update_first_nth _ _ _ _ _ _ Hnd U i n Hi) as Hn. split.
  - intros Hid. apply str_eqb_eq in Hid. rewrite Hid in Hn.
    exists (updated n T2 C2 now). simpl. repeat split; auto.
  - intros Hid. apply str_eqb_neq in Hid. rewrite Hid in Hn. exact Hn.
Qed.

Lemma update_note_frame_witness :
  let w' := mkWorld (Holds [note_a;
                            updated note_b (lit "Report v2")
                              (lit "final numbers")
                              (lit "2024-03-09T10:00:00");
                            note_c]) NoFault in
  NoDup (map id (stored sample_world))
  /\ update_note (lit "2024-03-09T10:00:00") (lit "id-b")
       (lit "Report v2") (lit "final numbers") sample_world
     = (Ret true, w')
  /\ exists notes',
       file w' = Holds notes'
       /\ length notes' = length (stored sample_world)
       /\ forall i n, nth_error (stored sample_world) i = Some n ->
            (id n = lit "id-b" ->
             exists n',
               nth_error notes' i = Some n'
               /\ id n' = id n /\ created_at n' = created_at n
               /\ title n' = lit "Report v2"
               /\ content n' = lit "final numbers"
               /\ updated_at n' = lit "2024-03-09T10:00:00"
               /\ (str_ltb (lit "2024-03-09T10:00:00") (updated_at n)
                   = false ->
                   str_ltb (updated_at n') (updated_at n) = false))
            /\ (id n <> lit "id-b" -> nth_error notes' i = Some n).
Proof.
  assert (Hd : NoDup (map id (stored sample_world))).
  { repeat constructor; simpl; intuition discriminate. }
  split; [exact Hd|]. split; [reflexivity|].
  exact (update_note_frame sample_world _
           (lit "2024-03-09T10:00:00") (lit "id-b")
           (lit "Report v2") (lit "final numbers") Hd eq_refl).
Defined.

(** C7.  When the stored notes have pairwise distinct [created_at],
    [get_all_notes] returns all of them, each once, in strictly
    descending order of [created_at]. *)
Theorem get_all_notes_newest_first (w : world) (notes : list Note) :
  file w = Holds notes ->
  NoDup (map created_at notes) ->
  exists l,
    get_all_notes w = (Ret l, w)
    /\ Permutation notes l
    /\ StronglySorted newer l.
Proof.
  intros Hf Hd. exists (sorted_desc notes).
  rewrite get_all_notes_eq, Hf. split; [reflexivity|].
  split; [apply sorted_desc_perm|].
  apply sorted_distinct_strict; [|apply sorted_desc_sorted].
  intros. eapply Permutation_NoDup; [|exact Hd].
  apply Permutation_map. apply sorted_desc_perm.
Qed.

Lemma get_all_notes_newest_first_witness :
  file sample_world = Holds [note_a; note_b; note_c]
  /\ NoDup (map created_at [note_a; note_b; note_c])
  /\ get_all_notes sample_world = (Ret [note_b; note_a; note_c], sample_world)
  /\ exists l,
       get_all_notes sample_world = (Ret l, sample_world)
       /\ Permutation [note_a; note_b; note_c] l
       /\ StronglySorted newer l.
Proof.
  assert (Hd : NoDup (map created_at [note_a; note_b; note_c])).
  { repeat constructor; simpl; intuition discriminate. }
  split; [reflexivity|]. split; [exact Hd|]. split; [reflexivity|].
  exact (get_all_notes_newest_first sample_world _ eq_refl Hd).
Defined.

(** C8.  [search_notes] returns the notes of the full listing, in the
    order of the listing, whose lower-cased title or lower-cased content
    contains the lower-cased query as a substring; so a note of the
    listing is returned exactly when its title or its content, both
    lower-cased, reads some text, the lower-cased query, some text.  With
    the query [HELLO] a listed note whose content is [say hello] is among
    the results. *)
Theorem search_notes_case_insensitive (lower : str -> str) (w : world)
  (query : str) :
  let hit := fun n =>
    contains (lower (title n)) (lower query)
    || contains (lower (content n)) (lower query) in
  search_notes lower query w = (Ret (filter hit (listing w)), w)
  /\ (forall n, In n (filter hit (listing w)) <->
        In n (listing w)
        /\ ((exists pre post, lower (title n) = pre ++ lower query ++ post)
            \/ (exists pre post,
                  lower (content n) = pre ++ lower query ++ post)))
  /\ (forall n, In n (listing w) -> content n = lit "say hello" ->
        exists result,
          search_notes ascii_lower (lit "HELLO") w = (Ret result, w)
          /\ In n result).
Proof.
  assert (Hs : forall lw q,
    search_notes lw q w
    = (Ret (filter (note_matches lw (lw q)) (listing w)), w)).
  { intros lw q. unfold search_notes, try_except, bind, ret, listing.
    rewrite get_all_notes_eq. simpl. rewrite search_loop_filter.
    reflexivity. }
  cbv zeta. split; [apply Hs|]. split.
  - intros n. rewrite filter_In, orb_true_iff, !contains_spec. tauto.
  - intros n Hn Hc. eexists. split; [apply Hs|].
    apply filter_In. split; [exact Hn|].
    unfold note_matches. rewrite Hc. apply orb_true_iff. right.
    reflexivity.
Qed.

Lemma search_notes_case_insensitive_witness :
  In note_a (listing sample_world)
  /\ content note_a = lit "say hello"
  /\ search_notes ascii_lower (lit "HELLO") sample_world
     = (Ret [note_a], sample_world)
  /\ exists result,
       search_notes ascii_lower (lit "HELLO") sample_world
       = (Ret result, sample_world)
       /\ In note_a result.
Proof.
  assert (Hin : In note_a (listing sample_world))
    by (right; left; reflexivity).
  split; [exact Hin|]. split; [reflexivity|]. split; [reflexivity|].
  exact (proj2 (proj2 (search_notes_case_insensitive ascii_lower
                         sample_world (lit "HELLO")))
           note_a Hin eq_refl).
Defined.

(** C10.  [delete_note] returns a value on every disk.  It returns
    [True] exactly when some stored note has the identifier and the save
    succeeds; the file then holds the stored notes without every note
    that has the identifier.  When no stored note has the identifier it
    returns [False] and leaves the disk as it was.  When exactly one note
    has the identifier and the deletion succeeds, the count goes down by
    one and [get_note] no longer finds the identifier. *)
Theorem delete_note_removes_all (w : world) (note_id : str) :
  let notes := stored w in
  let after := snd (delete_note note_id w) in
  (exists ok, fst (delete_note note_id w) = Ret ok)
  /\ (fst (delete_note note_id w) = Ret true <->
      present notes note_id /\ fault w = NoFault)
  /\ (fst (delete_note note_id w) = Ret true ->
      file after = Holds (without_id notes note_id)
      /\ forall n, In n (without_id notes note_id) <->
                   In n notes /\ id n <> note_id)
  /\ (~ present notes note_id -> delete_note note_id w = (Ret false, w))
  /\ (length (filter (fun n => str_eqb (id n) note_id) notes) = 1 ->
      fst (delete_note note_id w) = Ret true ->
      (exists k, get_notes_count w = (Ret (S k), w)
                 /\ get_notes_count after = (Ret k, after))
      /\ get_note note_id after = (Ret None, after)).
Proof.
  cbv zeta.
  pose proof (without_id_length (stored w) note_id) as Hlen.
  pose proof (matching_nonempty (stored w) note_id) as Hne.
  fold (present (stored w) note_id) in Hne.
  assert (Hin : forall n, In n (without_id (stored w) note_id) <->
                          In n (stored w) /\ id n <> note_id).
  { intros n. unfold without_id. rewrite filter_In, negb_true_iff.
    rewrite str_eqb_neq. tauto. }
  assert (Hd : delete_note note_id w =
    match file w with
    | Denied => (Ret false, w)
    | _ => if length (without_id (stored w) note_id) <? length (stored w)
           then save_notes (without_id (stored w) note_id) w
           else (Ret false, w)
    end).
  { run_method. unfold stored, save_notes.
    destruct (file w); simpl; try reflexivity.
    destruct (_ <? _); [destruct (fault w)|]; reflexivity. }
  assert (Hst : file w = Denied -> stored w = [])
    by (unfold stored; intros ->; reflexivity).
  assert (Hcase :
    delete_note note_id w =
    if length (without_id (stored w) note_id) <? length (stored w)
    then save_notes (without_id (stored w) note_id) w
    else (Ret false, w)).
  { rewrite Hd. destruct (file w) eqn:F; auto.
    rewrite (Hst eq_refl). reflexivity. }
  clear Hd Hst. rewrite Hcase.
  destruct (Nat.ltb_spec (length (without_id (stored w) note_id))
              (length (stored w))) as [Hlt | Hge].
  - assert (Hp : present (stored w) note_id) by (apply Hne; lia).
    unfold save_notes. destruct (fault w) eqn:Ff; simpl.
    + split; [eauto|]. split; [tauto|]. split; [auto|].
      split; [tauto|]. intros Hone _. split.
      * exists (length (without_id (stored w) note_id)).
        rewrite !get_notes_count_eq. simpl.
        split; [|reflexivity]. repeat f_equal. lia.
      * rewrite get_note_eq, stored_holds, first_with_id_without.
        reflexivity.
    + split; [eauto|]. split; [split; [discriminate | intros [_ H]; discriminate]|].
      split; [discriminate|]. split; [tauto|]. discriminate.
    + split; [eauto|]. split; [split; [discriminate | intros [_ H]; discriminate]|].
      split; [discriminate|]. split; [tauto|]. discriminate.
  - assert (Hp : ~ present (stored w) note_id) by (intros H; apply Hne in H; lia).
    simpl. split; [eauto|].
    split; [split; [discriminate | tauto]|].
    split; [discriminate|]. split; [reflexivity|]. discriminate.
Qed.

Lemma delete_note_removes_all_witness :
  length (filter (fun n => str_eqb (id n) (lit "id-b")) (stored sample_world))
  = 1
  /\ delete_note (lit "id-b") sample_world
     = (Ret true, mkWorld (Holds [note_a; note_c]) NoFault)
  /\ (exists k,
        get_notes_count sample_world = (Ret (S k), sample_world)
        /\ get_notes_count (snd (delete_note (lit "id-b") sample_world))
           = (Ret k, snd (delete_note (lit "id-b") sample_world)))
  /\ get_note (lit "id-b") (snd (delete_note (lit "id-b") sample_world))
     = (Ret None, snd (delete_note (lit "id-b") sample_world)).
Proof.
  split; [reflexivity|]. split; [reflexivity|].
  exact (proj2 (proj2 (proj2 (proj2
           (delete_note_removes_all sample_world (lit "id-b")))))
           eq_refl eq_refl).
Defined.

End NoteManagerSpec.

(* ------------------------------------------------------------------ *)
(** ** The renderer and the exports *)

Module PDFGeneratorSpec.

Import PDFGenerator.

(** *** Where a substitution leaves the text alone *)

Lemma re_sub_from_untouched (m : matcher) (s : str) :
  (forall c rest, In c s -> forall bol, m bol (c :: rest) = None) ->
  forall bol, re_sub_from m 0 bol s = s.
Proof.
  induction s as [|c s IH]; simpl; intros H bol; auto.
  rewrite H by (left; reflexivity).
  f_equal. apply IH. intros d rest Hd. apply H. right; exact Hd.
Qed.

Lemma re_sub_untouched (m : matcher) (k : char) (s : str) :
  starts_with_char m k ->
  (forall c, In c s -> N.eqb c k = false) ->
  re_sub m s = s.
Proof.
  intros Hm Hs. apply re_sub_from_untouched.
  intros c rest Hc bol. apply Hm. apply Hs. exact Hc.
Qed.

Lemma startswith_first (k c : char) (p rest : str) :
  N.eqb c k = false -> startswith (k :: p) (c :: rest) = false.
Proof. intros H. simpl. rewrite N.eqb_sym, H. reflexivity. Qed.

Lemma m_line_start (k : char) (p pre post : str) :
  starts_with_char (m_line (k :: p) pre post) k.
Proof.
  intros bol c rest H. unfold m_line.
  rewrite startswith_first by exact H. rewrite andb_false_r. reflexivity.
Qed.

Lemma m_bol_start (k : char) (p repl : str) :
  starts_with_char (m_bol (k :: p) repl) k.
Proof.
  intros bol c rest H. unfold m_bol.
  rewrite startswith_first by exact H. rewrite andb_false_r. reflexivity.
Qed.

Lemma m_lit_start (k : char) (p repl : str) :
  starts_with_char (m_lit (k :: p) repl) k.
Proof.
  intros bol c rest H. unfold m_lit.
  rewrite startswith_first by exact H. reflexivity.
Qed.

Lemma m_span_start (k : char) (p close pre post : str) :
  starts_with_char (m_span (k :: p) close pre post) k.
Proof.
  intros bol c rest H. unfold m_span.
  rewrite startswith_first by exact H. reflexivity.
Qed.

Lemma m_inline_code_start (pre post : str) :
  starts_with_char (m_inline_code pre post) BACKTICK.
Proof. intros bol c rest H. unfold m_inline_code. rewrite H. reflexivity. Qed.

Lemma m_code_block_start : starts_with_char m_code_block BACKTICK.
Proof.
  intros bol c rest H. unfold m_code_block, fence.
  rewrite startswith_first by exact H. reflexivity.
Qed.

Lemma m_table_start : starts_with_char m_table PIPE.
Proof. intros bol c rest H. unfold m_table. rewrite H. reflexivity. Qed.

Lemma m_link_start : starts_with_char m_link 91%N.
Proof. intros bol c rest H. unfold m_link. rewrite H. reflexivity. Qed.

Lemma m_rule_start : starts_with_char m_rule DASH.
Proof.
  intros bol c rest H. unfold m_rule. cbn [line_rest].
  destruct (N.eqb c NL).
  - cbn [length Nat.leb]. rewrite andb_false_r. reflexivity.
  - cbn [forallb]. rewrite (N.eqb_sym DASH c), H.
    rewrite andb_false_l, andb_false_r. reflexivity.
Qed.

Lemma m_numbered_no_digit (digit : char -> bool) (bol : bool) (c : char)
  (rest : str) :
  digit c = false -> m_numbered digit bol (c :: rest) = None.
Proof. intros H. unfold m_numbered. simpl. rewrite H. reflexivity. Qed.

Lemma marker_false (digit : char -> bool) (c : char) :
  marker digit c = false ->
  (N.eqb c 35 = false /\ N.eqb c STAR = false /\ N.eqb c 126 = false
   /\ N.eqb c BACKTICK = false /\ N.eqb c BULLET = false)
  /\ (N.eqb c DASH = false /\ digit c = false /\ N.eqb c 62 = false
      /\ N.eqb c PIPE = false /\ N.eqb c 91 = false).
Proof.
  unfold marker. intros H.
  repeat (apply orb_false_iff in H; destruct H as [H ?]).
  repeat split; assumption.
Qed.

(** On a text without marker characters every substitution before the
    line breaks is the identity. *)
Ltac inert :=
  let c := fresh "c" in
  let Hc := fresh "Hc" in
  intros c Hc; apply marker_false in Hc; tauto.

Lemma clean_content_plain (digit : char -> bool) (s : str) :
  plain digit s ->
  clean_content digit s
  = str_replace [NL] BR (str_replace [NL; NL] (BR ++ BR) s).
Proof.
  intros Hs. unfold clean_content.
  assert (Hk : forall m k,
             starts_with_char m k ->
             (forall c, marker digit c = false -> N.eqb c k = false) ->
             re_sub m s = s).
  { intros m k Hm Hc. apply (re_sub_untouched m k); auto. }
  assert (Hn : re_sub (m_numbered digit) s = s).
  { apply re_sub_from_untouched. intros c rest Hc bol.
    apply m_numbered_no_digit. apply (marker_false digit c). auto. }
  rewrite (Hk (m_line (lit "### ") _ _) 35%N (m_line_start _ _ _ _)) by inert.
  rewrite (Hk (m_line (lit "## ") _ _) 35%N (m_line_start _ _ _ _)) by inert.
  rewrite (Hk (m_line (lit "# ") _ _) 35%N (m_line_start _ _ _ _)) by inert.
  rewrite (Hk (m_span (lit "**") _ _ _) STAR (m_span_start _ _ _ _ _)) by inert.
  rewrite (Hk (m_span (lit "*") _ _ _) STAR (m_span_start _ _ _ _ _)) by inert.
  rewrite (Hk (m_span (lit "~~") _ _ _) 126%N (m_span_start _ _ _ _ _)) by inert.
  rewrite (Hk (m_inline_code _ _) BACKTICK (m_inline_code_start _ _)) by inert.
  rewrite (Hk (m_bol [BULLET; 32%N] _) BULLET (m_bol_start _ _ _)) by inert.
  rewrite (Hk (m_bol (lit "- ") _) DASH (m_bol_start _ _ _)) by inert.
  rewrite Hn.
  rewrite (Hk (m_line (lit "> ") _ _) 62%N (m_line_start _ _ _ _)) by inert.
  rewrite (Hk (m_code_block) BACKTICK (m_code_block_start)) by inert.
  rewrite (Hk (m_table) PIPE (m_table_start)) by inert.
  rewrite (Hk (m_line (lit "- [x] ") _ _) DASH (m_line_start _ _ _ _)) by inert.
  rewrite (Hk (m_line (lit "- [ ] ") _ _) DASH (m_line_start _ _ _ _)) by inert.
  rewrite (Hk (m_rule) DASH (m_rule_start)) by inert.
  rewrite (Hk (m_link) 91%N (m_link_start)) by inert.
  reflexivity.
Qed.

Lemma str_replace_absent (k : char) (p new s : str) :
  ~ In k s -> str_replace (k :: p) new s = s.
Proof.
  intros H. unfold str_replace.
  apply (re_sub_untouched _ k); [apply m_lit_start|].
  intros c Hc. apply N.eqb_neq. intros ->. contradiction.
Qed.

(** *** Backticks: inline code against fences *)

Lemma span_of_all (p : char -> bool) (s : str) :
  (forall c, In c s -> p c = true) -> span_of p s = s.
Proof.
  induction s as [|c s IH]; simpl; intros H; auto.
  rewrite H by (left; reflexivity). f_equal. apply IH.
  intros d Hd. apply H. right; exact Hd.
Qed.

Lemma span_of_stop (p : char -> bool) (s : str) (d : char) (r : str) :
  (forall c, In c s -> p c = true) -> p d = false ->
  span_of p (s ++ d :: r) = s.
Proof.
  induction s as [|c s IH]; simpl; intros H Hd.
  - rewrite Hd. reflexivity.
  - rewrite H by (left; reflexivity). f_equal. apply IH; auto.
Qed.

Lemma skipn_length_app (a r : str) : skipn (length a) (a ++ r) = r.
Proof. induction a as [|c a IH]; simpl; auto. Qed.

Lemma re_sub_from_skip (m : matcher) (a : str) :
  forall k bol r, exists bol',
    re_sub_from m (length a + k) bol (a ++ r) = re_sub_from m k bol' r.
Proof.
  induction a as [|c a IH]; simpl; intros k bol r.
  - exists bol. reflexivity.
  - apply IH.
Qed.

Lemma not_backtick_true (s : str) :
  no_backtick s ->
  forall c, In c s -> negb (N.eqb c BACKTICK) = true.
Proof. intros H c Hc. rewrite (H c Hc). reflexivity. Qed.

(** Inside a run of backticks the inline pattern finds nothing. *)
Lemma m_inline_code_double (pre post : str) (bol : bool) (r : str) :
  m_inline_code pre post bol (BACKTICK :: BACKTICK :: r) = None.
Proof. reflexivity. Qed.

(** A backtick, a non-empty run without backticks, a backtick. *)
Lemma m_inline_code_hit (pre post : str) (bol : bool) (body r : str) :
  body <> [] -> no_backtick body ->
  m_inline_code pre post bol (BACKTICK :: body ++ BACKTICK :: r)
  = Some (length body + 2, pre ++ body ++ post).
Proof.
  intros Hne Hb. unfold m_inline_code. rewrite N.eqb_refl. cbv zeta.
  rewrite (span_of_stop (fun x => negb (N.eqb x BACKTICK)) body BACKTICK r
             (not_backtick_true body Hb) eq_refl).
  destruct body as [|c0 l]; [contradiction|].
  rewrite skipn_length_app. reflexivity.
Qed.

(** A backtick and then no other: no match. *)
Lemma m_inline_code_open (pre post : str) (bol : bool) (t : str) :
  no_backtick t -> m_inline_code pre post bol (BACKTICK :: t) = None.
Proof.
  intros Hb. unfold m_inline_code. rewrite N.eqb_refl. cbv zeta.
  rewrite (span_of_all (fun x => negb (N.eqb x BACKTICK)) t
             (not_backtick_true t Hb)).
  destruct t as [|c0 l]; [reflexivity|].
  rewrite skipn_all. reflexivity.
Qed.

(** The inline-code substitution, which runs before the code-block
    substitution, takes the inner backtick of each fence of every fenced
    block with a non-empty body free of backticks; no fence is left for
    the code-block pattern. *)
Lemma inline_code_consumes_fence (pre post body : str) :
  body <> [] -> no_backtick body ->
  re_sub (m_inline_code pre post) (fence ++ body ++ fence)
  = [BACKTICK; BACKTICK] ++ pre ++ body ++ post ++ [BACKTICK; BACKTICK].
Proof.
  intros Hne Hb. unfold re_sub, fence.
  change ([BACKTICK; BACKTICK; BACKTICK] ++ body
            ++ [BACKTICK; BACKTICK; BACKTICK])
    with (BACKTICK :: BACKTICK :: BACKTICK
            :: body ++ BACKTICK :: [BACKTICK; BACKTICK]).
  cbn [re_sub_from]. rewrite !m_inline_code_double.
  rewrite (m_inline_code_hit pre post _ body _ Hne Hb).
  replace (Nat.pred (length body + 2)) with (length body + 1) by lia.
  destruct (re_sub_from_skip (m_inline_code pre post) body 1
              (N.eqb BACKTICK NL) (BACKTICK :: [BACKTICK; BACKTICK]))
    as [bol' ->].
  cbn [re_sub_from]. rewrite m_inline_code_double.
  cbn [app]. rewrite <- !app_assoc. reflexivity.
Qed.

Lemma lazy_any_fence_none (t : str) :
  no_backtick t -> lazy_any fence t = None.
Proof.
  induction t as [|c t IH]; intros Hb.
  - reflexivity.
  - cbn [lazy_any]. unfold fence at 1. rewrite startswith_first
      by (apply Hb; left; reflexivity).
    rewrite IH; [reflexivity|]. intros d Hd. apply Hb. right; exact Hd.
Qed.

Lemma startswith_fence_short (t : str) :
  no_backtick t ->
  startswith fence (BACKTICK :: BACKTICK :: t) = false
  /\ startswith fence (BACKTICK :: t) = false.
Proof.
  intros Hb. unfold fence. destruct t as [|c t]; [split; reflexivity|].
  assert (Hc : N.eqb BACKTICK c = false).
  { rewrite N.eqb_sym. apply Hb. left; reflexivity. }
  cbn [startswith]. rewrite !N.eqb_refl. cbn [andb].
  split; apply andb_false_iff; left; exact Hc.
Qed.

Lemma re_sub_open_fence_inline (pre post t : str) :
  no_backtick t ->
  re_sub (m_inline_code pre post) (fence ++ t) = fence ++ t.
Proof.
  intros Hb. unfold re_sub, fence. cbn [app re_sub_from].
  rewrite !m_inline_code_double, (m_inline_code_open pre post _ t Hb).
  do 3 f_equal. apply re_sub_from_untouched.
  intros c rest Hc bol. apply m_inline_code_start. apply Hb. exact Hc.
Qed.

Lemma re_sub_open_fence_block (t : str) :
  no_backtick t -> re_sub m_code_block (fence ++ t) = fence ++ t.
Proof.
  intros Hb. destruct (startswith_fence_short t Hb) as [H2 H1].
  unfold re_sub, fence. cbn [app re_sub_from].
  assert (H0 : m_code_block true (BACKTICK :: BACKTICK :: BACKTICK :: t)
               = None).
  { unfold m_code_block.
    change (skipn 3 (BACKTICK :: BACKTICK :: BACKTICK :: t)) with t.
    rewrite (lazy_any_fence_none t Hb).
    destruct (startswith fence _); reflexivity. }
  assert (H2' : forall b, m_code_block b (BACKTICK :: BACKTICK :: t) = None)
    by (intros b; unfold m_code_block; rewrite H2; reflexivity).
  assert (H1' : forall b, m_code_block b (BACKTICK :: t) = None)
    by (intros b; unfold m_code_block; rewrite H1; reflexivity).
  rewrite H0, H2', H1'.
  do 3 f_equal. apply re_sub_from_untouched.
  intros c rest Hc bol. apply m_code_block_start. apply Hb. exact Hc.
Qed.

Ltac inert_fence Hs :=
  let c := fresh "c" in
  let Hc := fresh "Hc" in
  intros c Hc; apply in_app_or in Hc; destruct Hc as [Hc | Hc];
  [ cbn in Hc; intuition (subst; reflexivity)
  | apply Hs in Hc; apply marker_false in Hc; tauto ].

(** An opening fence with nothing to close it, followed by plain text on
    the same line, comes out as it went in. *)
Lemma unterminated_fence_literal (digit : char -> bool) (t : str) :
  plain digit t -> digit BACKTICK = false -> ~ In NL t ->
  clean_content digit (fence ++ t) = fence ++ t.
Proof.
  intros Hs Hd Hnl.
  assert (Hb : no_backtick t).
  { intros c Hc. apply Hs in Hc. apply marker_false in Hc. tauto. }
  assert (Hk : forall m k,
             starts_with_char m k ->
             (forall c, In c (fence ++ t) -> N.eqb c k = false) ->
             re_sub m (fence ++ t) = fence ++ t).
  { intros m k Hm Hc. apply (re_sub_untouched m k); auto. }
  assert (Hn : re_sub (m_numbered digit) (fence ++ t) = fence ++ t).
  { apply re_sub_from_untouched. intros c rest Hc bol.
    apply m_numbered_no_digit. apply in_app_or in Hc.
    destruct Hc as [Hc | Hc].
    - cbn in Hc. intuition (subst; assumption).
    - apply Hs in Hc. apply marker_false in Hc. tauto. }
  unfold clean_content.
  rewrite (Hk (m_line (lit "### ") _ _) 35%N (m_line_start _ _ _ _))
    by inert_fence Hs.
  rewrite (Hk (m_line (lit "## ") _ _) 35%N (m_line_start _ _ _ _))
    by inert_fence Hs.
  rewrite (Hk (m_line (lit "# ") _ _) 35%N (m_line_start _ _ _ _))
    by inert_fence Hs.
  rewrite (Hk (m_span (lit "**") _ _ _) STAR (m_span_start _ _ _ _ _))
    by inert_fence Hs.
  rewrite (Hk (m_span (lit "*") _ _ _) STAR (m_span_start _ _ _ _ _))
    by inert_fence Hs.
  rewrite (Hk (m_span (lit "~~") _ _ _) 126%N (m_span_start _ _ _ _ _))
    by inert_fence Hs.
  rewrite (re_sub_open_fence_inline _ _ t Hb).
  rewrite (Hk (m_bol [BULLET; 32%N] _) BULLET (m_bol_start _ _ _))
    by inert_fence Hs.
  rewrite (Hk (m_bol (lit "- ") _) DASH (m_bol_start _ _ _))
    by inert_fence Hs.
  rewrite Hn.
  rewrite (Hk (m_line (lit "> ") _ _) 62%N (m_line_start _ _ _ _))
    by inert_fence Hs.
  rewrite (re_sub_open_fence_block t Hb).
  rewrite (Hk (m_table) PIPE (m_table_start)) by inert_fence Hs.
  rewrite (Hk (m_line (lit "- [x] ") _ _) DASH (m_line_start _ _ _ _))
    by inert_fence Hs.
  rewrite (Hk (m_line (lit "- [ ] ") _ _) DASH (m_line_start _ _ _ _))
    by inert_fence Hs.
  rewrite (Hk (m_rule) DASH (m_rule_start)) by inert_fence Hs.
  rewrite (Hk (m_link) 91%N (m_link_start)) by inert_fence Hs.
  assert (Hnl' : ~ In NL (fence ++ t)).
  { intros H. apply in_app_or in H. destruct H as [H | H]; auto.
    cbn in H. intuition discriminate. }
  rewrite (str_replace_absent NL [NL] _ (fence ++ t) Hnl').
  rewrite (str_replace_absent NL [] _ (fence ++ t) Hnl'). reflexivity.
Qed.

(** *** The claims about the renderer *)

(** C4 as stated fails on its own example: the paragraph rendered from
    [**unterminated bold] is not the literal text. *)
Lemma unterminated_bold_not_literal :
  body_paragraphs ascii_digit (lit "**unterminated bold")
  = [lit "<i></i>unterminated bold"]
  /\ body_paragraphs ascii_digit (lit "**unterminated bold")
     <> [lit "**unterminated bold"].
Proof.
  split; [vm_compute; reflexivity|].
  vm_compute. intros H. discriminate H.
Qed.

(** C9 fails on the code.  A fenced block of 101 characters leaves
    [clean_content] whole, in the font of inline code and between the
    outer backticks of its fences: the inline-code substitution has
    taken the fences apart before the code-block substitution runs.  The
    local function [replace_code_block], had it been reached with the
    same block, would have cut the text to 100 characters and the
    ellipsis. *)
Theorem fenced_block_not_truncated :
  clean_content ascii_digit long_fenced_block
  = [BACKTICK; BACKTICK] ++ lit "<font " ++ attr "face" "Courier"
      ++ lit ">" ++ repeat 120%N 101 ++ lit "</font>"
      ++ [BACKTICK; BACKTICK]
  /\ replace_code_block long_fenced_block
     = lit "<font " ++ attr "face" "Courier" ++ lit " " ++ attr "size" "9"
         ++ lit ">" ++ repeat 120%N 100 ++ lit "..." ++ lit "</font>".
Proof. split; vm_compute; reflexivity. Qed.

(** *** The claims about the exports *)






End PDFGeneratorSpec.

(* ------------------------------------------------------------------ *)
(** ** More about the note store *)

Module NoteManagerMore.

Import NoteManager NoteManagerSpec.

(** *** The loops again *)

Lemma first_with_id_snoc (notes : list Note) (n : Note) (note_id : str) :
  first_with_id (notes ++ [n]) note_id
  = match first_with_id notes note_id with
    | Some m => Some m
    | None => if str_eqb (id n) note_id then Some n else None
    end.
Proof.
  induction notes as [|x notes IH]; simpl; auto.
  destruct (str_eqb (id x) note_id); auto.
Qed.

Lemma first_with_id_without_other (notes : list Note) (note_id other : str) :
  other <> note_id ->
  first_with_id (without_id notes note_id) other
  = first_with_id notes other.
Proof.
  intros Hne. unfold without_id.
  induction notes as [|x notes IH]; simpl; auto.
  destruct (str_eqb (id x) note_id) eqn:E; simpl.
  - apply str_eqb_eq in E.
    assert (F : str_eqb (id x) other = false)
      by (apply str_eqb_neq; congruence).
    rewrite F. exact IH.
  - destruct (str_eqb (id x) other); auto.
Qed.

(** [update_first] splits the list at the first note with the
    identifier. *)
Lemma update_first_split (notes notes' : list Note)
  (note_id title content now : str) :
  update_first notes note_id title content now = Some notes' ->
  exists before n after,
    notes = before ++ n :: after
    /\ id n = note_id
    /\ (forall m, In m before -> id m <> note_id)
    /\ notes' = before ++ updated n title content now :: after.
Proof.
  revert notes'; induction notes as [|x notes IH]; simpl; intros notes' H.
  - discriminate.
  - destruct (str_eqb (id x) note_id) eqn:E.
    + injection H as <-. apply str_eqb_eq in E.
      exists [], x, notes. repeat split; auto; intros m [].
    + destruct (update_first notes note_id title content now) as [r|];
        [|discriminate].
      injection H as <-.
      destruct (IH r eq_refl) as [before [n [after [H1 [H2 [H3 H4]]]]]].
      exists (x :: before), n, after. subst. repeat split; auto.
      intros m [<- | Hm]; [apply str_eqb_neq; exact E | auto].
Qed.

Lemma update_first_found (notes : list Note)
  (note_id title content now : str) :
  present notes note_id ->
  exists notes', update_first notes note_id title content now = Some notes'.
Proof.
  induction notes as [|x notes IH]; simpl; intros [n [Hn Hid]].
  - destruct Hn.
  - destruct (str_eqb (id x) note_id) eqn:E; eauto.
    destruct Hn as [->|Hn].
    + apply str_eqb_neq in E. contradiction.
    + destruct IH as [r Hr]; [exists n; auto|]. rewrite Hr. simpl. eauto.
Qed.

Lemma update_first_missing (notes : list Note)
  (note_id title content now : str) :
  ~ present notes note_id ->
  update_first notes note_id title content now = None.
Proof.
  intros H.
  destruct (update_first notes note_id title content now) as [r|] eqn:U; auto.
  exfalso. apply H.
  destruct (update_first_split _ _ _ _ _ _ U) as [b [n [a [H1 [H2 _]]]]].
  exists n. split; [|exact H2]. subst. apply in_or_app. right. left. auto.
Qed.

Lemma update_first_ids (notes notes' : list Note)
  (note_id title content now : str) :
  update_first notes note_id title content now = Some notes' ->
  map id notes' = map id notes.
Proof.
  intros U.
  destruct (update_first_split _ _ _ _ _ _ U) as [b [n [a [H1 [_ [_ H4]]]]]].
  subst. rewrite !map_app. reflexivity.
Qed.

Lemma first_with_id_split (before after : list Note) (n : Note) :
  (forall m, In m before -> id m <> id n) ->
  first_with_id (before ++ n :: after) (id n) = Some n.
Proof.
  induction before as [|x before IH]; simpl; intros H.
  - rewrite str_eqb_refl. reflexivity.
  - assert (E : str_eqb (id x) (id n) = false)
      by (apply str_eqb_neq; apply H; left; reflexivity).
    rewrite E. apply IH. intros m Hm. apply H. right. exact Hm.
Qed.

(** The three mutators as functions of the stored list. *)
Lemma update_note_eq (w : world) (now note_id title content : str) :
  update_note now note_id title content w
  = match update_first (stored w) note_id title content now with
    | Some notes' => save_notes notes' w
    | None => (Ret false, w)
    end.
Proof.
  run_method. unfold stored, save_notes.
  destruct (file w); simpl; try reflexivity.
  destruct (update_first _ _ _ _ _); [destruct (fault w)|]; reflexivity.
Qed.

Lemma delete_note_eq (w : world) (note_id : str) :
  delete_note note_id w
  = if length (without_id (stored w) note_id) <? length (stored w)
    then save_notes (without_id (stored w) note_id) w
    else (Ret false, w).
Proof.
  run_method. unfold stored, save_notes.
  destruct (file w); simpl; try reflexivity.
  destruct (_ <? _); [destruct (fault w)|]; reflexivity.
Qed.

Lemma create_note_eq (w : world) (uuid4 now title content : str) :
  create_note uuid4 now title content w
  = match file w with
    | Denied => (Ret None, w)
    | _ =>
        match save_notes (stored w ++ [mkNote uuid4 title content now now]) w
        with
        | (Ret true, w') => (Ret (Some uuid4), w')
        | (_, w') => (Ret None, w')
        end
    end.
Proof.
  run_method. unfold stored, save_notes.
  destruct (file w); simpl; try reflexivity; destruct (fault w); reflexivity.
Qed.

Lemma delete_shrinks_iff (notes : list Note) (note_id : str) :
  length (without_id notes note_id) < length notes <->
  present notes note_id.
Proof.
  pose proof (without_id_length notes note_id) as Hl.
  pose proof (matching_nonempty notes note_id) as Hm.
  unfold present. rewrite <- Hm. lia.
Qed.

Lemma NoDup_ids_filter (p : Note -> bool) (notes : list Note) :
  NoDup (map id notes) -> NoDup (map id (filter p notes)).
Proof.
  induction notes as [|x notes IH]; simpl; intros H; auto.
  inversion H as [|? ? Hx Hl]; subst.
  destruct (p x); simpl; auto. constructor; auto.
  intros Hin. apply Hx. apply in_map_iff in Hin.
  destruct Hin as [y [Hy Hin]]. apply filter_In in Hin.
  apply in_map_iff. exists y. tauto.
Qed.

Lemma with_key_insert (k : str) (x : Note) (l : list Note) :
  with_key k (insert_desc x l) = with_key k (x :: l).
Proof.
  unfold with_key. induction l as [|y l IH]; simpl; auto.
  destruct (str_ltb (created_at x) (created_at y)) eqn:L; simpl; auto.
  rewrite IH. simpl.
  destruct (str_eqb (created_at x) k) eqn:Ex; auto.
  destruct (str_eqb (created_at y) k) eqn:Ey; auto.
  apply str_eqb_eq in Ex, Ey. rewrite Ex, Ey, str_ltb_irrefl in L.
  discriminate.
Qed.

Lemma with_key_sorted_desc (k : str) (l : list Note) :
  with_key k (sorted_desc l) = with_key k l.
Proof.
  induction l as [|x l IH]; simpl; auto.
  rewrite with_key_insert. unfold with_key in *. simpl. rewrite IH.
  reflexivity.
Qed.

Lemma filter_sorted (R : Note -> Note -> Prop) (p : Note -> bool)
  (l : list Note) :
  StronglySorted R l -> StronglySorted R (filter p l).
Proof.
  induction 1 as [|x l Hs IH Hx]; simpl; [constructor|].
  destruct (p x); auto. constructor; auto.
  rewrite Forall_forall in *. intros y Hy. apply Hx.
  apply filter_In in Hy. tauto.
Qed.

Lemma listing_eq (w : world) : listing w = sorted_desc (stored w).
Proof.
  unfold listing. rewrite get_all_notes_eq. unfold stored. simpl.
  destruct (file w); reflexivity.
Qed.

Lemma search_notes_eq (lower : str -> str) (w : world) (query : str) :
  search_notes lower query w
  = (Ret (filter (note_matches lower (lower query)) (listing w)), w).
Proof.
  unfold search_notes, try_except, bind, ret, listing.
  rewrite get_all_notes_eq. simpl. rewrite search_loop_filter. reflexivity.
Qed.

Lemma contains_empty (s : str) : contains s [] = true.
Proof. destruct s; reflexivity. Qed.

Lemma filter_all (p : Note -> bool) (l : list Note) :
  (forall n, p n = true) -> filter p l = l.
Proof.
  intros H. induction l as [|x l IH]; simpl; auto.
  rewrite H, IH. reflexivity.
Qed.

Lemma delete_note_keeps_others_aux (w w' : world) (note_id : str) :
  delete_note note_id w = (Ret true, w') ->
  get_note note_id w' = (Ret None, w')
  /\ (forall other, other <> note_id ->
        fst (get_note other w') = fst (get_note other w)).
Proof.
  rewrite delete_note_eq.
  destruct (_ <? _); [|discriminate].
  unfold save_notes. destruct (fault w) eqn:F; try discriminate.
  intros [= <-]. split.
  - rewrite get_note_eq, stored_holds, first_with_id_without. reflexivity.
  - intros other Hne. rewrite !get_note_eq, stored_holds. simpl.
    rewrite first_with_id_without_other by exact Hne. reflexivity.
Qed.

(** *** Further properties of the store *)

(** X1.  [update_note] answers [False] and leaves the disk as it was
    when no stored note has the identifier, and also when one has it but
    the file cannot be opened for writing.  When the write breaks off
    after the file was opened it answers [False] and the file is left
    unparseable.  Otherwise it answers [True] and the file holds as many
    notes as before. *)
Theorem update_note_outcomes (w : world) (now note_id title content : str) :
  (~ present (stored w) note_id ->
   update_note now note_id title content w = (Ret false, w))
  /\ (present (stored w) note_id ->
      match fault w with
      | NoFault =>
          exists notes',
            update_note now note_id title content w
            = (Ret true, mkWorld (Holds notes') NoFault)
            /\ length notes' = length (stored w)
      | OpenFails =>
          update_note now note_id title content w = (Ret false, w)
      | DumpFails =>
          update_note now note_id title content w
          = (Ret false, mkWorld Garbled DumpFails)
      end).
Proof.
  rewrite update_note_eq. split.
  - intros H. rewrite update_first_missing by exact H. reflexivity.
  - intros H.
    destruct (update_first_found (stored w) note_id title content now H)
      as [notes' U].
    rewrite U. unfold save_notes. destruct (fault w); try reflexivity.
    exists notes'. split; [reflexivity|].
    eapply update_first_length; exact U.
Qed.

Lemma update_note_outcomes_witness :
  ~ present (stored sample_world) (lit "id-z")
  /\ update_note (lit "2024-03-09T10:00:00") (lit "id-z") (lit "T")
       (lit "C") sample_world = (Ret false, sample_world)
  /\ present (stored full_disk_world) (lit "id-b")
  /\ update_note (lit "2024-03-09T10:00:00") (lit "id-b") (lit "T")
       (lit "C") full_disk_world = (Ret false, mkWorld Garbled DumpFails).
Proof.
  assert (H1 : ~ present (stored sample_world) (lit "id-z")).
  { intros [n [Hn Hid]]. cbn in Hn.
    destruct Hn as [<- | [<- | [<- | []]]]; discriminate Hid. }
  assert (H2 : present (stored full_disk_world) (lit "id-b")).
  { exists note_b. split; [right; left; reflexivity | reflexivity]. }
  split; [exact H1|]. split.
  - exact (proj1 (update_note_outcomes sample_world
                    (lit "2024-03-09T10:00:00") (lit "id-z") (lit "T")
                    (lit "C")) H1).
  - split; [exact H2|].
    exact (proj2 (update_note_outcomes full_disk_world
                    (lit "2024-03-09T10:00:00") (lit "id-b") (lit "T")
                    (lit "C")) H2).
Defined.

(** X2.  A successful [update_note] rewrites the first stored note with
    the identifier and no other note, also when the identifier occurs
    more than once; [get_note] then returns the rewritten note. *)
Theorem update_note_first_match (w w' : world)
  (now note_id title content : str) :
  update_note now note_id title content w = (Ret true, w') ->
  exists before n after,
    stored w = before ++ n :: after
    /\ id n = note_id
    /\ (forall m, In m before -> id m <> note_id)
    /\ stored w' = before ++ updated n title content now :: after
    /\ get_note note_id w'
       = (Ret (Some (updated n title content now)), w').
Proof.
  rewrite update_note_eq.
  destruct (update_first (stored w) note_id title content now)
    as [notes'|] eqn:U; [|discriminate].
  unfold save_notes. destruct (fault w); try discriminate.
  intros [= <-].
  destruct (update_first_split _ _ _ _ _ _ U)
    as [before [n [after [H1 [H2 [H3 H4]]]]]].
  exists before, n, after. rewrite stored_holds.
  repeat split; auto.
  rewrite get_note_eq, stored_holds, H4. subst note_id.
  do 2 f_equal.
  apply (first_with_id_split before after (updated n title content now)).
  exact H3.
Qed.

Lemma update_note_first_match_witness :
  let w' := snd (update_note (lit "2024-03-09T10:00:00") (lit "id-a")
                   (lit "New") (lit "text") twin_world) in
  update_note (lit "2024-03-09T10:00:00") (lit "id-a") (lit "New")
    (lit "text") twin_world = (Ret true, w')
  /\ exists before n after,
       stored twin_world = before ++ n :: after
       /\ id n = lit "id-a"
       /\ (forall m, In m before -> id m <> lit "id-a")
       /\ stored w'
          = before
              ++ updated n (lit "New") (lit "text")
                   (lit "2024-03-09T10:00:00") :: after
       /\ get_note (lit "id-a") w'
          = (Ret (Some (updated n (lit "New") (lit "text")
                          (lit "2024-03-09T10:00:00"))), w').
Proof.
  split; [reflexivity|].
  exact (update_note_first_match twin_world _
           (lit "2024-03-09T10:00:00") (lit "id-a") (lit "New")
           (lit "text") eq_refl).
Defined.

(** X3.  A successful [create_note] returns the generated identifier,
    appends the new note behind the stored ones and raises the count by
    one; every identifier that [get_note] resolved before resolves to
    the same note afterwards, and the listing is the old listing with
    the new note added. *)
Theorem create_note_keeps_others (w w' : world)
  (uuid4 now title content note_id : str) :
  create_note uuid4 now title content w = (Ret (Some note_id), w') ->
  let new_note := mkNote uuid4 title content now now in
  note_id = uuid4
  /\ stored w' = stored w ++ [new_note]
  /\ get_notes_count w' = (Ret (S (length (stored w))), w')
  /\ (forall other n,
        get_note other w = (Ret (Some n), w) ->
        get_note other w' = (Ret (Some n), w'))
  /\ Permutation (new_note :: listing w) (listing w').
Proof.
  rewrite create_note_eq. intros H. cbv zeta.
  assert (Hw : note_id = uuid4
               /\ w' = mkWorld (Holds (stored w
                                        ++ [mkNote uuid4 title content now now]))
                         NoFault).
  { unfold save_notes in H.
    destruct (file w), (fault w); try discriminate;
      injection H as <- <-; auto. }
  destruct Hw as [-> ->]. split; [reflexivity|].
  split; [apply stored_holds|]. split.
  - rewrite get_notes_count_eq, stored_holds, length_app. simpl.
    repeat f_equal. lia.
  - split.
    + intros other n. rewrite !get_note_eq, stored_holds.
      intros [= Hn]. rewrite first_with_id_snoc, Hn. reflexivity.
    + rewrite !listing_eq, stored_holds.
      eapply Permutation_trans;
        [constructor; apply Permutation_sym, sorted_desc_perm|].
      eapply Permutation_trans;
        [apply Permutation_cons_append | apply sorted_desc_perm].
Qed.

Lemma create_note_keeps_others_witness :
  let w' := snd (create_note (lit "id-d") (lit "2024-03-09T10:00:00")
                   (lit "Title") (lit "Text") sample_world) in
  create_note (lit "id-d") (lit "2024-03-09T10:00:00") (lit "Title")
    (lit "Text") sample_world = (Ret (Some (lit "id-d")), w')
  /\ get_notes_count w' = (Ret 4, w')
  /\ get_note (lit "id-b") w' = (Ret (Some note_b), w').
Proof.
  split; [reflexivity|].
  destruct (create_note_keeps_others sample_world _ (lit "id-d")
              (lit "2024-03-09T10:00:00") (lit "Title") (lit "Text")
              (lit "id-d") eq_refl) as [_ [_ [Hc [Hg _]]]].
  split; [exact Hc|]. exact (Hg (lit "id-b") note_b eq_refl).
Defined.

(** X4.  After a successful [delete_note], [get_note] no longer finds
    the identifier, whatever number of notes carried it; every other
    identifier resolves as before; deleting the same identifier again
    answers [False] and changes nothing. *)
Theorem delete_note_keeps_others (w w' : world) (note_id : str) :
  delete_note note_id w = (Ret true, w') ->
  get_note note_id w' = (Ret None, w')
  /\ (forall other, other <> note_id ->
        fst (get_note other w') = fst (get_note other w))
  /\ delete_note note_id w' = (Ret false, w').
Proof.
  rewrite delete_note_eq.
  destruct (_ <? _); [|discriminate].
  unfold save_notes. destruct (fault w) eqn:F; try discriminate.
  intros [= <-]. split; [|split].
  - rewrite get_note_eq, stored_holds, first_with_id_without. reflexivity.
  - intros other Hne. rewrite !get_note_eq, stored_holds. simpl.
    rewrite first_with_id_without_other by exact Hne. reflexivity.
  - rewrite delete_note_eq, stored_holds.
    assert (Hn : ~ present (without_id (stored w) note_id) note_id).
    { intros [n [Hn Hid]]. unfold without_id in Hn.
      apply filter_In in Hn. destruct Hn as [_ Hn].
      apply negb_true_iff, str_eqb_neq in Hn. contradiction. }
    destruct (Nat.ltb_spec
                (length (without_id (without_id (stored w) note_id) note_id))
                (length (without_id (stored w) note_id))) as [Hlt | Hge];
      [|reflexivity].
    apply delete_shrinks_iff in Hlt. contradiction.
Qed.

Lemma delete_note_keeps_others_witness :
  let w' := mkWorld (Holds [note_c]) NoFault in
  delete_note (lit "id-a") twin_world = (Ret true, w')
  /\ get_note (lit "id-a") w' = (Ret None, w')
  /\ fst (get_note (lit "id-c") w') = fst (get_note (lit "id-c") twin_world)
  /\ delete_note (lit "id-a") w' = (Ret false, w').
Proof.
  split; [reflexivity|].
  destruct (delete_note_keeps_others twin_world _ (lit "id-a") eq_refl)
    as [H1 [H2 H3]].
  split; [exact H1|]. split; [|exact H3].
  apply H2. discriminate.
Defined.

(** X5.  When the identifiers of the stored notes are pairwise distinct
    they still are after [create_note] with an identifier no stored note
    carries, after [update_note] and after [delete_note], whether the
    call succeeds or fails. *)
Theorem ids_stay_unique (w : world) :
  ids_unique w ->
  (forall uuid4 now title content,
     first_with_id (stored w) uuid4 = None ->
     ids_unique (snd (create_note uuid4 now title content w)))
  /\ (forall now note_id title content,
        ids_unique (snd (update_note now note_id title content w)))
  /\ (forall note_id, ids_unique (snd (delete_note note_id w))).
Proof.
  unfold ids_unique. intros Hu.
  assert (Hsave : forall notes,
            NoDup (map id notes) ->
            NoDup (map id (stored (snd (save_notes notes w))))).
  { intros notes Hn. unfold save_notes.
    destruct (fault w); simpl; auto. constructor. }
  split; [|split].
  - intros uuid4 now title content Hf. rewrite create_note_eq.
    assert (Hn : NoDup (map id (stored w
                                  ++ [mkNote uuid4 title content now now]))).
    { rewrite map_app. simpl.
      apply Permutation_NoDup with (l := uuid4 :: map id (stored w)).
      - apply Permutation_cons_append.
      - constructor; auto. intros Hin. apply in_map_iff in Hin.
        destruct Hin as [n [Hid Hn]].
        apply (proj1 (first_with_id_none (stored w) uuid4) Hf n Hn Hid). }
    specialize (Hsave _ Hn).
    destruct (file w) eqn:Ff;
      try (destruct (save_notes _ w) as [[[|]|] w1]; exact Hsave).
    exact Hu.
  - intros now note_id title content. rewrite update_note_eq.
    destruct (update_first (stored w) note_id title content now)
      as [notes'|] eqn:U; [|exact Hu].
    apply Hsave. rewrite (update_first_ids _ _ _ _ _ _ U). exact Hu.
  - intros note_id. rewrite delete_note_eq.
    destruct (_ <? _); [|exact Hu].
    apply Hsave. apply NoDup_ids_filter. exact Hu.
Qed.

Lemma ids_stay_unique_witness :
  ids_unique sample_world
  /\ first_with_id (stored sample_world) (lit "id-d") = None
  /\ ids_unique (snd (create_note (lit "id-d") (lit "2024-03-09T10:00:00")
                        (lit "Title") (lit "Text") sample_world))
  /\ ids_unique (snd (delete_note (lit "id-b") sample_world)).
Proof.
  assert (Hd : ids_unique sample_world).
  { unfold ids_unique. repeat constructor; simpl; intuition discriminate. }
  destruct (ids_stay_unique sample_world Hd) as [Hc [_ Hdel]].
  split; [exact Hd|]. split; [reflexivity|]. split.
  - exact (Hc (lit "id-d") (lit "2024-03-09T10:00:00") (lit "Title")
             (lit "Text") eq_refl).
  - exact (Hdel (lit "id-b")).
Defined.

(** X6.  In every state of the model, that is, whenever the file is
    missing, unreadable, no JSON, or holds a list of notes with the five
    fields of the data model, the listing holds the stored notes, each
    once, in non-increasing order of [created_at]; notes with the same
    [created_at] stand in the order of the file; and the count equals
    the length of the listing.  A file that parses to JSON of another
    shape is outside the model, and the statement says nothing about
    it. *)
Theorem listing_sorted_and_stable (w : world) :
  Permutation (stored w) (listing w)
  /\ StronglySorted not_older (listing w)
  /\ (forall k, with_key k (listing w) = with_key k (stored w))
  /\ get_notes_count w = (Ret (length (listing w)), w).
Proof.
  rewrite listing_eq. split; [apply sorted_desc_perm|].
  split; [apply sorted_desc_sorted|].
  split; [intros k; apply with_key_sorted_desc|].
  rewrite get_notes_count_eq.
  rewrite (Permutation_length (sorted_desc_perm (stored w))). reflexivity.
Qed.

(** X7.  The notes [search_notes] returns are notes of the listing in
    the order of the listing, newest first; with the empty query, whose
    lower-cased form is empty, it returns the whole listing. *)
Theorem search_keeps_listing_order (lower : str -> str) (w : world)
  (query : str) :
  (lower [] = [] -> search_notes lower [] w = (Ret (listing w), w))
  /\ exists result,
       search_notes lower query w = (Ret result, w)
       /\ StronglySorted not_older result
       /\ (forall n, In n result -> In n (listing w)).
Proof.
  split.
  - intros Hl. rewrite search_notes_eq, Hl. rewrite filter_all; auto.
    intros n. unfold note_matches. rewrite contains_empty. reflexivity.
  - eexists. split; [apply search_notes_eq|]. split.
    + apply filter_sorted. rewrite listing_eq. apply sorted_desc_sorted.
    + intros n Hn. apply filter_In in Hn. tauto.
Qed.

Lemma search_keeps_listing_order_witness :
  ascii_lower [] = []
  /\ search_notes ascii_lower [] sample_world
     = (Ret [note_b; note_a; note_c], sample_world).
Proof.
  split; [reflexivity|].
  exact (proj1 (search_keeps_listing_order ascii_lower sample_world [])
           eq_refl).
Defined.

(** X8.  The constructor's [ensure_data_directory] raises what
    [os.makedirs] raises.  Otherwise it leaves an existing file alone,
    whatever the file holds, and writes the empty list where there was
    no file; if that write cannot open the file nothing changes, and if
    it breaks off an unparseable file is left.  On a disk without write
    faults the store is ready afterwards: a second run changes nothing
    and the count is the number of notes that were stored. *)
Theorem ensure_data_directory_outcomes (w : world) :
  (forall e, ensure_data_directory (Raise e) w = (Raise e, w))
  /\ (file w <> Absent -> ensure_data_directory (Ret tt) w = (Ret tt, w))
  /\ (file w = Absent ->
      ensure_data_directory (Ret tt) w
      = (Ret tt,
         match fault w with
         | NoFault => mkWorld (Holds []) NoFault
         | OpenFails => w
         | DumpFails => mkWorld Garbled DumpFails
         end))
  /\ (fault w = NoFault ->
      let w1 := snd (ensure_data_directory (Ret tt) w) in
      ensure_data_directory (Ret tt) w1 = (Ret tt, w1)
      /\ get_notes_count w1 = (Ret (length (stored w)), w1)).
Proof.
  unfold ensure_data_directory, bind, path_exists, ret, save_notes.
  destruct w as [f flt]. simpl. split; [reflexivity|].
  split; [destruct f; try reflexivity; intros H; contradiction|].
  split; [intros ->; destruct flt; reflexivity|].
  intros ->. destruct f; split; reflexivity.
Qed.

Lemma ensure_data_directory_outcomes_witness :
  file fresh_world = Absent
  /\ fault fresh_world = NoFault
  /\ file sample_world <> Absent
  /\ ensure_data_directory (Ret tt) fresh_world
     = (Ret tt, mkWorld (Holds []) NoFault)
  /\ ensure_data_directory (Ret tt) sample_world = (Ret tt, sample_world)
  /\ get_notes_count (snd (ensure_data_directory (Ret tt) fresh_world))
     = (Ret 0, snd (ensure_data_directory (Ret tt) fresh_world)).
Proof.
  destruct (ensure_data_directory_outcomes fresh_world)
    as [_ [_ [Ha Hi]]].
  destruct (ensure_data_directory_outcomes sample_world) as [_ [He _]].
  split; [reflexivity|]. split; [reflexivity|].
  split; [discriminate|]. split; [exact (Ha eq_refl)|].
  split; [apply He; discriminate|]. exact (proj2 (Hi eq_refl)).
Defined.

End NoteManagerMore.

(* ------------------------------------------------------------------ *)
(** ** [str.strip] *)

Module StripFacts.

Lemma lstrip_head (s : str) : head_nonspace (lstrip s).
Proof.
  induction s as [|c s IH]; simpl; auto.
  destruct (isspace c) eqn:E; simpl; auto.
Qed.

Lemma lstrip_fixed (s : str) : head_nonspace s -> lstrip s = s.
Proof. destruct s as [|c s]; simpl; auto. intros ->. reflexivity. Qed.

Lemma lstrip_app (a b : str) :
  lstrip (a ++ b)
  = match lstrip a with
    | [] => lstrip b
    | _ :: _ => lstrip a ++ b
    end.
Proof.
  induction a as [|c a IH]; simpl; auto.
  destruct (isspace c); auto.
Qed.

(** [rstrip] from the left: a character is dropped when it is white
    space and everything behind it has been dropped. *)
Lemma rstrip_cons (c : char) (s : str) :
  rstrip (c :: s)
  = match rstrip s with
    | [] => if isspace c then [] else [c]
    | _ :: _ => c :: rstrip s
    end.
Proof.
  unfold rstrip. simpl rev. rewrite lstrip_app.
  destruct (lstrip (rev s)) as [|d l] eqn:E.
  - simpl. destruct (isspace c); reflexivity.
  - rewrite rev_app_distr. change (rev [c]) with [c]. cbn [app].
    destruct (rev (d :: l)) eqn:R; [|reflexivity].
    apply (f_equal (@length char)) in R. rewrite length_rev in R.
    discriminate.
Qed.

Lemma rstrip_head (s : str) : head_nonspace s -> head_nonspace (rstrip s).
Proof.
  destruct s as [|c s]; [intros _; exact I|].
  simpl. intros E. rewrite rstrip_cons.
  destruct (rstrip s); [rewrite E|]; exact E.
Qed.

Lemma rstrip_fixed (s : str) : head_nonspace (rev s) -> rstrip s = s.
Proof.
  intros H. unfold rstrip. rewrite lstrip_fixed by exact H.
  apply rev_involutive.
Qed.

Lemma rstrip_last (s : str) : head_nonspace (rev (rstrip s)).
Proof. unfold rstrip. rewrite rev_involutive. apply lstrip_head. Qed.

(** What [strip] returns has no white space at either end, so [strip]
    leaves it alone. *)
Lemma strip_idempotent (s : str) : strip (strip s) = strip s.
Proof.
  unfold strip at 1.
  rewrite (lstrip_fixed (strip s)).
  - apply rstrip_fixed. unfold strip. apply rstrip_last.
  - unfold strip. apply rstrip_head. apply lstrip_head.
Qed.

Lemma strip_trimmed (s : str) :
  App.truthy (strip s) = true -> NoteManager.trimmed (strip s).
Proof.
  intros H. split; [|apply strip_idempotent].
  intros E. rewrite E in H. discriminate.
Qed.

(** [strip] only removes characters. *)
Lemma lstrip_incl (s : str) (c : char) : In c (lstrip s) -> In c s.
Proof.
  induction s as [|d s IH]; simpl; auto.
  destruct (isspace d); simpl; auto.
Qed.

Lemma strip_incl (s : str) (c : char) : In c (strip s) -> In c s.
Proof.
  unfold strip, rstrip. intros H.
  apply in_rev, lstrip_incl in H. apply in_rev in H.
  apply lstrip_incl. exact H.
Qed.

End StripFacts.

(* ------------------------------------------------------------------ *)
(** ** The handlers of the application *)

Module AppSpec.

Import NoteManager NoteManagerSpec NoteManagerMore App StripFacts.

Lemma forall_update_first (P : Note -> Prop) (notes notes' : list Note)
  (note_id title content now : str) :
  Forall P notes ->
  (forall n, P (updated n title content now)) ->
  update_first notes note_id title content now = Some notes' ->
  Forall P notes'.
Proof.
  intros Hn Hu U.
  destruct (update_first_split _ _ _ _ _ _ U) as [b [n [a [H1 [_ [_ H4]]]]]].
  subst. apply Forall_app in Hn. destruct Hn as [Hb Ha].
  inversion Ha; subst. apply Forall_app. split; auto.
Qed.

(** X9.  The filter of the sidebar and [search_notes] select the same
    notes in the same order, for every query; with the empty search box
    both give the whole listing. *)
Theorem sidebar_filter_is_search (lower : str -> str) (w : world)
  (search_query : str) :
  lower [] = [] ->
  search_notes lower search_query w
  = (Ret (filtered_notes lower search_query (listing w)), w).
Proof.
  intros Hl. rewrite search_notes_eq. unfold filtered_notes.
  destruct search_query as [|c q]; simpl truthy; cbv iota.
  - rewrite Hl, filter_all; auto.
    intros n. unfold note_matches. rewrite contains_empty. reflexivity.
  - reflexivity.
Qed.

Lemma sidebar_filter_is_search_witness :
  ascii_lower [] = []
  /\ filtered_notes ascii_lower (lit "HELLO") (listing sample_world)
     = [note_a]
  /\ search_notes ascii_lower (lit "HELLO") sample_world
     = (Ret (filtered_notes ascii_lower (lit "HELLO")
               (listing sample_world)), sample_world).
Proof.
  split; [reflexivity|]. split; [reflexivity|].
  exact (sidebar_filter_is_search ascii_lower sample_world (lit "HELLO")
           eq_refl).
Defined.

(** X10.  The Save button writes nothing and says so when the title or
    the content is blank.  Whatever it does, if every stored note had a
    non-empty title and content without white space at the ends, every
    stored note still has. *)
Theorem save_click_keeps_notes_trimmed (w : world)
  (uuid4 now title content : str) (ss : session) :
  (truthy (strip title) && truthy (strip content) = false ->
   save_click uuid4 now title content ss w = (Ret (EnterBoth, ss), w))
  /\ (Forall well_formed (stored w) ->
      Forall well_formed
        (stored (snd (save_click uuid4 now title content ss w)))).
Proof.
  unfold save_click. split.
  - intros ->. reflexivity.
  - intros Hw.
    destruct (truthy (strip title) && truthy (strip content)) eqn:G;
      [|exact Hw].
    apply andb_true_iff in G. destruct G as [Gt Gc].
    assert (Hnew : forall i c u, well_formed
                     (mkNote i (strip title) (strip content) c u)).
    { intros i c u. split; apply strip_trimmed; assumption. }
    assert (Hsave : forall notes b w1,
              Forall well_formed notes ->
              save_notes notes w = (b, w1) ->
              Forall well_formed (stored w1)).
    { intros notes b w1 Hn. unfold save_notes.
      destruct (fault w); intros [= <- <-]; simpl; auto. }
    destruct (selected ss) as [note_id|].
    + rewrite update_note_eq.
      destruct (update_first (stored w) note_id (strip title)
                  (strip content) now) as [notes'|] eqn:U.
      * assert (Hn : Forall well_formed notes').
        { eapply forall_update_first; [exact Hw | | exact U].
          intros n. apply Hnew. }
        destruct (save_notes notes' w) as [[[|]|e] w1] eqn:S; simpl;
          eapply Hsave; eauto.
      * exact Hw.
    + rewrite create_note_eq.
      assert (Hn : Forall well_formed
                     (stored w ++ [mkNote uuid4 (strip title)
                                     (strip content) now now])).
      { apply Forall_app. split; auto. }
      destruct (file w) eqn:Ff; try exact Hw;
        destruct (save_notes _ w) as [[[|]|e] w1] eqn:S; simpl;
        try destruct (truthy uuid4); simpl; eapply Hsave; eauto.
Qed.

Lemma save_click_keeps_notes_trimmed_witness :
  truthy (strip (lit "  ")) && truthy (strip (lit "text")) = false
  /\ save_click (lit "id-d") (lit "2024-03-09T10:00:00") (lit "  ")
       (lit "text") (mkSession None true) sample_world
     = (Ret (EnterBoth, mkSession None true), sample_world)
  /\ Forall well_formed (stored sample_world)
  /\ Forall well_formed
       (stored (snd (save_click (lit "id-d") (lit "2024-03-09T10:00:00")
                       (lit " Title ") (lit "Text  ")
                       (mkSession None true) sample_world))).
Proof.
  assert (Hw : Forall well_formed (stored sample_world)).
  { repeat constructor; try discriminate; reflexivity. }
  split; [reflexivity|]. split.
  - exact (proj1 (save_click_keeps_notes_trimmed sample_world (lit "id-d")
                    (lit "2024-03-09T10:00:00") (lit "  ") (lit "text")
                    (mkSession None true)) eq_refl).
  - split; [exact Hw|].
    exact (proj2 (save_click_keeps_notes_trimmed sample_world (lit "id-d")
                    (lit "2024-03-09T10:00:00") (lit " Title ")
                    (lit "Text  ") (mkSession None true)) Hw).
Defined.

(** X11.  When a note's delete button reports the deletion, a selection
    of the deleted note is cleared, the edit mode kept, and any other
    selection, or none, stays as it was: the session is unchanged.  The
    selected note is then never the deleted one, and a selection that
    stays resolves to the note it resolved to before. *)
Theorem delete_click_selection (w w' : world) (note_id : str)
  (ss ss' : session) :
  delete_click note_id ss w = (Ret (NoteDeleted, ss'), w') ->
  (current_note_id ss = Some note_id ->
   ss' = mkSession None (edit_mode ss))
  /\ (current_note_id ss <> Some note_id -> ss' = ss)
  /\ current_note_id ss' <> Some note_id
  /\ get_note note_id w' = (Ret None, w')
  /\ (forall current,
        current_note_id ss' = Some current ->
        current_note_id ss = Some current
        /\ fst (get_note current w') = fst (get_note current w)).
Proof.
  unfold delete_click.
  destruct (delete_note note_id w) as [[[|]|e] w1] eqn:D; try discriminate.
  intros [= <- <-].
  destruct (delete_note_keeps_others_aux w w1 note_id D) as [Hg Ho].
  destruct (current_note_id ss) as [cur|] eqn:C.
  - destruct (str_eqb cur note_id) eqn:E.
    + apply str_eqb_eq in E. subst cur.
      split; [reflexivity|]. split; [congruence|].
      split; [simpl; discriminate|]. split; [exact Hg|].
      intros c H. simpl in H. discriminate.
    + apply str_eqb_neq in E.
      split; [intros [= H]; contradiction|]. split; [reflexivity|].
      rewrite C. split; [congruence|]. split; [exact Hg|].
      intros c [= <-]. split; [reflexivity | apply Ho; exact E].
  - split; [discriminate|]. split; [reflexivity|].
    rewrite C. split; [discriminate|]. split; [exact Hg|].
    intros c H. discriminate.
Qed.

Lemma delete_click_selection_witness :
  let ss := mkSession (Some (lit "id-b")) false in
  let w' := mkWorld (Holds [note_b; note_c]) NoFault in
  delete_click (lit "id-a") ss sample_world = (Ret (NoteDeleted, ss), w')
  /\ current_note_id ss <> Some (lit "id-a")
  /\ get_note (lit "id-a") w' = (Ret None, w')
  /\ fst (get_note (lit "id-b") w')
     = fst (get_note (lit "id-b") sample_world).
Proof.
  cbv zeta. split; [reflexivity|].
  destruct (delete_click_selection sample_world _ (lit "id-a")
              (mkSession (Some (lit "id-b")) false) _ eq_refl)
    as [_ [_ [H1 [H2 H3]]]].
  split; [exact H1|]. split; [exact H2|].
  exact (proj2 (H3 (lit "id-b") eq_refl)).
Defined.

(** X28.  The label of a note's button is never longer than 35
    characters and shows the first thirty characters of the title after
    its icon; the raw text beside the preview is never longer than 1003
    characters and starts with the first thousand characters of the
    content. *)
Theorem labels_are_cut (note : Note) (content : str) :
  length (note_button_label note) <= 35
  /\ firstn 30 (skipn 2 (note_button_label note)) = firstn 30 (title note)
  /\ length (display_content content) <= 1003
  /\ firstn 1000 (display_content content) = firstn 1000 content.
Proof.
  unfold note_button_label, display_content.
  split; [|split; [|split]].
  - rewrite !length_app, length_firstn.
    change (length [128196%N; 32%N]) with 2.
    destruct (30 <? length (title note));
      [change (length (lit "...")) with 3 | cbn [length]]; lia.
  - cbn [app skipn].
    destruct (30 <? length (title note)) eqn:E.
    + apply Nat.ltb_lt in E.
      rewrite firstn_app, firstn_firstn.
      rewrite length_firstn.
      replace (30 - Nat.min 30 (length (title note))) with 0 by lia.
      cbn [firstn]. rewrite app_nil_r.
      replace (Nat.min 30 30) with 30 by reflexivity. reflexivity.
    + rewrite app_nil_r, firstn_firstn. reflexivity.
  - destruct (1000 <? length content) eqn:E.
    + rewrite length_app, length_firstn.
      change (length (lit "...")) with 3. lia.
    + apply Nat.ltb_ge in E. lia.
  - destruct (1000 <? length content) eqn:E; [|reflexivity].
    apply Nat.ltb_lt in E.
    rewrite firstn_app, firstn_firstn, length_firstn.
    replace (1000 - Nat.min 1000 (length content)) with 0 by lia.
    cbn [firstn]. rewrite app_nil_r.
    replace (Nat.min 1000 1000) with 1000 by reflexivity. reflexivity.
Qed.

End AppSpec.

(* ------------------------------------------------------------------ *)
(** ** The story of the collection export *)

Module ExportsMore.

Import NoteManager PDFGenerator.

Lemma exc_bind_ret {A B : Type} (m : exc A) (k : A -> exc B) (b : B) :
  exc_bind m k = Ret b -> exists a, m = Ret a /\ k a = Ret b.
Proof. destruct m as [a|e]; simpl; [eauto | discriminate]. Qed.

Lemma mkParagraph_ret (rl : backend) (text : str) (st : style)
  (f : flowable) :
  mkParagraph rl text st = Ret f -> f = Paragraph text st.
Proof.
  unfold mkParagraph. destruct (markup_ok rl text); [|discriminate].
  intros [= <-]. reflexivity.
Qed.

Lemma parse_date_ret (rl : backend) (s : str) (d : datetime rl) :
  parse_date rl s = Ret d -> fromisoformat rl s = Some d.
Proof.
  unfold parse_date. destruct (fromisoformat rl s); [|discriminate].
  intros [= <-]. reflexivity.
Qed.

Ltac unbind H a Ha :=
  apply exc_bind_ret in H; destruct H as [a [Ha H]].

(** The paragraphs of a body are all in the body style. *)
Lemma body_flowables_styles (rl : backend) (paragraphs : list str)
  (body : list flowable) :
  body_flowables rl paragraphs = Ret body ->
  in_style Separator body = []
  /\ in_style CustomTitle body = []
  /\ page_breaks body = [].
Proof.
  revert body; induction paragraphs as [|p ps IH]; simpl; intros body H.
  - injection H as <-. repeat split.
  - unbind H para Hpara. unbind H more Hmore. injection H as <-.
    apply mkParagraph_ret in Hpara. subst para.
    destruct (IH _ Hmore) as [H1 [H2 H3]]. simpl.
    rewrite H1, H2, H3. repeat split.
Qed.

Lemma toc_entries_spec (rl : backend) (notes : list Note) :
  forall i toc,
    toc_entries rl i notes = Ret toc ->
    length toc = length notes
    /\ forall k note,
         nth_error notes k = Some note ->
         exists d,
           fromisoformat rl (created_at note) = Some d
           /\ nth_error toc k
              = Some (Paragraph
                        (str_of_nat (i + k) ++ lit ". " ++ title note
                           ++ lit " (" ++ strftime rl d short_format
                           ++ lit ")") CustomBody).
Proof.
  induction notes as [|n notes IH]; simpl; intros i toc H.
  - injection H as <-. split; [reflexivity|]. intros [|k] note Hk;
      discriminate.
  - unbind H created Hcreated. unbind H para Hpara. unbind H more Hmore.
    injection H as <-.
    apply parse_date_ret in Hcreated. apply mkParagraph_ret in Hpara.
    subst para.
    destruct (IH _ _ Hmore) as [Hl Hn]. split; [simpl; congruence|].
    intros [|k] note Hk; simpl in *.
    + injection Hk as <-. exists created. rewrite Nat.add_0_r. auto.
    + destruct (Hn k note Hk) as [d [Hd He]]. exists d.
      split; [exact Hd|]. rewrite He. repeat f_equal. lia.
Qed.

Lemma in_style_app (st : style) (a b : list flowable) :
  in_style st (a ++ b) = in_style st a ++ in_style st b.
Proof. apply filter_app. Qed.

Lemma page_breaks_app (a b : list flowable) :
  page_breaks (a ++ b) = page_breaks a ++ page_breaks b.
Proof. apply filter_app. Qed.

Lemma in_style_four (st : style) (f1 f2 f3 f4 : flowable)
  (rest : list flowable) :
  in_style st (f1 :: f2 :: f3 :: f4 :: rest)
  = in_style st [f1; f2; f3; f4] ++ in_style st rest.
Proof. apply (filter_app _ [f1; f2; f3; f4] rest). Qed.

Lemma page_breaks_four (f1 f2 f3 f4 : flowable) (rest : list flowable) :
  page_breaks (f1 :: f2 :: f3 :: f4 :: rest)
  = page_breaks [f1; f2; f3; f4] ++ page_breaks rest.
Proof. apply (filter_app _ [f1; f2; f3; f4] rest). Qed.

(** One title per note; a separator behind every note whose number is
    below [total]. *)
Lemma note_sections_styles (rl : backend) (total : nat) (notes : list Note) :
  forall i sections,
    note_sections rl total i notes = Ret sections ->
    length (in_style Separator sections)
    = Nat.min (length notes) (total - i)
    /\ length (in_style CustomTitle sections) = length notes
    /\ page_breaks sections = [].
Proof.
  induction notes as [|n notes IH]; intros i sections H;
    cbn [note_sections] in H.
  - injection H as <-. repeat split.
  - unbind H tp Htp. unbind H text Htext. unbind H md Hmd.
    unbind H body Hbody. unbind H sep Hsep. unbind H more Hmore.
    injection H as <-.
    apply mkParagraph_ret in Htp, Hmd. subst tp md.
    destruct (body_flowables_styles _ _ _ Hbody) as [B1 [B2 B3]].
    destruct (IH _ _ Hmore) as [S1 [S2 S3]].
    assert (T : in_style Separator sep
                  = (if i <? total
                     then [Paragraph (repeat HLINE 80) Separator] else [])
                /\ in_style CustomTitle sep = []
                /\ page_breaks sep = []).
    { destruct (i <? total).
      - unbind Hsep sp Hsp. injection Hsep as <-.
        apply mkParagraph_ret in Hsp. subst sp. repeat split.
      - injection Hsep as <-. repeat split. }
    destruct T as [T1 [T2 T3]].
    rewrite (in_style_four Separator), (in_style_four CustomTitle),
      page_breaks_four.
    rewrite !in_style_app, !page_breaks_app, B1, B2, B3, T1, T2, T3, S3.
    rewrite !length_app, S1, S2.
    cbn [in_style page_breaks filter length app Nat.add].
    destruct (Nat.ltb_spec i total); cbn [length]; repeat split; lia.
Qed.

Lemma all_notes_story_parts (rl : backend) (now : datetime rl)
  (notes : list Note) (story : list flowable) :
  all_notes_story rl now notes = Ret story ->
  exists toc sections,
    toc_entries rl 1 notes = Ret toc
    /\ note_sections rl (length notes) 1 notes = Ret sections
    /\ story
       = [Paragraph (lit "My Notes Collection") CustomTitle; Spacer 1 12;
          Paragraph (lit "Generated on: " ++ strftime rl now long_format)
            MetaData;
          Spacer 1 12;
          Paragraph (lit "Total Notes: " ++ str_of_nat (length notes))
            CustomBody;
          Spacer 1 24;
          Paragraph (lit "Table of Contents") CustomHeading; Spacer 1 12]
           ++ toc ++ [PageBreak] ++ sections.
Proof.
  unfold all_notes_story. intros H.
  unbind H cover Hcover. unbind H date Hdate. unbind H summary Hsummary.
  unbind H tocp Htocp. unbind H toc Htoc. unbind H sections Hsections.
  injection H as <-.
  apply mkParagraph_ret in Hcover, Hdate, Hsummary, Htocp. subst.
  eauto.
Qed.

Lemma toc_styles (rl : backend) (notes : list Note) :
  forall i toc,
    toc_entries rl i notes = Ret toc ->
    in_style Separator toc = []
    /\ in_style CustomTitle toc = []
    /\ page_breaks toc = [].
Proof.
  induction notes as [|n notes IH]; simpl; intros i toc H.
  - injection H as <-. repeat split.
  - unbind H created Hcreated. unbind H para Hpara. unbind H more Hmore.
    injection H as <-.
    apply mkParagraph_ret in Hpara. subst para.
    destruct (IH _ _ Hmore) as [H1 [H2 H3]]. simpl.
    rewrite H1, H2, H3. repeat split.
Qed.

Lemma body_flowables_eq (rl : backend) (paragraphs : list str) :
  forall body,
    body_flowables rl paragraphs = Ret body ->
    body = flat_map (fun p => [Paragraph p CustomBody; Spacer 1 6])
             paragraphs.
Proof.
  induction paragraphs as [|p ps IH]; simpl; intros body H.
  - injection H as <-. reflexivity.
  - unbind H para Hpara. unbind H more Hmore. injection H as <-.
    apply mkParagraph_ret in Hpara. subst para.
    rewrite (IH _ Hmore). reflexivity.
Qed.

Lemma meta_text_ret (rl : backend) (note : Note) (text : str) :
  meta_text rl note = Ret text ->
  exists cdate udate,
    fromisoformat rl (created_at note) = Some cdate
    /\ fromisoformat rl (updated_at note) = Some udate
    /\ text
       = (if str_eqb (created_at note) (updated_at note)
          then lit "Created: " ++ strftime rl cdate long_format
          else (lit "Created: " ++ strftime rl cdate long_format)
                 ++ lit " | Last Updated: "
                 ++ strftime rl udate long_format).
Proof.
  unfold meta_text. intros H.
  unbind H cdate Hc. unbind H udate Hu. injection H as <-.
  apply parse_date_ret in Hc, Hu. exists cdate, udate. auto.
Qed.

Lemma between_cons2 {A : Type} (sep b c : list A) (rest : list (list A)) :
  between sep (b :: c :: rest) = b ++ sep ++ between sep (c :: rest).
Proof. reflexivity. Qed.

(** The sections of the notes: one block per note, the separator block
    between two blocks. *)
Lemma note_sections_blocks (rl : backend) (total : nat)
  (notes : list Note) :
  forall i sections,
    note_sections rl total i notes = Ret sections ->
    i + length notes = S total ->
    exists blocks,
      sections
      = between [Spacer 1 24; Paragraph (repeat HLINE 80) Separator;
                 Spacer 1 24] blocks
      /\ length blocks = length notes
      /\ forall k note,
           nth_error notes k = Some note ->
           exists cdate udate,
             fromisoformat rl (created_at note) = Some cdate
             /\ fromisoformat rl (updated_at note) = Some udate
             /\ nth_error blocks k
                = Some
                    ([Paragraph (str_of_nat (i + k) ++ lit ". "
                                   ++ title note) CustomTitle;
                      Spacer 1 12;
                      Paragraph
                        (if str_eqb (created_at note) (updated_at note)
                         then lit "Created: "
                                ++ strftime rl cdate long_format
                         else (lit "Created: "
                                 ++ strftime rl cdate long_format)
                                ++ lit " | Last Updated: "
                                ++ strftime rl udate long_format)
                        MetaData;
                      Spacer 1 8]
                       ++ flat_map
                            (fun p => [Paragraph p CustomBody; Spacer 1 6])
                            (body_paragraphs (re_digit rl)
                               (content note))).
Proof.
  induction notes as [|n notes IH]; intros i sections H Hi;
    cbn [note_sections] in H.
  - injection H as <-. exists []. split; [reflexivity|].
    split; [reflexivity|]. intros [|k] note Hk; discriminate.
  - unbind H tp Htp. unbind H text Htext. unbind H md Hmd.
    unbind H body Hbody. unbind H sep Hsep. unbind H more Hmore.
    injection H as <-.
    apply mkParagraph_ret in Htp, Hmd. subst tp md.
    apply body_flowables_eq in Hbody. subst body.
    destruct (meta_text_ret rl n text Htext) as [cdate [udate [Hc [Hu ->]]]].
    cbn [length] in Hi.
    destruct (IH (S i) more Hmore) as [blocks [-> [Hl Hn]]]; [lia|].
    set (block :=
           [Paragraph (str_of_nat i ++ lit ". " ++ title n) CustomTitle;
            Spacer 1 12;
            Paragraph
              (if str_eqb (created_at n) (updated_at n)
               then lit "Created: " ++ strftime rl cdate long_format
               else (lit "Created: " ++ strftime rl cdate long_format)
                      ++ lit " | Last Updated: "
                      ++ strftime rl udate long_format)
              MetaData;
            Spacer 1 8]
             ++ flat_map (fun p => [Paragraph p CustomBody; Spacer 1 6])
                  (body_paragraphs (re_digit rl) (content n))).
    exists (block :: blocks). split; [|split].
    + destruct blocks as [|b blocks].
      * destruct notes; [|discriminate]. cbn [length] in Hi.
        replace (i <? total) with false in Hsep
          by (symmetry; apply Nat.ltb_ge; lia).
        injection Hsep as <-. cbn [between]. unfold block.
        rewrite <- app_assoc. cbn [app]. rewrite app_nil_r. reflexivity.
      * destruct notes as [|n' notes]; [discriminate|]. cbn [length] in Hi.
        replace (i <? total) with true in Hsep
          by (symmetry; apply Nat.ltb_lt; lia).
        unbind Hsep sp Hsp. injection Hsep as <-.
        apply mkParagraph_ret in Hsp. subst sp.
        rewrite between_cons2. unfold block.
        rewrite <- !app_assoc. reflexivity.
    + cbn [length]. rewrite Hl. reflexivity.
    + intros [|k] note Hk.
      * injection Hk as <-. exists cdate, udate.
        split; [exact Hc|]. split; [exact Hu|].
        rewrite Nat.add_0_r. reflexivity.
      * destruct (Hn k note Hk) as [c [u [H1 [H2 H3]]]].
        exists c, u. split; [exact H1|]. split; [exact H2|].
        cbn [nth_error]. rewrite H3.
        replace (i + S k) with (S i + k) by lia. reflexivity.
Qed.

(** X12.  When the story of the collection export is built it is, in
    this order: the cover (title, date of generation, [Total Notes:]
    with the number of notes, the heading of the table of contents);
    one table-of-contents line per note in the order given, reading
    number, title and date of creation; one page break; and one block
    per note in the order given, two blocks parted by a spacer, a
    separator of eighty line characters and a spacer.  The block of a
    note is its numbered title, its date line, which names the last
    update only when the two timestamps differ, and its body
    paragraphs, each followed by a spacer. *)
Theorem collection_story_layout (rl : backend) (now : datetime rl)
  (notes : list Note) (story : list flowable) :
  all_notes_story rl now notes = Ret story ->
  exists toc blocks,
    story
    = [Paragraph (lit "My Notes Collection") CustomTitle; Spacer 1 12;
       Paragraph (lit "Generated on: " ++ strftime rl now long_format)
         MetaData;
       Spacer 1 12;
       Paragraph (lit "Total Notes: " ++ str_of_nat (length notes))
         CustomBody;
       Spacer 1 24;
       Paragraph (lit "Table of Contents") CustomHeading; Spacer 1 12]
        ++ toc ++ [PageBreak]
        ++ between [Spacer 1 24; Paragraph (repeat HLINE 80) Separator;
                    Spacer 1 24] blocks
    /\ length toc = length notes
    /\ (forall k note,
          nth_error notes k = Some note ->
          exists d,
            fromisoformat rl (created_at note) = Some d
            /\ nth_error toc k
               = Some (Paragraph
                         (str_of_nat (S k) ++ lit ". " ++ title note
                            ++ lit " (" ++ strftime rl d short_format
                            ++ lit ")") CustomBody))
    /\ length blocks = length notes
    /\ (forall k note,
          nth_error notes k = Some note ->
          exists cdate udate,
            fromisoformat rl (created_at note) = Some cdate
            /\ fromisoformat rl (updated_at note) = Some udate
            /\ nth_error blocks k
               = Some
                   ([Paragraph (str_of_nat (S k) ++ lit ". "
                                  ++ title note) CustomTitle;
                     Spacer 1 12;
                     Paragraph
                       (if str_eqb (created_at note) (updated_at note)
                        then lit "Created: "
                               ++ strftime rl cdate long_format
                        else (lit "Created: "
                                ++ strftime rl cdate long_format)
                               ++ lit " | Last Updated: "
                               ++ strftime rl udate long_format)
                       MetaData;
                     Spacer 1 8]
                      ++ flat_map
                           (fun p => [Paragraph p CustomBody; Spacer 1 6])
                           (body_paragraphs (re_digit rl) (content note))))
    /\ page_breaks story = [PageBreak].
Proof.
  intros H.
  destruct (all_notes_story_parts rl now notes story H)
    as [toc [sections [Ht [Hs ->]]]].
  destruct (toc_entries_spec rl notes 1 toc Ht) as [Hl Hn].
  destruct (toc_styles rl notes 1 toc Ht) as [_ [_ Hp]].
  destruct (note_sections_styles rl _ notes 1 sections Hs) as [_ [_ Hq]].
  destruct (note_sections_blocks rl _ notes 1 sections Hs eq_refl)
    as [blocks [Hb [Hbl Hbn]]].
  exists toc, blocks. split; [rewrite Hb; reflexivity|].
  split; [exact Hl|]. split; [exact Hn|]. split; [exact Hbl|].
  split; [exact Hbn|].
  rewrite !page_breaks_app, Hp, Hq. reflexivity.
Qed.

Lemma collection_story_layout_witness :
  exists story toc blocks,
    all_notes_story sample_backend (lit "2024-03-09T10:00:00")
      [note_b; note_a] = Ret story
    /\ story
       = [Paragraph (lit "My Notes Collection") CustomTitle; Spacer 1 12;
          Paragraph (lit "Generated on: " ++ lit "2024-03-09T10:00:00")
            MetaData;
          Spacer 1 12;
          Paragraph (lit "Total Notes: " ++ lit "2") CustomBody;
          Spacer 1 24;
          Paragraph (lit "Table of Contents") CustomHeading; Spacer 1 12]
           ++ toc ++ [PageBreak]
           ++ between [Spacer 1 24; Paragraph (repeat HLINE 80) Separator;
                       Spacer 1 24] blocks
    /\ length toc = 2
    /\ length blocks = 2.
Proof.
  eexists.
  destruct (collection_story_layout sample_backend
              (lit "2024-03-09T10:00:00") [note_b; note_a] _ eq_refl)
    as [toc [blocks [H1 [H2 [_ [H3 _]]]]]].
  exists toc, blocks. split; [reflexivity|].
  split; [exact H1|]. split; [exact H2 | exact H3].
Defined.

Lemma landmarks_app (a b : list flowable) :
  landmarks (a ++ b) = landmarks a ++ landmarks b.
Proof. apply filter_app. Qed.

Lemma landmarks_body (paragraphs : list str) :
  landmarks (flat_map (fun p => [Paragraph p CustomBody; Spacer 1 6])
               paragraphs) = [].
Proof. induction paragraphs as [|p ps IH]; [reflexivity | exact IH]. Qed.

Lemma landmarks_toc (rl : backend) (notes : list Note) :
  forall i toc, toc_entries rl i notes = Ret toc -> landmarks toc = [].
Proof.
  induction notes as [|n notes IH]; simpl; intros i toc H.
  - injection H as <-. reflexivity.
  - unbind H created Hcreated. unbind H para Hpara. unbind H more Hmore.
    injection H as <-. apply mkParagraph_ret in Hpara. subst para.
    exact (IH _ _ Hmore).
Qed.

Lemma landmarks_between (sep : list flowable)
  (blocks : list (list flowable)) :
  landmarks (between sep blocks)
  = between (landmarks sep) (map landmarks blocks).
Proof.
  induction blocks as [|b blocks IH]; [reflexivity|].
  destruct blocks as [|c rest]; [reflexivity|].
  rewrite between_cons2. cbn [map]. rewrite between_cons2.
  rewrite !landmarks_app. do 2 f_equal. exact IH.
Qed.

Lemma nth_error_numbered (notes : list Note) :
  forall i k note,
    nth_error notes k = Some note ->
    nth_error (combine (seq i (length notes)) notes) k = Some (i + k, note).
Proof.
  induction notes as [|n notes IH]; intros i [|k] note H; simpl in *;
    try discriminate.
  - injection H as <-. rewrite Nat.add_0_r. reflexivity.
  - rewrite (IH (S i) k note H). do 2 f_equal. lia.
Qed.

(** X13.  The titles and separators of the collection's story are, in
    the order of the story: the cover title, then the numbered titles
    of the notes in the order given with one separator between two of
    them.  No separator stands before the first note or behind the
    last; their number is the number of notes less one, none for an
    empty or one-note collection. *)
Theorem collection_story_separators (rl : backend) (now : datetime rl)
  (notes : list Note) (story : list flowable) :
  all_notes_story rl now notes = Ret story ->
  (exists titles,
     landmarks story
     = Paragraph (lit "My Notes Collection") CustomTitle
         :: between [Paragraph (repeat HLINE 80) Separator]
              (map (fun t => [t]) titles)
     /\ length titles = length notes
     /\ forall k note,
          nth_error notes k = Some note ->
          nth_error titles k
          = Some (Paragraph (str_of_nat (S k) ++ lit ". " ++ title note)
                    CustomTitle))
  /\ length (in_style Separator story) = pred (length notes)
  /\ length (in_style CustomTitle story) = S (length notes).
Proof.
  intros H.
  destruct (all_notes_story_parts rl now notes story H)
    as [toc [sections [Ht [Hs ->]]]].
  split.
  - destruct (note_sections_blocks rl _ notes 1 sections Hs eq_refl)
      as [blocks [-> [Hbl Hbn]]].
    exists (map (fun '(k, note) =>
                   Paragraph (str_of_nat (S k) ++ lit ". " ++ title note)
                     CustomTitle)
              (combine (seq 0 (length notes)) notes)).
    assert (Hk : forall k note,
               nth_error notes k = Some note ->
               nth_error (combine (seq 0 (length notes)) notes) k
               = Some (k, note))
      by (intros k note Hn; apply (nth_error_numbered notes 0 k note Hn)).
    split; [|split].
    + rewrite !landmarks_app, (landmarks_toc rl notes 1 toc Ht).
      rewrite landmarks_between.
      change (landmarks [Spacer 1 24; Paragraph (repeat HLINE 80) Separator;
                         Spacer 1 24])
        with [Paragraph (repeat HLINE 80) Separator].
      cbn [landmarks filter app]. f_equal. f_equal.
      apply nth_error_ext. intros k.
      rewrite !nth_error_map.
      destruct (nth_error notes k) as [note|] eqn:Hn.
      * destruct (Hbn k note Hn) as [c [u [_ [_ Hb]]]].
        rewrite Hb, (Hk k note Hn). cbn [option_map].
        rewrite landmarks_app, landmarks_body. reflexivity.
      * assert (Hge : length notes <= k) by (apply nth_error_None; exact Hn).
        replace (nth_error blocks k) with (@None (list flowable))
          by (symmetry; apply nth_error_None; lia).
        replace (nth_error (combine (seq 0 (length notes)) notes) k)
          with (@None (nat * Note))
          by (symmetry; apply nth_error_None;
              rewrite length_combine, length_seq; lia).
        reflexivity.
    + rewrite length_map, length_combine, length_seq. lia.
    + intros k note Hn. rewrite nth_error_map, (Hk k note Hn). reflexivity.
  - destruct (toc_styles rl notes 1 toc Ht) as [T1 [T2 _]].
    destruct (note_sections_styles rl _ notes 1 sections Hs) as [S1 [S2 _]].
    rewrite !in_style_app, T1, T2, !length_app, S1, S2. simpl. lia.
Qed.

Lemma collection_story_separators_witness :
  exists story,
    all_notes_story sample_backend (lit "2024-03-09T10:00:00")
      [note_b; note_a; note_c] = Ret story
    /\ landmarks story
       = [Paragraph (lit "My Notes Collection") CustomTitle;
          Paragraph (lit "1. " ++ title note_b) CustomTitle;
          Paragraph (repeat HLINE 80) Separator;
          Paragraph (lit "2. " ++ title note_a) CustomTitle;
          Paragraph (repeat HLINE 80) Separator;
          Paragraph (lit "3. " ++ title note_c) CustomTitle]
    /\ length (in_style Separator story) = 2
    /\ length (in_style CustomTitle story) = 4.
Proof.
  eexists. split; [reflexivity|].
  split; [vm_compute; reflexivity|].
  exact (proj2 (collection_story_separators sample_backend
                  (lit "2024-03-09T10:00:00") [note_b; note_a; note_c] _
                  eq_refl)).
Defined.

(** *** The story of one note *)

Lemma body_style_flat_map (paragraphs : list str) :
  in_style CustomBody
    (flat_map (fun p => [Paragraph p CustomBody; Spacer 1 6]) paragraphs)
  = map (fun p => Paragraph p CustomBody) paragraphs.
Proof.
  induction paragraphs as [|p ps IH]; [reflexivity|].
  cbn [flat_map app map]. unfold in_style in *. cbn [filter].
  rewrite IH. reflexivity.
Qed.

(** X27.  When the story of the single-note export is built, the dates
    of the note parse and the story is: the title, the date line, which
    names the last update only when the two timestamps differ, the
    separator of fifty line characters, and then every body paragraph
    in order, each followed by a spacer.  It holds no page break. *)
Theorem single_note_story_layout (rl : backend) (note : Note)
  (story : list flowable) :
  single_note_story rl note = Ret story ->
  exists created updated,
    fromisoformat rl (created_at note) = Some created
    /\ fromisoformat rl (updated_at note) = Some updated
    /\ story
       = [Paragraph (title note) CustomTitle; Spacer 1 12;
          Paragraph
            (if str_eqb (created_at note) (updated_at note)
             then lit "Created: " ++ strftime rl created long_format
             else (lit "Created: " ++ strftime rl created long_format)
                    ++ lit " | Last Updated: "
                    ++ strftime rl updated long_format)
            MetaData;
          Spacer 1 12;
          Paragraph (repeat HLINE 50) Separator]
         ++ flat_map (fun p => [Paragraph p CustomBody; Spacer 1 6])
              (body_paragraphs (re_digit rl) (content note))
    /\ in_style CustomBody story
       = map (fun p => Paragraph p CustomBody)
           (body_paragraphs (re_digit rl) (content note))
    /\ page_breaks story = [].
Proof.
  unfold single_note_story. intros H.
  unbind H titlep Htitle. unbind H text Htext. unbind H metap Hmeta.
  unbind H sep Hsep. unbind H body Hbody. injection H as <-.
  apply mkParagraph_ret in Htitle, Hmeta, Hsep. subst titlep metap sep.
  unfold meta_text in Htext.
  unbind Htext cdate Hc. unbind Htext udate Hu.
  injection Htext as <-.
  apply parse_date_ret in Hc, Hu.
  destruct (body_flowables_styles rl _ body Hbody) as [_ [_ Hp]].
  pose proof (body_flowables_eq rl _ body Hbody) as ->.
  exists cdate, udate.
  split; [exact Hc|]. split; [exact Hu|]. split; [reflexivity|].
  split.
  - exact (body_style_flat_map _).
  - exact Hp.
Qed.

Lemma single_note_story_layout_witness :
  exists story,
    single_note_story sample_backend note_a = Ret story
    /\ in_style CustomBody story
       = map (fun p => Paragraph p CustomBody)
           (body_paragraphs ascii_digit (content note_a))
    /\ page_breaks story = [].
Proof.
  destruct (single_note_story sample_backend note_a) as [story|e] eqn:E;
    [|vm_compute in E; discriminate].
  exists story. split; [reflexivity|].
  destruct (single_note_story_layout sample_backend note_a story E)
    as [cdate [udate [_ [_ [_ [H1 H2]]]]]].
  split; [exact H1 | exact H2].
Defined.

End ExportsMore.

(* ------------------------------------------------------------------ *)
(** ** More about the renderer *)

Module RendererMore.

Import NoteManager PDFGenerator PDFGeneratorSpec StripFacts.

(** *** Characters that do not occur *)

Lemma lacks_nil (k : char) : lacks k [].
Proof. intros c []. Qed.

Lemma lacks_cons (k c : char) (s : str) :
  N.eqb c k = false -> lacks k s -> lacks k (c :: s).
Proof. intros Hc Hs d [<- | Hd]; auto. Qed.

Lemma lacks_app (k : char) (a b : str) :
  lacks k a -> lacks k b -> lacks k (a ++ b).
Proof.
  intros Ha Hb c Hc. apply in_app_or in Hc. destruct Hc; auto.
Qed.

Lemma lacks_app_inv (k : char) (a b : str) :
  lacks k (a ++ b) -> lacks k a /\ lacks k b.
Proof.
  intros H. split; intros c Hc; apply H; apply in_or_app; auto.
Qed.

Lemma lacks_tail (k c : char) (s : str) : lacks k (c :: s) -> lacks k s.
Proof. intros H d Hd. apply H. right. exact Hd. Qed.

(** A list given in full is checked by running over it. *)
Lemma lacks_closed (k : char) (s : str) :
  forallb (fun c => negb (N.eqb c k)) s = true -> lacks k s.
Proof.
  intros H c Hc. rewrite forallb_forall in H.
  apply negb_true_iff. apply H. exact Hc.
Qed.

Lemma lacks_not_in (k : char) (s : str) : lacks k s -> ~ In k s.
Proof.
  intros H Hk. apply H in Hk. rewrite N.eqb_refl in Hk. discriminate.
Qed.

Lemma lacks_strip (k : char) (s : str) : lacks k s -> lacks k (strip s).
Proof. intros H c Hc. apply H. apply strip_incl. exact Hc. Qed.

Ltac lacks_solve :=
  repeat first
    [ assumption
    | apply lacks_nil
    | apply lacks_app
    | (apply lacks_closed; reflexivity)
    | (apply lacks_cons; [reflexivity|])
    | match goal with
      | H : inline_free ?t |- lacks _ ?t => apply H; simpl; auto 10
      | H : free_of _ ?t |- lacks _ ?t => apply H; simpl; auto 10
      end ].

(** *** The output has no line break left *)

Lemma break_step_lacks_newline (x : str) :
  forall k bol, lacks NL (re_sub_from (m_lit [NL] BR) k bol x).
Proof.
  induction x as [|c x IH]; intros k bol; cbn [re_sub_from].
  - apply lacks_nil.
  - destruct k as [|k]; [|apply IH].
    unfold m_lit. cbn [startswith].
    destruct (N.eqb NL c) eqn:E; cbn [andb length Nat.pred].
    + apply lacks_app; [apply lacks_closed; reflexivity | apply IH].
    + apply lacks_cons; [rewrite N.eqb_sym; exact E | apply IH].
Qed.

Lemma clean_content_no_newline_aux (digit : char -> bool) (content : str) :
  lacks NL (clean_content digit content)
  /\ ~ In NL (clean_content digit content).
Proof.
  assert (H : lacks NL (clean_content digit content)).
  { unfold clean_content, str_replace, re_sub.
    apply break_step_lacks_newline. }
  split; [exact H | apply lacks_not_in; exact H].
Qed.

(** X14.  The text [clean_content] returns contains no newline
    character, whatever the input: every line break has become a
    [<br/>] tag. *)
Theorem clean_content_has_no_newline (digit : char -> bool) (content : str) :
  lacks NL (clean_content digit content)
  /\ ~ In NL (clean_content digit content).
Proof. apply clean_content_no_newline_aux. Qed.

(** *** The paragraphs of a body *)

Lemma split_from_chars (sep : str) (s : str) :
  forall k cur p c,
    In p (split_from sep k cur s) -> In c p -> In c cur \/ In c s.
Proof.
  induction s as [|d s IH]; intros k cur p c Hp Hc; cbn [split_from] in Hp.
  - destruct Hp as [<- | []]. left. apply in_rev. exact Hc.
  - destruct k as [|k].
    + destruct (startswith sep (d :: s)).
      * destruct Hp as [<- | Hp].
        -- left. apply in_rev. exact Hc.
        -- destruct (IH _ _ _ _ Hp Hc) as [[] | H]. right. right. exact H.
      * destruct (IH _ _ _ _ Hp Hc) as [[<- | H] | H].
        -- right. left. reflexivity.
        -- left. exact H.
        -- right. right. exact H.
    + destruct (IH _ _ _ _ Hp Hc) as [H | H]; [left | right; right]; exact H.
Qed.

(** X15.  Every text that becomes a body paragraph of an export is
    non-empty, has no white space at either end and contains no
    newline. *)
Theorem body_paragraphs_are_trimmed (digit : char -> bool)
  (content paragraph : str) :
  In paragraph (body_paragraphs digit content) ->
  paragraph <> [] /\ strip paragraph = paragraph /\ ~ In NL paragraph.
Proof.
  unfold body_paragraphs. intros H.
  apply in_map_iff in H. destruct H as [raw [<- H]].
  apply filter_In in H. destruct H as [Hin Hne].
  split; [|split].
  - intros E. rewrite E in Hne. discriminate.
  - apply strip_idempotent.
  - intros Hc. apply strip_incl in Hc.
    destruct (split_from_chars _ _ _ _ _ _ Hin Hc) as [[] | Hs].
    exact (proj2 (clean_content_no_newline_aux digit content) Hs).
Qed.

Lemma body_paragraphs_are_trimmed_witness :
  In (lit "one") (body_paragraphs ascii_digit
                    (lit "  one " ++ [NL; NL] ++ lit " two"))
  /\ lit "one" <> []
  /\ strip (lit "one") = lit "one"
  /\ ~ In NL (lit "one").
Proof.
  assert (H : In (lit "one") (body_paragraphs ascii_digit
                                (lit "  one " ++ [NL; NL] ++ lit " two")))
    by (left; reflexivity).
  split; [exact H|].
  exact (body_paragraphs_are_trimmed ascii_digit _ _ H).
Defined.

(** *** The two local functions *)

(** X16.  The text [replace_code_block] puts between its font tags is
    never longer than 103 characters: the stripped code when that has at
    most 100 characters, otherwise its first 100 characters and three
    dots. *)
Theorem replace_code_block_cap (group0 : str) :
  let whole := strip (str_replace fence [] group0) in
  exists code,
    replace_code_block group0
    = lit "<font " ++ attr "face" "Courier" ++ lit " " ++ attr "size" "9"
        ++ lit ">" ++ code ++ lit "</font>"
    /\ length code <= 103
    /\ (length whole <= 100 -> code = whole)
    /\ (100 < length whole -> code = firstn 100 whole ++ lit "...").
Proof.
  cbv zeta. unfold replace_code_block.
  destruct (Nat.ltb_spec 100 (length (strip (str_replace fence [] group0))))
    as [Hlt | Hle].
  - eexists. split; [reflexivity|]. split; [|split].
    + rewrite length_app, firstn_length_le by lia. simpl. lia.
    + lia.
    + reflexivity.
  - eexists. split; [reflexivity|]. split; [lia|]. split; [reflexivity | lia].
Qed.

Lemma replace_code_block_cap_witness :
  100 < length (strip (str_replace fence [] long_fenced_block))
  /\ exists code,
       replace_code_block long_fenced_block
       = lit "<font " ++ attr "face" "Courier" ++ lit " "
           ++ attr "size" "9" ++ lit ">" ++ code ++ lit "</font>"
       /\ length code <= 103
       /\ code = repeat 120%N 100 ++ lit "...".
Proof.
  assert (H : 100 < length (strip (str_replace fence [] long_fenced_block))).
  { apply Nat.ltb_lt. vm_compute. reflexivity. }
  split; [exact H|].
  destruct (replace_code_block_cap long_fenced_block)
    as [code [H1 [H2 [_ H4]]]].
  exists code. split; [exact H1|]. split; [exact H2|].
  rewrite (H4 H). vm_compute. reflexivity.
Defined.

Lemma split_char_lacks (c : char) (s : str) :
  forall p, In p (split_char c s) -> lacks c p.
Proof.
  induction s as [|x s IH]; intros p Hp; cbn [split_char] in Hp.
  - destruct Hp as [<- | []]. apply lacks_nil.
  - destruct (N.eqb x c) eqn:E.
    + destruct Hp as [<- | Hp]; [apply lacks_nil | apply IH; exact Hp].
    + destruct (split_char c s) as [|piece rest] eqn:S.
      * destruct Hp as [<- | []].
        apply lacks_cons; [exact E | apply lacks_nil].
      * destruct Hp as [<- | Hp].
        -- apply lacks_cons; [exact E|]. apply IH. left. reflexivity.
        -- apply IH. right. exact Hp.
Qed.

Lemma split_char_chars (c : char) (s : str) :
  forall p d, In p (split_char c s) -> In d p -> In d s.
Proof.
  induction s as [|x s IH]; intros p d Hp Hd; cbn [split_char] in Hp.
  - destruct Hp as [<- | []]. destruct Hd.
  - destruct (N.eqb x c).
    + destruct Hp as [<- | Hp]; [destruct Hd|]. right. eapply IH; eauto.
    + destruct (split_char c s) as [|piece rest] eqn:S.
      * destruct Hp as [<- | []]. destruct Hd as [<- | []]. left. auto.
      * destruct Hp as [<- | Hp].
        -- destruct Hd as [<- | Hd]; [left; auto|].
           right. eapply IH; [left; reflexivity | exact Hd].
        -- right. eapply IH; [right; exact Hp | exact Hd].
Qed.

Lemma join_lacks (k : char) (sep : str) (parts : list str) :
  lacks k sep -> (forall p, In p parts -> lacks k p) ->
  lacks k (join sep parts).
Proof.
  intros Hs. induction parts as [|p rest IH]; intros Hp; cbn [join].
  - apply lacks_nil.
  - destruct rest as [|q rest].
    + apply Hp. left. reflexivity.
    + apply lacks_app; [apply Hp; left; reflexivity|].
      apply lacks_app; [exact Hs|].
      apply IH. intros r Hr. apply Hp. right. exact Hr.
Qed.

Lemma table_line_lacks (k : char) (line : str) :
  lacks k [32%N; BULLET; 32%N] ->
  (k = PIPE \/ lacks k line) ->
  forall p, In p (table_line line) -> lacks k p.
Proof.
  intros Hsep Hk p Hp. unfold table_line in Hp.
  destruct (contains line [PIPE]
            && negb (startswith (lit "|--") (strip line))); [|destruct Hp].
  destruct (map strip _) as [|cell cells] eqn:C; [destruct Hp|].
  destruct Hp as [<- | []]. rewrite <- C.
  apply join_lacks; [exact Hsep|].
  intros q Hq. apply in_map_iff in Hq. destruct Hq as [raw [<- Hraw]].
  apply filter_In in Hraw. destruct Hraw as [Hraw _].
  apply lacks_strip. destruct Hk as [-> | Hl].
  - apply split_char_lacks with (s := line). exact Hraw.
  - intros d Hd. apply Hl. eapply split_char_chars; eauto.
Qed.

Lemma split_char_absent (c : char) (p : str) :
  lacks c p -> split_char c p = [p].
Proof.
  induction p as [|x p IH]; intros H; [reflexivity|].
  cbn [split_char]. rewrite (H x (or_introl eq_refl)).
  rewrite (IH (lacks_tail _ _ _ H)). reflexivity.
Qed.

Lemma split_char_app (c : char) (p rest : str) :
  lacks c p -> split_char c (p ++ c :: rest) = p :: split_char c rest.
Proof.
  induction p as [|x p IH]; intros H.
  - cbn [app split_char]. rewrite N.eqb_refl. reflexivity.
  - cbn [app split_char]. rewrite (H x (or_introl eq_refl)).
    rewrite (IH (lacks_tail _ _ _ H)). reflexivity.
Qed.

Lemma join_two (sep p q : str) (r : list str) :
  join sep (p :: q :: r) = p ++ sep ++ join sep (q :: r).
Proof. reflexivity. Qed.

Lemma split_char_join (c : char) (parts : list str) :
  parts <> [] -> (forall p, In p parts -> lacks c p) ->
  split_char c (join [c] parts) = parts.
Proof.
  induction parts as [|p parts IH]; intros Hne H; [congruence|].
  destruct parts as [|q r].
  - cbn [join]. apply split_char_absent. apply H. left. reflexivity.
  - rewrite join_two. cbn [app].
    rewrite split_char_app by (apply H; left; reflexivity).
    f_equal. apply IH; [discriminate|].
    intros x Hx. apply H. right. exact Hx.
Qed.

Lemma join_snoc_nil (sep : str) (parts : list str) :
  parts <> [] -> join sep (parts ++ [[]]) = join sep parts ++ sep.
Proof.
  induction parts as [|p parts IH]; intros Hne; [congruence|].
  destruct parts as [|q r].
  - cbn [app join]. rewrite app_nil_r. reflexivity.
  - cbn [app]. rewrite !join_two. change (q :: r ++ [[]])
      with ((q :: r) ++ [[]]).
    rewrite IH by discriminate. rewrite <- !app_assoc. reflexivity.
Qed.

Lemma row_text_join (cells : list str) :
  cells <> [] -> row_text cells = join [PIPE] ([] :: cells ++ [[]]).
Proof.
  intros Hne. unfold row_text.
  destruct cells as [|c cells]; [congruence|].
  change ([] :: (c :: cells) ++ [[]])
    with ([] :: c :: (cells ++ [[]])).
  rewrite join_two.
  change (c :: cells ++ [[]]) with ((c :: cells) ++ [[]]).
  rewrite join_snoc_nil by discriminate. reflexivity.
Qed.

Lemma row_text_strip (cells : list str) :
  strip (row_text cells) = row_text cells.
Proof.
  unfold strip, row_text.
  rewrite (StripFacts.lstrip_fixed _ (eq_refl : head_nonspace
             ([PIPE] ++ join [PIPE] cells ++ [PIPE]))).
  apply StripFacts.rstrip_fixed.
  cbn [app rev]. rewrite rev_app_distr. reflexivity.
Qed.

Lemma row_text_no_rule (cells : list str) :
  table_cells cells -> startswith (lit "|--") (row_text cells) = false.
Proof.
  intros [Hne [Hd Hc]]. destruct cells as [|c cells]; [congruence|].
  cbn [hd] in Hd. inversion Hc as [|c' cs' [Hb _] _]; subst.
  assert (E : exists rest,
             join [PIPE] (c :: cells) ++ [PIPE] = c ++ PIPE :: rest).
  { destruct cells as [|q r].
    - exists []. reflexivity.
    - exists (join [PIPE] (q :: r) ++ [PIPE]). rewrite join_two.
      rewrite <- !app_assoc. reflexivity. }
  destruct E as [rest E]. unfold row_text. rewrite E.
  destruct c as [|x [|y c]].
  - discriminate Hb.
  - cbn -[N.eqb]. destruct (N.eqb 45 x); reflexivity.
  - exact Hd.
Qed.

Lemma filter_keep {A : Type} (p : A -> bool) (l : list A) :
  (forall x, In x l -> p x = true) -> filter p l = l.
Proof.
  induction l as [|x l IH]; intros H; [reflexivity|].
  cbn [filter]. rewrite (H x (or_introl eq_refl)).
  f_equal. apply IH. intros y Hy. apply H. right. exact Hy.
Qed.

(** A row that is no rule gives one line: its cells, stripped, with a
    bullet between two of them. *)
Lemma table_line_row (cells : list str) :
  table_cells cells ->
  table_line (row_text cells)
  = [join [32%N; BULLET; 32%N] (map strip cells)].
Proof.
  intros Hc. pose proof (row_text_no_rule cells Hc) as Hr.
  destruct Hc as [Hne [_ Hc]]. rewrite Forall_forall in Hc.
  unfold table_line. rewrite row_text_strip, Hr.
  replace (contains (row_text cells) [PIPE]) with true
    by (unfold row_text; cbn -[N.eqb]; rewrite N.eqb_refl; reflexivity).
  cbn [andb negb].
  rewrite (row_text_join cells Hne).
  rewrite split_char_join; [|discriminate|].
  - cbn [filter strip lstrip rstrip rev length Nat.eqb negb].
    rewrite filter_app. cbn [filter strip lstrip rstrip rev length Nat.eqb
                               negb].
    rewrite app_nil_r.
    rewrite filter_keep by (intros x Hx; apply (Hc x Hx)).
    destruct cells as [|c cells]; [congruence|]. reflexivity.
  - intros x [<- | Hx]; [apply lacks_nil|].
    apply in_app_or in Hx. destruct Hx as [Hx | [<- | []]].
    + apply (Hc x Hx).
    + apply lacks_nil.
Qed.

(** A rule between the rows gives no line. *)
Lemma table_line_rule (rule : str) :
  startswith (lit "|--") (strip rule) = true -> table_line rule = [].
Proof.
  intros H. unfold table_line. rewrite H.
  rewrite andb_false_r. reflexivity.
Qed.

Lemma row_text_lacks_newline (cells : list str) :
  table_cells cells -> lacks NL (row_text cells).
Proof.
  intros [_ [_ Hc]]. rewrite Forall_forall in Hc. unfold row_text.
  apply lacks_app; [apply lacks_closed; reflexivity|].
  apply lacks_app; [|apply lacks_closed; reflexivity].
  apply join_lacks; [apply lacks_closed; reflexivity|].
  intros p Hp. apply (Hc p Hp).
Qed.

Lemma table_lines_rows (rows : list (list str)) :
  Forall table_cells rows ->
  flat_map table_line (map row_text rows)
  = map (fun cells => join [32%N; BULLET; 32%N] (map strip cells)) rows.
Proof.
  induction rows as [|r rows IH]; intros H; [reflexivity|].
  inversion H as [|r' rows' Hr Hrows]; subst.
  cbn [map flat_map]. rewrite (table_line_row r Hr), (IH Hrows).
  reflexivity.
Qed.

(** X17.  For a table written as rows of cells between pipes,
    [replace_table] returns one line per row, the lines joined by
    [<br/>]; a line holds the cells of its row, stripped, joined by a
    bullet between spaces; a rule under the first row ([|--]) gives no
    line.  Whatever the table, the result contains neither a pipe nor a
    newline. *)
Theorem replace_table_rows (head : list str) (rule : str)
  (rows : list (list str)) (table_text : str) :
  (Forall table_cells (head :: rows) ->
   lacks NL rule -> startswith (lit "|--") (strip rule) = true ->
   replace_table (join [NL] (row_text head :: rule :: map row_text rows))
   = join BR
       (map (fun cells => join [32%N; BULLET; 32%N] (map strip cells))
          (head :: rows))
   /\ replace_table (join [NL] (map row_text (head :: rows)))
      = join BR
          (map (fun cells => join [32%N; BULLET; 32%N] (map strip cells))
             (head :: rows)))
  /\ ~ In PIPE (replace_table table_text)
  /\ ~ In NL (replace_table table_text).
Proof.
  split.
  - intros Hc Hn Hr.
    inversion Hc as [|h rs Hh Hrows]; subst.
    assert (Hl : forall p, In p (map row_text rows) -> lacks NL p).
    { intros p Hp. apply in_map_iff in Hp. destruct Hp as [r [<- Hin]].
      apply row_text_lacks_newline. rewrite Forall_forall in Hrows.
      apply Hrows. exact Hin. }
    unfold replace_table. split.
    + rewrite split_char_join; [|discriminate|].
      * cbn [flat_map]. rewrite (table_line_row head Hh).
        rewrite (table_line_rule rule Hr), (table_lines_rows rows Hrows).
        reflexivity.
      * intros p [<- | [<- | Hp]];
          [apply row_text_lacks_newline; exact Hh | exact Hn
          | apply Hl; exact Hp].
    + rewrite split_char_join; [|discriminate|].
      * rewrite (table_lines_rows (head :: rows) Hc). reflexivity.
      * intros p [<- | Hp];
          [apply row_text_lacks_newline; exact Hh | apply Hl; exact Hp].
  - unfold replace_table. split; apply lacks_not_in; apply join_lacks;
      try (apply lacks_closed; reflexivity);
      intros p Hp; apply in_flat_map in Hp; destruct Hp as [line [Hl Hp]].
    + eapply table_line_lacks; [apply lacks_closed; reflexivity | | exact Hp].
      left. reflexivity.
    + eapply table_line_lacks; [apply lacks_closed; reflexivity | | exact Hp].
      right. apply split_char_lacks with (s := table_text). exact Hl.
Qed.

Lemma replace_table_rows_witness :
  Forall table_cells [[lit " Name "; lit " Qty "]; [lit " tea "; lit " 2 "]]
  /\ lacks NL (lit "|------|-----|")
  /\ startswith (lit "|--") (strip (lit "|------|-----|")) = true
  /\ replace_table
       (lit "| Name | Qty |" ++ [NL] ++ lit "|------|-----|" ++ [NL]
        ++ lit "| tea | 2 |")
     = lit "Name " ++ [BULLET] ++ lit " Qty<br/>tea " ++ [BULLET]
         ++ lit " 2".
Proof.
  assert (C : forall cell,
             negb (length (strip cell) =? 0) = true ->
             forallb (fun c => negb (N.eqb c PIPE) && negb (N.eqb c NL)) cell
             = true ->
             negb (length (strip cell) =? 0) = true
             /\ lacks PIPE cell /\ lacks NL cell).
  { intros cell Hb Hf. rewrite forallb_forall in Hf.
    split; [exact Hb|].
    split; intros c Hc; specialize (Hf c Hc);
      apply andb_prop in Hf; destruct Hf as [H1 H2];
      apply negb_true_iff; assumption. }
  assert (Hc : Forall table_cells
                 [[lit " Name "; lit " Qty "]; [lit " tea "; lit " 2 "]]).
  { repeat constructor; try discriminate; try reflexivity;
      apply C; reflexivity. }
  assert (Hn : lacks NL (lit "|------|-----|"))
    by (apply lacks_closed; reflexivity).
  assert (Hr : startswith (lit "|--") (strip (lit "|------|-----|")) = true)
    by reflexivity.
  split; [exact Hc|]. split; [exact Hn|]. split; [exact Hr|].
  exact (proj1 (proj1 (replace_table_rows
                         [lit " Name "; lit " Qty "] (lit "|------|-----|")
                         [[lit " tea "; lit " 2 "]] []) Hc Hn Hr)).
Defined.

(** *** One line of text through [re.sub] *)

(** On a text without newline only the first position is at the
    beginning of a line. *)
Lemma single_line_rest (m : matcher) (s : str) :
  (forall x, m false x = None) -> lacks NL s ->
  forall k, re_sub_from m k false s = skipn k s.
Proof.
  intros Hm. induction s as [|c s IH]; intros Hs k.
  - destruct k; reflexivity.
  - cbn [re_sub_from]. rewrite (Hs c (or_introl eq_refl)).
    destruct k as [|k]; [|apply IH; eapply lacks_tail; exact Hs].
    rewrite Hm. cbn [skipn]. f_equal.
    apply (IH (lacks_tail _ _ _ Hs) 0).
Qed.

Lemma anchored_miss (m : matcher) (s : str) :
  (forall x, m false x = None) -> lacks NL s -> m true s = None ->
  re_sub m s = s.
Proof.
  intros Hm Hs H. destruct s as [|c s]; [reflexivity|].
  unfold re_sub. cbn [re_sub_from]. rewrite H.
  rewrite (Hs c (or_introl eq_refl)). f_equal.
  apply (single_line_rest m s Hm (lacks_tail _ _ _ Hs) 0).
Qed.

Lemma anchored_hit (m : matcher) (s : str) (n : nat) (r : str) :
  (forall x, m false x = None) -> lacks NL s -> s <> [] ->
  m true s = Some (n, r) -> 1 <= n ->
  re_sub m s = r ++ skipn n s.
Proof.
  intros Hm Hs Hne H Hn. destruct s as [|c s]; [contradiction|].
  unfold re_sub. cbn [re_sub_from]. rewrite H.
  rewrite (Hs c (or_introl eq_refl)). f_equal.
  rewrite (single_line_rest m s Hm (lacks_tail _ _ _ Hs)).
  destruct n as [|n]; [lia | reflexivity].
Qed.

(** A substitution that puts back what it matched changes nothing. *)
Lemma re_sub_same (m : matcher) (s : str) :
  (forall bol x n r, m bol x = Some (n, r) -> 1 <= n /\ r = firstn n x) ->
  forall k bol, re_sub_from m k bol s = skipn k s.
Proof.
  intros Hm. induction s as [|c s IH]; intros k bol.
  - destruct k; reflexivity.
  - cbn [re_sub_from]. destruct k as [|k]; [|apply IH].
    destruct (m bol (c :: s)) as [[n r]|] eqn:E.
    + destruct (Hm _ _ _ _ E) as [Hn ->]. rewrite IH.
      destruct n as [|n]; [lia|]. cbn [Nat.pred firstn skipn app].
      f_equal. apply firstn_skipn.
    + rewrite IH. reflexivity.
Qed.

Lemma line_rest_single (t : str) : lacks NL t -> line_rest t = t.
Proof.
  induction t as [|c t IH]; intros H; cbn [line_rest]; auto.
  rewrite (H c (or_introl eq_refl)). f_equal.
  apply IH. eapply lacks_tail; exact H.
Qed.

Lemma startswith_self (p t : str) : startswith p (p ++ t) = true.
Proof. apply startswith_spec. exists t. reflexivity. Qed.

Lemma skipn_whole (a : str) (n : nat) : skipn (length a + n) a = [].
Proof. apply skipn_all2. lia. Qed.

Lemma m_line_unanchored (prefix pre post : str) (x : str) :
  m_line prefix pre post false x = None.
Proof. reflexivity. Qed.

Lemma m_bol_unanchored (literal repl : str) (x : str) :
  m_bol literal repl false x = None.
Proof. reflexivity. Qed.

Lemma m_rule_unanchored (x : str) : m_rule false x = None.
Proof. reflexivity. Qed.

Lemma m_numbered_unanchored (digit : char -> bool) (x : str) :
  m_numbered digit false x = None.
Proof. unfold m_numbered. destruct (span_of digit x); reflexivity. Qed.

(** [^prefix(.*?)$] on the line [prefix ++ t]. *)
Lemma line_hit (prefix pre post t : str) :
  prefix <> [] -> lacks NL prefix -> lacks NL t ->
  re_sub (m_line prefix pre post) (prefix ++ t) = pre ++ t ++ post.
Proof.
  intros Hne Hp Ht.
  rewrite (anchored_hit _ (prefix ++ t) (length prefix + length t)
             (pre ++ t ++ post)).
  - rewrite <- length_app, skipn_all. rewrite <- !app_assoc, app_nil_r.
    reflexivity.
  - apply m_line_unanchored.
  - apply lacks_app; assumption.
  - destruct prefix; [contradiction | discriminate].
  - unfold m_line. rewrite startswith_self. cbn [andb].
    rewrite skipn_length_app, line_rest_single by exact Ht. reflexivity.
  - destruct prefix; [contradiction | simpl; lia].
Qed.

(** [^literal] on the line [literal ++ t]. *)
Lemma bol_hit (literal repl t : str) :
  literal <> [] -> lacks NL literal -> lacks NL t ->
  re_sub (m_bol literal repl) (literal ++ t) = repl ++ t.
Proof.
  intros Hne Hp Ht.
  rewrite (anchored_hit _ (literal ++ t) (length literal) repl).
  - rewrite skipn_length_app. reflexivity.
  - apply m_bol_unanchored.
  - apply lacks_app; assumption.
  - destruct literal; [contradiction | discriminate].
  - unfold m_bol. rewrite startswith_self. reflexivity.
  - destruct literal; [contradiction | simpl; lia].
Qed.

Lemma head_miss (m : matcher) (k : char) (s : str) :
  starts_with_char m k -> m true [] = None ->
  head_ok (fun c => N.eqb c k) s -> m true s = None.
Proof.
  intros Hm Hn Hs. destruct s as [|c s]; [exact Hn|]. apply Hm. exact Hs.
Qed.

(** *** The substitutions where they leave a line alone *)

Lemma line_pass (k : char) (p pre post s : str) :
  lacks NL s -> head_ok (fun c => N.eqb c k) s ->
  re_sub (m_line (k :: p) pre post) s = s.
Proof.
  intros Hs Hh. apply anchored_miss; auto using m_line_unanchored.
  apply (head_miss _ k); auto using m_line_start.
Qed.

Lemma bol_pass (k : char) (p repl s : str) :
  lacks NL s -> head_ok (fun c => N.eqb c k) s ->
  re_sub (m_bol (k :: p) repl) s = s.
Proof.
  intros Hs Hh. apply anchored_miss; auto using m_bol_unanchored.
  apply (head_miss _ k); auto using m_bol_start.
Qed.

Lemma step_h3_pass (s : str) :
  lacks NL s -> head_ok (fun c => N.eqb c 35%N) s -> step_h3 s = s.
Proof. apply (line_pass 35%N (lit "## ")). Qed.

Lemma step_h2_pass (s : str) :
  lacks NL s -> head_ok (fun c => N.eqb c 35%N) s -> step_h2 s = s.
Proof. apply (line_pass 35%N (lit "# ")). Qed.

Lemma step_h1_pass (s : str) :
  lacks NL s -> head_ok (fun c => N.eqb c 35%N) s -> step_h1 s = s.
Proof. apply (line_pass 35%N (lit " ")). Qed.

Lemma step_quote_pass (s : str) :
  lacks NL s -> head_ok (fun c => N.eqb c 62%N) s -> step_quote s = s.
Proof. apply (line_pass 62%N (lit " ")). Qed.

Lemma step_checked_pass (s : str) :
  lacks NL s -> head_ok (fun c => N.eqb c DASH) s -> step_checked s = s.
Proof. apply (line_pass DASH (lit " [x] ")). Qed.

Lemma step_unchecked_pass (s : str) :
  lacks NL s -> head_ok (fun c => N.eqb c DASH) s -> step_unchecked s = s.
Proof. apply (line_pass DASH (lit " [ ] ")). Qed.

Lemma step_dash_pass (s : str) :
  lacks NL s -> head_ok (fun c => N.eqb c DASH) s -> step_dash s = s.
Proof. apply (bol_pass DASH (lit " ")). Qed.

Lemma step_rule_pass (s : str) :
  lacks NL s -> head_ok (fun c => N.eqb c DASH) s -> step_rule s = s.
Proof.
  intros Hs Hh. apply anchored_miss; auto using m_rule_unanchored.
  apply (head_miss _ DASH); auto using m_rule_start.
Qed.

Lemma step_numbered_pass (digit : char -> bool) (s : str) :
  lacks NL s -> head_ok digit s -> step_numbered digit s = s.
Proof.
  intros Hs Hh. apply anchored_miss; auto using m_numbered_unanchored.
  destruct s as [|c s]; [reflexivity|].
  apply m_numbered_no_digit. exact Hh.
Qed.

(** The bullet pattern puts a bullet where it found one. *)
Lemma step_bullet_same (s : str) : step_bullet s = s.
Proof.
  unfold step_bullet, re_sub.
  rewrite (re_sub_same _ s); [reflexivity|].
  intros bol x n r. unfold m_bol.
  destruct (bol && startswith [BULLET; 32%N] x) eqn:E; [|discriminate].
  intros [= <- <-]. split; [simpl; lia|].
  apply andb_true_iff in E. destruct E as [_ E].
  apply startswith_spec in E. destruct E as [post ->]. reflexivity.
Qed.

Lemma step_bold_pass (s : str) : lacks STAR s -> step_bold s = s.
Proof. apply (re_sub_untouched _ STAR), (m_span_start STAR (lit "*")). Qed.

Lemma step_italic_pass (s : str) : lacks STAR s -> step_italic s = s.
Proof. apply (re_sub_untouched _ STAR), (m_span_start STAR []). Qed.

Lemma step_strike_pass (s : str) : lacks 126%N s -> step_strike s = s.
Proof. apply (re_sub_untouched _ 126%N), (m_span_start 126%N (lit "~")). Qed.

Lemma step_code_pass (s : str) : lacks BACKTICK s -> step_code s = s.
Proof. apply (re_sub_untouched _ BACKTICK), m_inline_code_start. Qed.

Lemma step_block_pass (s : str) : lacks BACKTICK s -> step_block s = s.
Proof. apply (re_sub_untouched _ BACKTICK), m_code_block_start. Qed.

Lemma step_table_pass (s : str) : lacks PIPE s -> step_table s = s.
Proof. apply (re_sub_untouched _ PIPE), m_table_start. Qed.

Lemma step_link_pass (s : str) : lacks 91%N s -> step_link s = s.
Proof. apply (re_sub_untouched _ 91%N), m_link_start. Qed.

Lemma step_blank_pass (s : str) : lacks NL s -> step_blank s = s.
Proof.
  intros H. apply (str_replace_absent NL [NL]). apply lacks_not_in, H.
Qed.

Lemma step_break_pass (s : str) : lacks NL s -> step_break s = s.
Proof.
  intros H. apply (str_replace_absent NL []). apply lacks_not_in, H.
Qed.

(** [clean_content] is its substitutions one after the other. *)
Lemma clean_content_steps (digit : char -> bool) (s : str) :
  clean_content digit s
  = step_break (step_blank (step_link (step_rule (step_unchecked
      (step_checked (step_table (step_block (step_quote
        (step_numbered digit (step_dash (step_bullet (step_code
          (step_strike (step_italic (step_bold (step_h1 (step_h2
            (step_h3 s)))))))))))))))))).
Proof. reflexivity. Qed.

Lemma quiet_parts (digit : char -> bool) (s : str) :
  quiet digit s ->
  (lacks NL s /\ lacks STAR s /\ lacks 126%N s /\ lacks BACKTICK s
   /\ lacks PIPE s /\ lacks 91%N s)
  /\ (head_ok (fun c => N.eqb c 35%N) s /\ head_ok (fun c => N.eqb c DASH) s
      /\ head_ok (fun c => N.eqb c 62%N) s /\ head_ok digit s).
Proof.
  intros [Hi Hh]. split.
  - repeat split; apply Hi; simpl; auto 10.
  - destruct s as [|c s]; [repeat split|]. cbn in *.
    unfold line_marker in Hh.
    repeat (apply orb_false_iff in Hh; destruct Hh as [Hh ?]).
    repeat split; assumption.
Qed.

(** The steps from the bold pattern on leave alone a line in which no
    inline pattern starts and whose first character starts no line
    pattern; so do the heading patterns before them. *)
Lemma tail_steps_quiet (digit : char -> bool) (s : str) :
  quiet digit s ->
  step_break (step_blank (step_link (step_rule (step_unchecked
    (step_checked (step_table (step_block (step_quote
      (step_numbered digit (step_dash (step_bullet (step_code
        (step_strike (step_italic (step_bold s))))))))))))))) = s.
Proof.
  intros Hq. destruct (quiet_parts digit s Hq)
    as [[Hnl [Hst [Hti [Hbt [Hpi Hbr]]]]] [H35 [Hda [H62 Hdi]]]].
  rewrite step_bold_pass, step_italic_pass, step_strike_pass,
    step_code_pass, step_bullet_same, step_dash_pass,
    step_numbered_pass, step_quote_pass, step_block_pass,
    step_table_pass, step_checked_pass, step_unchecked_pass,
    step_rule_pass, step_link_pass, step_blank_pass, step_break_pass;
    auto.
Qed.

Lemma tail_from_italic (digit : char -> bool) (s : str) :
  quiet digit s ->
  step_break (step_blank (step_link (step_rule (step_unchecked
    (step_checked (step_table (step_block (step_quote (step_numbered digit
    (step_dash (step_bullet (step_code (step_strike (step_italic
    s))))))))))))))
  = s.
Proof.
  intros Hq. destruct (quiet_parts digit s Hq)
    as [[Hnl [Hst [Hti [Hbt [Hpi Hbr]]]]] [H35 [Hda [H62 Hdi]]]].
  rewrite step_italic_pass, step_strike_pass, step_code_pass,
    step_bullet_same, step_dash_pass, step_numbered_pass,
    step_quote_pass, step_block_pass, step_table_pass,
    step_checked_pass, step_unchecked_pass, step_rule_pass,
    step_link_pass, step_blank_pass, step_break_pass;
    auto.
Qed.

Lemma tail_from_strike (digit : char -> bool) (s : str) :
  quiet digit s ->
  step_break (step_blank (step_link (step_rule (step_unchecked
    (step_checked (step_table (step_block (step_quote (step_numbered digit
    (step_dash (step_bullet (step_code (step_strike s)))))))))))))
  = s.
Proof.
  intros Hq. destruct (quiet_parts digit s Hq)
    as [[Hnl [Hst [Hti [Hbt [Hpi Hbr]]]]] [H35 [Hda [H62 Hdi]]]].
  rewrite step_strike_pass, step_code_pass, step_bullet_same, step_dash_pass,
    step_numbered_pass, step_quote_pass, step_block_pass,
    step_table_pass, step_checked_pass, step_unchecked_pass,
    step_rule_pass, step_link_pass, step_blank_pass, step_break_pass;
    auto.
Qed.

Lemma tail_from_code (digit : char -> bool) (s : str) :
  quiet digit s ->
  step_break (step_blank (step_link (step_rule (step_unchecked
    (step_checked (step_table (step_block (step_quote (step_numbered digit
    (step_dash (step_bullet (step_code s))))))))))))
  = s.
Proof.
  intros Hq. destruct (quiet_parts digit s Hq)
    as [[Hnl [Hst [Hti [Hbt [Hpi Hbr]]]]] [H35 [Hda [H62 Hdi]]]].
  rewrite step_code_pass, step_bullet_same, step_dash_pass,
    step_numbered_pass, step_quote_pass, step_block_pass,
    step_table_pass, step_checked_pass, step_unchecked_pass,
    step_rule_pass, step_link_pass, step_blank_pass, step_break_pass;
    auto.
Qed.

Lemma tail_from_bullet (digit : char -> bool) (s : str) :
  quiet digit s ->
  step_break (step_blank (step_link (step_rule (step_unchecked
    (step_checked (step_table (step_block (step_quote (step_numbered digit
    (step_dash (step_bullet s)))))))))))
  = s.
Proof.
  intros Hq. destruct (quiet_parts digit s Hq)
    as [[Hnl [Hst [Hti [Hbt [Hpi Hbr]]]]] [H35 [Hda [H62 Hdi]]]].
  rewrite step_bullet_same, step_dash_pass, step_numbered_pass,
    step_quote_pass, step_block_pass, step_table_pass,
    step_checked_pass, step_unchecked_pass, step_rule_pass,
    step_link_pass, step_blank_pass, step_break_pass;
    auto.
Qed.

Lemma tail_from_numbered (digit : char -> bool) (s : str) :
  quiet digit s ->
  step_break (step_blank (step_link (step_rule (step_unchecked
    (step_checked (step_table (step_block (step_quote (step_numbered digit
    s)))))))))
  = s.
Proof.
  intros Hq. destruct (quiet_parts digit s Hq)
    as [[Hnl [Hst [Hti [Hbt [Hpi Hbr]]]]] [H35 [Hda [H62 Hdi]]]].
  rewrite step_numbered_pass, step_quote_pass, step_block_pass,
    step_table_pass, step_checked_pass, step_unchecked_pass,
    step_rule_pass, step_link_pass, step_blank_pass, step_break_pass;
    auto.
Qed.

Lemma tail_from_quote (digit : char -> bool) (s : str) :
  quiet digit s ->
  step_break (step_blank (step_link (step_rule (step_unchecked
    (step_checked (step_table (step_block (step_quote s))))))))
  = s.
Proof.
  intros Hq. destruct (quiet_parts digit s Hq)
    as [[Hnl [Hst [Hti [Hbt [Hpi Hbr]]]]] [H35 [Hda [H62 Hdi]]]].
  rewrite step_quote_pass, step_block_pass, step_table_pass,
    step_checked_pass, step_unchecked_pass, step_rule_pass,
    step_link_pass, step_blank_pass, step_break_pass;
    auto.
Qed.


Lemma tail_from_link (digit : char -> bool) (s : str) :
  quiet digit s ->
  step_break (step_blank (step_link s))
  = s.
Proof.
  intros Hq. destruct (quiet_parts digit s Hq)
    as [[Hnl [Hst [Hti [Hbt [Hpi Hbr]]]]] [H35 [Hda [H62 Hdi]]]].
  rewrite step_link_pass, step_blank_pass, step_break_pass;
    auto.
Qed.

Lemma tail_from_blank (digit : char -> bool) (s : str) :
  quiet digit s ->
  step_break (step_blank s)
  = s.
Proof.
  intros Hq. destruct (quiet_parts digit s Hq)
    as [[Hnl [Hst [Hti [Hbt [Hpi Hbr]]]]] [H35 [Hda [H62 Hdi]]]].
  rewrite step_blank_pass, step_break_pass;
    auto.
Qed.

Lemma clean_content_quiet (digit : char -> bool) (s : str) :
  quiet digit s -> clean_content digit s = s.
Proof.
  intros Hq. destruct (quiet_parts digit s Hq) as [[Hnl _] [H35 _]].
  rewrite clean_content_steps, step_h3_pass, step_h2_pass, step_h1_pass
    by assumption.
  apply tail_steps_quiet. exact Hq.
Qed.

Lemma digit_class_ascii (digit : char -> bool) (c : char) :
  digit_class digit -> (c <? 128)%N = true -> ascii_digit c = false ->
  digit c = false.
Proof. intros [H _] Hc Hd. rewrite (H c Hc). exact Hd. Qed.

(** A text is quiet: no inline marker in it, and its first character,
    whose being no digit is the fact [D], starts no line pattern. *)
Ltac quiet_by D :=
  unfold heading, attr;
  split;
  [ let k := fresh "k" in
    let Hk := fresh "Hk" in
    intros k Hk; cbn in Hk;
    repeat (destruct Hk as [<- | Hk]; [lacks_solve|]); destruct Hk
  | first [ exact D | exact I ] ].

(** *** What the line patterns do to a line *)

Lemma step_h1_hit (t : str) :
  lacks NL t -> step_h1 (lit "# " ++ t) = heading "16" t.
Proof.
  intros H. unfold step_h1.
  rewrite (line_hit (lit "# ") _ _ t) by (discriminate || lacks_solve).
  reflexivity.
Qed.

Lemma step_h2_hit (t : str) :
  lacks NL t -> step_h2 (lit "## " ++ t) = heading "14" t.
Proof.
  intros H. unfold step_h2.
  rewrite (line_hit (lit "## ") _ _ t) by (discriminate || lacks_solve).
  reflexivity.
Qed.

Lemma step_h3_hit (t : str) :
  lacks NL t -> step_h3 (lit "### " ++ t) = heading "12" t.
Proof.
  intros H. unfold step_h3.
  rewrite (line_hit (lit "### ") _ _ t) by (discriminate || lacks_solve).
  reflexivity.
Qed.

(** A line pattern on a line it does not match, by running the
    matcher on the head of the line. *)
Lemma line_miss (prefix pre post s : str) :
  lacks NL s -> m_line prefix pre post true s = None ->
  re_sub (m_line prefix pre post) s = s.
Proof. intros Hs H. apply anchored_miss; auto using m_line_unanchored. Qed.

Lemma bol_miss (literal repl s : str) :
  lacks NL s -> m_bol literal repl true s = None ->
  re_sub (m_bol literal repl) s = s.
Proof. intros Hs H. apply anchored_miss; auto using m_bol_unanchored. Qed.

(** X18.  A line made of one, two or three hashes, a space and a text in
    which no inline pattern starts comes out as that text in bold at
    font size 16, 14 or 12. *)
Theorem heading_lines (digit : char -> bool) (t : str) :
  digit_class digit -> inline_free t ->
  clean_content digit (lit "# " ++ t) = heading "16" t
  /\ clean_content digit (lit "## " ++ t) = heading "14" t
  /\ clean_content digit (lit "### " ++ t) = heading "12" t.
Proof.
  intros Hd Ht.
  assert (D60 : digit 60%N = false)
    by (apply digit_class_ascii; auto).
  assert (Hnl : lacks NL t) by lacks_solve.
  assert (H16 : quiet digit (heading "16" t)) by quiet_by D60.
  assert (H14 : quiet digit (heading "14" t)) by quiet_by D60.
  assert (H12 : quiet digit (heading "12" t)) by quiet_by D60.
  rewrite !clean_content_steps. split; [|split].
  - assert (E3 : step_h3 (lit "# " ++ t) = lit "# " ++ t)
      by (apply line_miss; [lacks_solve | reflexivity]).
    assert (E2 : step_h2 (lit "# " ++ t) = lit "# " ++ t)
      by (apply line_miss; [lacks_solve | reflexivity]).
    rewrite E3, E2, (step_h1_hit t Hnl).
    apply (tail_steps_quiet digit _ H16).
  - assert (E3 : step_h3 (lit "## " ++ t) = lit "## " ++ t)
      by (apply line_miss; [lacks_solve | reflexivity]).
    rewrite E3, (step_h2_hit t Hnl).
    destruct (quiet_parts digit _ H14) as [[Hn _] [H35 _]].
    rewrite (step_h1_pass (heading "14" t)) by assumption.
    apply (tail_steps_quiet digit _ H14).
  - rewrite (step_h3_hit t Hnl).
    destruct (quiet_parts digit _ H12) as [[Hn _] [H35 _]].
    rewrite (step_h2_pass (heading "12" t)) by assumption.
    rewrite (step_h1_pass (heading "12" t)) by assumption.
    apply (tail_steps_quiet digit _ H12).
Qed.

Lemma heading_lines_witness :
  digit_class ascii_digit
  /\ inline_free (lit "Plan for 2024")
  /\ clean_content ascii_digit (lit "## Plan for 2024")
     = heading "14" (lit "Plan for 2024").
Proof.
  assert (Hd : digit_class ascii_digit).
  { split; [intros c _; reflexivity | reflexivity]. }
  assert (Ht : inline_free (lit "Plan for 2024")).
  { intros k Hk. apply lacks_closed. cbn in Hk.
    repeat (destruct Hk as [<- | Hk]; [reflexivity|]). destruct Hk. }
  split; [exact Hd|]. split; [exact Ht|].
  exact (proj1 (proj2 (heading_lines ascii_digit (lit "Plan for 2024")
                         Hd Ht))).
Defined.

(** *** Lists, quotes and rules *)

Lemma head_ok_app (p : char -> bool) (a x : str) :
  head_ok p a -> head_ok p x -> head_ok p (a ++ x).
Proof. destruct a; simpl; auto. Qed.

Lemma head_parts (digit : char -> bool) (s : str) :
  head_ok (line_marker digit) s ->
  head_ok (fun c => N.eqb c 35%N) s /\ head_ok (fun c => N.eqb c DASH) s
  /\ head_ok (fun c => N.eqb c 62%N) s /\ head_ok digit s.
Proof.
  destruct s as [|c s]; [repeat split|]. cbn. unfold line_marker.
  intros Hh. repeat (apply orb_false_iff in Hh; destruct Hh as [Hh ?]).
  repeat split; assumption.
Qed.

Lemma ascii_digit_range (c : char) :
  ascii_digit c = true -> (48 <= c <= 57)%N.
Proof.
  unfold ascii_digit. rewrite andb_true_iff, !N.leb_le. tauto.
Qed.

Lemma ascii_digit_other (k c : char) :
  ascii_digit k = false -> ascii_digit c = true -> N.eqb c k = false.
Proof.
  intros Hk Hc. apply N.eqb_neq. intros ->. congruence.
Qed.

Lemma digits_lack (k : char) (ds : str) :
  ascii_digit k = false ->
  (forall c, In c ds -> ascii_digit c = true) -> lacks k ds.
Proof. intros Hk Hd c Hc. apply (ascii_digit_other k c Hk). auto. Qed.

Lemma lacks_repeat (k c : char) (n : nat) :
  N.eqb c k = false -> lacks k (repeat c n).
Proof. intros H d Hd. apply repeat_spec in Hd. subst d. exact H. Qed.

Lemma lazy_dots_lacks (k : char) (close t : str) :
  lacks k t -> lazy_dots (k :: close) t = None.
Proof.
  induction t as [|c t IH]; intros H; cbn [lazy_dots startswith].
  - reflexivity.
  - rewrite N.eqb_sym, (H c (or_introl eq_refl)). cbn [andb].
    rewrite IH by (eapply lacks_tail; exact H).
    destruct (N.eqb c NL); reflexivity.
Qed.

Lemma re_sub_from_pass (m : matcher) (bol : bool) (c : char) (rest : str) :
  m bol (c :: rest) = None ->
  re_sub_from m 0 bol (c :: rest)
  = c :: re_sub_from m 0 (N.eqb c NL) rest.
Proof. intros H. cbn [re_sub_from]. rewrite H. reflexivity. Qed.

Ltac side :=
  first [ solve [lacks_solve] | exact eq_refl | assumption | exact I
        | discriminate ].

Lemma m_numbered_hit (digit : char -> bool) (ds t : str) :
  ds <> [] -> (forall c, In c ds -> digit c = true) ->
  digit 46%N = false ->
  m_numbered digit true (ds ++ lit ". " ++ t)
  = Some (length ds + 2, [BULLET; 32%N]).
Proof.
  intros Hne Hds H46. unfold m_numbered.
  set (s := ds ++ lit ". " ++ t).
  assert (E : span_of digit s = ds)
    by (apply (span_of_stop digit ds 46%N (32%N :: t)); assumption).
  rewrite E. unfold s. rewrite skipn_length_app.
  destruct ds; [contradiction | reflexivity].
Qed.

(** X19.  A line that starts with a dash and a space, with a bullet and
    a space, or with ASCII digits, a dot and a space comes out with a
    bullet and a space in front of its text: numbered items lose their
    numbers. *)
Theorem list_lines (digit : char -> bool) (ds t : str) :
  digit_class digit -> inline_free t ->
  clean_content digit (lit "- " ++ t) = [BULLET; 32%N] ++ t
  /\ clean_content digit ([BULLET; 32%N] ++ t) = [BULLET; 32%N] ++ t
  /\ (ds <> [] -> (forall c, In c ds -> ascii_digit c = true) ->
      clean_content digit (ds ++ lit ". " ++ t) = [BULLET; 32%N] ++ t).
Proof.
  intros Hd Ht.
  assert (DB : digit BULLET = false) by (apply Hd).
  assert (D46 : digit 46%N = false) by (apply digit_class_ascii; auto).
  assert (Hq : quiet digit ([BULLET; 32%N] ++ t)) by quiet_by DB.
  split; [|split].
  - rewrite clean_content_steps.
    rewrite step_h3_pass, step_h2_pass, step_h1_pass, step_bold_pass,
      step_italic_pass, step_strike_pass, step_code_pass, step_bullet_same
      by side.
    unfold step_dash. rewrite (bol_hit (lit "- ") _ t) by side.
    apply (tail_from_numbered digit _ Hq).
  - apply clean_content_quiet. exact Hq.
  - intros Hne Hds.
    destruct ds as [|d ds']; [contradiction|].
    assert (Hdd : ascii_digit d = true) by (apply Hds; left; reflexivity).
    assert (L : forall k, ascii_digit k = false -> lacks k (d :: ds'))
      by (intros k Hk; apply digits_lack; assumption).
    assert (Lnl : lacks NL (d :: ds')) by (apply L; reflexivity).
    assert (Lst : lacks STAR (d :: ds')) by (apply L; reflexivity).
    assert (Lti : lacks 126%N (d :: ds')) by (apply L; reflexivity).
    assert (Lbt : lacks BACKTICK (d :: ds')) by (apply L; reflexivity).
    assert (H35 : N.eqb d 35 = false)
      by (apply (ascii_digit_other 35%N d); auto).
    assert (H45 : N.eqb d DASH = false)
      by (apply (ascii_digit_other DASH d); auto).
    rewrite clean_content_steps.
    rewrite step_h3_pass, step_h2_pass, step_h1_pass, step_bold_pass,
      step_italic_pass, step_strike_pass, step_code_pass, step_bullet_same,
      step_dash_pass by side.
    unfold step_numbered.
    rewrite (anchored_hit _ ((d :: ds') ++ lit ". " ++ t)
               (length (d :: ds') + 2) [BULLET; 32%N]
               (m_numbered_unanchored digit)).
    + rewrite (app_assoc (d :: ds') (lit ". ") t).
      replace (length (d :: ds') + 2)
        with (length ((d :: ds') ++ lit ". "))
        by (rewrite length_app; reflexivity).
      rewrite skipn_length_app.
      apply (tail_from_quote digit _ Hq).
    + side.
    + discriminate.
    + apply m_numbered_hit; [discriminate | | exact D46].
      intros c Hc. destruct Hd as [Ha _].
      pose proof (ascii_digit_range c (Hds c Hc)) as R.
      rewrite Ha; [apply Hds; exact Hc|]. apply N.ltb_lt. lia.
    + simpl. lia.
Qed.

Lemma list_lines_witness :
  digit_class ascii_digit
  /\ inline_free (lit "milk")
  /\ lit "12" <> []
  /\ (forall c, In c (lit "12") -> ascii_digit c = true)
  /\ clean_content ascii_digit (lit "- milk") = [BULLET; 32%N] ++ lit "milk"
  /\ clean_content ascii_digit (lit "12. milk")
     = [BULLET; 32%N] ++ lit "milk".
Proof.
  assert (Hd : digit_class ascii_digit).
  { split; [intros c _; reflexivity | reflexivity]. }
  assert (Ht : inline_free (lit "milk")).
  { intros k Hk. apply lacks_closed. cbn in Hk.
    repeat (destruct Hk as [<- | Hk]; [reflexivity|]). destruct Hk. }
  assert (Hds : forall c, In c (lit "12") -> ascii_digit c = true).
  { intros c Hc. cbn in Hc.
    repeat (destruct Hc as [<- | Hc]; [reflexivity|]). destruct Hc. }
  destruct (list_lines ascii_digit (lit "12") (lit "milk") Hd Ht)
    as [H1 [_ H3]].
  split; [exact Hd|]. split; [exact Ht|]. split; [discriminate|].
  split; [exact Hds|]. split; [exact H1|].
  apply H3; [discriminate | exact Hds].
Defined.

Lemma lazy_dots_step (close : str) (c : char) (s : str) :
  startswith close (c :: s) = false -> N.eqb c NL = false ->
  lazy_dots close (c :: s) = option_map (cons c) (lazy_dots close s).
Proof. intros H1 H2. cbn [lazy_dots]. rewrite H1, H2. reflexivity. Qed.







(** X22.  A line of three or more dashes and nothing else comes out as
    fifty underscores, however long it was. *)
Theorem rule_line (digit : char -> bool) (n : nat) :
  digit_class digit ->
  clean_content digit (repeat DASH (3 + n)) = repeat 95%N 50.
Proof.
  intros Hd.
  assert (D45 : digit DASH = false) by (apply digit_class_ascii; auto).
  assert (D95 : digit 95%N = false) by (apply digit_class_ascii; auto).
  assert (L : forall k, N.eqb DASH k = false -> lacks k (repeat DASH (3 + n)))
    by (intros k Hk; apply lacks_repeat; exact Hk).
  assert (Lnl : lacks NL (repeat DASH (3 + n))) by (apply L; reflexivity).
  assert (Lst : lacks STAR (repeat DASH (3 + n))) by (apply L; reflexivity).
  assert (Lti : lacks 126%N (repeat DASH (3 + n))) by (apply L; reflexivity).
  assert (Lbt : lacks BACKTICK (repeat DASH (3 + n)))
    by (apply L; reflexivity).
  assert (Lpi : lacks PIPE (repeat DASH (3 + n))) by (apply L; reflexivity).
  assert (Hq : quiet digit (repeat 95%N 50)).
  { split; [|exact D95]. intros k Hk. apply lacks_closed. cbn in Hk.
    repeat (destruct Hk as [<- | Hk]; [reflexivity|]). destruct Hk. }
  rewrite clean_content_steps.
  rewrite step_h3_pass, step_h2_pass, step_h1_pass, step_bold_pass,
    step_italic_pass, step_strike_pass, step_code_pass, step_bullet_same
    by side.
  unfold step_dash. rewrite bol_miss by side.
  rewrite step_numbered_pass, step_quote_pass, step_block_pass,
    step_table_pass by side.
  unfold step_checked. rewrite line_miss by side.
  unfold step_unchecked. rewrite line_miss by side.
  unfold step_rule.
  rewrite (anchored_hit _ (repeat DASH (3 + n)) (3 + n) (repeat 95%N 50)
             m_rule_unanchored).
  - rewrite skipn_all2 by (rewrite repeat_length; lia).
    rewrite app_nil_r. apply (tail_from_link digit _ Hq).
  - exact Lnl.
  - discriminate.
  - unfold m_rule. rewrite line_rest_single by exact Lnl.
    rewrite repeat_length.
    assert (F : forallb (N.eqb DASH) (repeat DASH (3 + n)) = true).
    { apply forallb_forall. intros c Hc. apply repeat_spec in Hc.
      subst c. reflexivity. }
    rewrite F. reflexivity.
  - lia.
Qed.

Lemma rule_line_witness :
  digit_class ascii_digit
  /\ clean_content ascii_digit (lit "-----") = repeat 95%N 50.
Proof.
  assert (Hd : digit_class ascii_digit).
  { split; [intros c _; reflexivity | reflexivity]. }
  split; [exact Hd|]. exact (rule_line ascii_digit 2 Hd).
Defined.

(** A line around two tags is quiet when its parts are. *)
Lemma quiet_spans (digit : char -> bool) (a b c tag1 tag2 : str) :
  inline_free a -> inline_free b -> inline_free c ->
  inline_free tag1 -> inline_free tag2 ->
  head_ok (line_marker digit) a ->
  tag1 <> [] -> head_ok (line_marker digit) tag1 ->
  quiet digit (a ++ tag1 ++ b ++ tag2 ++ c).
Proof.
  intros Ia Ib Ic I1 I2 Ha Hne Hh. split.
  - intros k Hk. repeat apply lacks_app;
      [apply Ia | apply I1 | apply Ib | apply I2 | apply Ic]; exact Hk.
  - apply head_ok_app; [exact Ha|].
    destruct tag1; [contradiction | exact Hh].
Qed.

Lemma literal_inline_free (tag : str) :
  forallb (fun c => forallb (fun k => negb (N.eqb c k)) inline_markers) tag
  = true ->
  inline_free tag.
Proof.
  intros Hf k Hk d Hd. rewrite forallb_forall in Hf.
  specialize (Hf d Hd). rewrite forallb_forall in Hf.
  apply negb_true_iff. apply Hf. exact Hk.
Qed.

(** *** Inline patterns inside a line *)

Lemma prefix_untouched (m : matcher) (k : char) (a : str) :
  starts_with_char m k -> lacks k a ->
  forall bol rest, exists bol',
    re_sub_from m 0 bol (a ++ rest) = a ++ re_sub_from m 0 bol' rest.
Proof.
  intros Hm. induction a as [|c a IH]; intros Ha bol rest.
  - exists bol. reflexivity.
  - cbn [app]. rewrite re_sub_from_pass
      by (apply Hm; apply Ha; left; reflexivity).
    destruct (IH (lacks_tail _ _ _ Ha) (N.eqb c NL) rest) as [bol' ->].
    exists bol'. reflexivity.
Qed.

Lemma lazy_dots_hit (k : char) (close b c : str) :
  lacks NL b -> lacks k b ->
  lazy_dots (k :: close) (b ++ (k :: close) ++ c) = Some b.
Proof.
  induction b as [|d b IH]; intros Hn Hk.
  - cbn [app lazy_dots].
    replace (startswith (k :: close) (k :: close ++ c)) with true
      by (symmetry; apply (startswith_self (k :: close) c)).
    reflexivity.
  - change ((d :: b) ++ (k :: close) ++ c)
      with (d :: (b ++ (k :: close) ++ c)).
    rewrite lazy_dots_step.
    + rewrite IH by (eapply lacks_tail; eassumption). reflexivity.
    + apply startswith_first. apply Hk. left. reflexivity.
    + apply Hn. left. reflexivity.
Qed.

(** [open(.*?)close] with one occurrence in the line. *)
Lemma span_hit (k : char) (o close pre post a b c : str) (k2 : char)
  (c2 : str) :
  close = k2 :: c2 ->
  lacks k a -> lacks NL b -> lacks k2 b -> lacks k c ->
  re_sub (m_span (k :: o) close pre post)
    (a ++ (k :: o) ++ b ++ close ++ c)
  = a ++ pre ++ b ++ post ++ c.
Proof.
  intros -> Ha Hn Hb Hc. unfold re_sub.
  destruct (prefix_untouched _ k a (m_span_start k o (k2 :: c2) pre post)
              Ha true ((k :: o) ++ b ++ (k2 :: c2) ++ c)) as [bol' ->].
  f_equal. cbn [app re_sub_from].
  assert (Hm : m_span (k :: o) (k2 :: c2) pre post bol'
                 (k :: o ++ b ++ (k2 :: c2) ++ c)
               = Some (length (k :: o) + length b + length (k2 :: c2),
                       pre ++ b ++ post)).
  { unfold m_span.
    replace (startswith (k :: o) (k :: o ++ b ++ (k2 :: c2) ++ c))
      with true
      by (symmetry; apply (startswith_self (k :: o) (b ++ (k2 :: c2) ++ c))).
    replace (skipn (length (k :: o)) (k :: o ++ b ++ (k2 :: c2) ++ c))
      with (b ++ (k2 :: c2) ++ c)
      by (symmetry; apply (skipn_length_app (k :: o))).
    rewrite lazy_dots_hit by assumption. reflexivity. }
  cbn [app] in Hm. rewrite Hm. rewrite <- !app_assoc. do 3 f_equal.
  replace (Nat.pred (length (k :: o) + length b + length (k2 :: c2)))
    with (length (o ++ b ++ k2 :: c2) + 0)
    by (rewrite !length_app; simpl; lia).
  replace (o ++ b ++ k2 :: c2 ++ c) with ((o ++ b ++ k2 :: c2) ++ c)
    by (rewrite <- !app_assoc; reflexivity).
  destruct (re_sub_from_skip (m_span (k :: o) (k2 :: c2) pre post)
              (o ++ b ++ k2 :: c2) 0 (N.eqb k NL) c) as [bol3 ->].
  apply re_sub_from_untouched. intros d rest Hd bol4.
  apply m_span_start. apply Hc. exact Hd.
Qed.

Lemma step_bold_hit (a b c : str) :
  lacks STAR a -> lacks NL b -> lacks STAR b -> lacks STAR c ->
  step_bold (a ++ lit "**" ++ b ++ lit "**" ++ c)
  = a ++ lit "<b>" ++ b ++ lit "</b>" ++ c.
Proof.
  intros. apply (span_hit STAR [STAR] (lit "**") _ _ a b c STAR [STAR]);
    auto.
Qed.

Lemma step_italic_hit (a b c : str) :
  lacks STAR a -> lacks NL b -> lacks STAR b -> lacks STAR c ->
  step_italic (a ++ lit "*" ++ b ++ lit "*" ++ c)
  = a ++ lit "<i>" ++ b ++ lit "</i>" ++ c.
Proof.
  intros. apply (span_hit STAR [] (lit "*") _ _ a b c STAR []); auto.
Qed.

Lemma step_strike_hit (a b c : str) :
  lacks 126%N a -> lacks NL b -> lacks 126%N b -> lacks 126%N c ->
  step_strike (a ++ lit "~~" ++ b ++ lit "~~" ++ c)
  = a ++ lit "<strike>" ++ b ++ lit "</strike>" ++ c.
Proof.
  intros.
  apply (span_hit 126%N [126%N] (lit "~~") _ _ a b c 126%N [126%N]); auto.
Qed.

(** Two single stars are no bold span. *)
Lemma step_bold_single_stars (a b c : str) :
  lacks STAR a -> lacks STAR b -> lacks STAR c ->
  step_bold (a ++ lit "*" ++ b ++ lit "*" ++ c)
  = a ++ lit "*" ++ b ++ lit "*" ++ c.
Proof.
  intros Ha Hb Hc. unfold step_bold, re_sub.
  set (m := m_span (lit "**") (lit "**") (lit "<b>") (lit "</b>")).
  assert (Hm : starts_with_char m STAR)
    by (apply (m_span_start STAR [STAR])).
  assert (E2 : forall bol, m bol (STAR :: c) = None).
  { intros bol. unfold m, m_span. destruct c as [|d c']; [reflexivity|].
    replace (startswith (lit "**") (STAR :: d :: c')) with false;
      [reflexivity|].
    symmetry. cbn [startswith lit]. apply andb_false_iff. right.
    apply andb_false_iff. left.
    rewrite N.eqb_sym. apply Hc. left. reflexivity. }
  assert (E1 : forall bol, m bol (STAR :: b ++ STAR :: c) = None).
  { intros bol. unfold m, m_span. destruct b as [|d b'].
    - replace (lazy_dots (lit "**") (skipn _ _)) with (@None str)
        by (symmetry; apply (lazy_dots_lacks STAR [STAR] c Hc)).
      destruct (startswith _ _); reflexivity.
    - replace (startswith (lit "**") (STAR :: (d :: b') ++ STAR :: c))
        with false; [reflexivity|].
      symmetry. cbn [startswith lit app]. apply andb_false_iff. right.
      apply andb_false_iff. left.
      rewrite N.eqb_sym. apply Hb. left. reflexivity. }
  destruct (prefix_untouched m STAR a Hm Ha true
              (lit "*" ++ b ++ lit "*" ++ c)) as [b1 ->].
  f_equal.
  change (lit "*" ++ b ++ lit "*" ++ c) with (STAR :: b ++ STAR :: c).
  rewrite re_sub_from_pass by apply E1. f_equal.
  destruct (prefix_untouched m STAR b Hm Hb (N.eqb STAR NL) (STAR :: c))
    as [b2 ->].
  f_equal. rewrite re_sub_from_pass by apply E2. f_equal.
  apply re_sub_from_untouched. intros d rest Hd bol.
  apply Hm. apply Hc. exact Hd.
Qed.

Ltac side ::=
  first [ solve [lacks_solve] | exact eq_refl | assumption | exact I
        | discriminate
        | (apply head_ok_app; [assumption | first [exact eq_refl | assumption]]) ].

(** X23.  In a line that starts no line pattern, a text between double
    stars comes out between bold tags, a text between single stars
    between italic tags and a text between double tildes between
    strike tags, the text before and after unchanged, when no other
    inline pattern starts in the line. *)
Theorem emphasis_spans (digit : char -> bool) (a b c : str) :
  digit_class digit ->
  inline_free a -> inline_free b -> inline_free c ->
  head_ok (line_marker digit) a ->
  clean_content digit (a ++ lit "**" ++ b ++ lit "**" ++ c)
  = a ++ lit "<b>" ++ b ++ lit "</b>" ++ c
  /\ clean_content digit (a ++ lit "*" ++ b ++ lit "*" ++ c)
     = a ++ lit "<i>" ++ b ++ lit "</i>" ++ c
  /\ clean_content digit (a ++ lit "~~" ++ b ++ lit "~~" ++ c)
     = a ++ lit "<strike>" ++ b ++ lit "</strike>" ++ c.
Proof.
  intros Hd Ia Ib Ic Ha.
  assert (D60 : digit 60%N = false) by (apply digit_class_ascii; auto).
  destruct (head_parts digit a Ha) as [H35 [H45 [H62 Hdi]]].
  split; [|split].
  - rewrite clean_content_steps.
    rewrite step_h3_pass, step_h2_pass, step_h1_pass by side.
    rewrite step_bold_hit by side.
    apply (tail_from_italic digit).
    apply (quiet_spans digit a b c (lit "<b>") (lit "</b>")); auto;
      try (apply literal_inline_free; reflexivity); try discriminate.
  - rewrite clean_content_steps.
    rewrite step_h3_pass, step_h2_pass, step_h1_pass by side.
    rewrite step_bold_single_stars by side.
    rewrite step_italic_hit by side.
    apply (tail_from_strike digit).
    apply (quiet_spans digit a b c (lit "<i>") (lit "</i>")); auto;
      try (apply literal_inline_free; reflexivity); try discriminate.
  - rewrite clean_content_steps.
    rewrite step_h3_pass, step_h2_pass, step_h1_pass, step_bold_pass,
      step_italic_pass by side.
    rewrite step_strike_hit by side.
    apply (tail_from_code digit).
    apply (quiet_spans digit a b c (lit "<strike>") (lit "</strike>")); auto;
      try (apply literal_inline_free; reflexivity); try discriminate.
Qed.

Lemma emphasis_spans_witness :
  digit_class ascii_digit
  /\ inline_free (lit "very ") /\ inline_free (lit "good")
  /\ inline_free (lit " news")
  /\ head_ok (line_marker ascii_digit) (lit "very ")
  /\ clean_content ascii_digit (lit "very **good** news")
     = lit "very <b>good</b> news"
  /\ clean_content ascii_digit (lit "very *good* news")
     = lit "very <i>good</i> news".
Proof.
  assert (Hd : digit_class ascii_digit).
  { split; [intros c _; reflexivity | reflexivity]. }
  assert (Ia : inline_free (lit "very "))
    by (apply literal_inline_free; reflexivity).
  assert (Ib : inline_free (lit "good"))
    by (apply literal_inline_free; reflexivity).
  assert (Ic : inline_free (lit " news"))
    by (apply literal_inline_free; reflexivity).
  assert (Ha : head_ok (line_marker ascii_digit) (lit "very "))
    by reflexivity.
  destruct (emphasis_spans ascii_digit (lit "very ") (lit "good")
              (lit " news") Hd Ia Ib Ic Ha) as [H1 [H2 _]].
  split; [exact Hd|]. split; [exact Ia|]. split; [exact Ib|].
  split; [exact Ic|]. split; [exact Ha|]. split; [exact H1 | exact H2].
Defined.

Lemma step_code_hit (a b c : str) :
  lacks BACKTICK a -> b <> [] -> lacks BACKTICK b -> lacks BACKTICK c ->
  step_code (a ++ [BACKTICK] ++ b ++ [BACKTICK] ++ c)
  = a ++ (lit "<font " ++ attr "face" "Courier" ++ lit ">") ++ b
      ++ lit "</font>" ++ c.
Proof.
  intros Ha Hne Hb Hc. unfold step_code, re_sub.
  set (pre := lit "<font " ++ attr "face" "Courier" ++ lit ">").
  set (m := m_inline_code pre (lit "</font>")).
  assert (Hm : starts_with_char m BACKTICK)
    by (apply m_inline_code_start).
  destruct (prefix_untouched m BACKTICK a Hm Ha true
              ([BACKTICK] ++ b ++ [BACKTICK] ++ c)) as [b1 ->].
  f_equal.
  change ([BACKTICK] ++ b ++ [BACKTICK] ++ c)
    with (BACKTICK :: b ++ BACKTICK :: c).
  cbn [re_sub_from]. unfold m at 1.
  rewrite (m_inline_code_hit pre (lit "</font>") b1 b c Hne Hb).
  rewrite <- !app_assoc. do 3 f_equal.
  replace (Nat.pred (length b + 2)) with (length (b ++ [BACKTICK]) + 0)
    by (rewrite length_app; simpl; lia).
  replace (b ++ BACKTICK :: c) with ((b ++ [BACKTICK]) ++ c)
    by (rewrite <- app_assoc; reflexivity).
  destruct (re_sub_from_skip m (b ++ [BACKTICK]) 0 (N.eqb BACKTICK NL) c)
    as [b3 ->].
  apply re_sub_from_untouched. intros d rest Hd bol.
  apply Hm. apply Hc. exact Hd.
Qed.

(** X24.  In a line that starts no line pattern, a non-empty text
    between two backticks comes out in the Courier font, the text
    before and after unchanged, when no other inline pattern starts in
    the line. *)
Theorem inline_code_span (digit : char -> bool) (a b c : str) :
  digit_class digit ->
  inline_free a -> inline_free b -> inline_free c ->
  head_ok (line_marker digit) a -> b <> [] ->
  clean_content digit (a ++ [BACKTICK] ++ b ++ [BACKTICK] ++ c)
  = a ++ (lit "<font " ++ attr "face" "Courier" ++ lit ">") ++ b
      ++ lit "</font>" ++ c.
Proof.
  intros Hd Ia Ib Ic Ha Hne.
  assert (D60 : digit 60%N = false) by (apply digit_class_ascii; auto).
  assert (D96 : digit BACKTICK = false) by (apply digit_class_ascii; auto).
  destruct (head_parts digit a Ha) as [H35 [H45 [H62 Hdi]]].
  rewrite clean_content_steps.
  rewrite step_h3_pass, step_h2_pass, step_h1_pass, step_bold_pass,
    step_italic_pass, step_strike_pass by side.
  rewrite step_code_hit by side.
  apply (tail_from_bullet digit).
  apply (quiet_spans digit a b c); auto;
    try (apply literal_inline_free; reflexivity); try discriminate.
Qed.

Lemma inline_code_span_witness :
  digit_class ascii_digit
  /\ inline_free (lit "run ") /\ inline_free (lit "make")
  /\ inline_free (lit " now")
  /\ head_ok (line_marker ascii_digit) (lit "run ")
  /\ lit "make" <> []
  /\ clean_content ascii_digit
       (lit "run " ++ [BACKTICK] ++ lit "make" ++ [BACKTICK] ++ lit " now")
     = lit "run " ++ (lit "<font " ++ attr "face" "Courier" ++ lit ">")
         ++ lit "make" ++ lit "</font>" ++ lit " now".
Proof.
  assert (Hd : digit_class ascii_digit).
  { split; [intros c _; reflexivity | reflexivity]. }
  assert (Ia : inline_free (lit "run "))
    by (apply literal_inline_free; reflexivity).
  assert (Ib : inline_free (lit "make"))
    by (apply literal_inline_free; reflexivity).
  assert (Ic : inline_free (lit " now"))
    by (apply literal_inline_free; reflexivity).
  assert (Ha : head_ok (line_marker ascii_digit) (lit "run "))
    by reflexivity.
  assert (Hne : lit "make" <> []) by discriminate.
  split; [exact Hd|]. split; [exact Ia|]. split; [exact Ib|].
  split; [exact Ic|]. split; [exact Ha|]. split; [exact Hne|].
  exact (inline_code_span ascii_digit (lit "run ") (lit "make")
           (lit " now") Hd Ia Ib Ic Ha Hne).
Defined.





(** *** Paragraphs and line breaks *)

Lemma m_lit_bol (old new : str) (s : str) (k : nat) (b b' : bool) :
  re_sub_from (m_lit old new) k b s = re_sub_from (m_lit old new) k b' s.
Proof. destruct s; reflexivity. Qed.

Lemma never_starts_pass (old new p : str) :
  never_starts old p -> forall bol w,
  re_sub_from (m_lit old new) 0 bol (p ++ w)
  = p ++ re_sub_from (m_lit old new) 0 true w.
Proof.
  induction p as [|c p IH]; intros H bol w.
  - apply m_lit_bol.
  - cbn [never_starts] in H. destruct H as [H0 H]. cbn [app].
    rewrite re_sub_from_pass.
    + f_equal. apply IH. exact H.
    + unfold m_lit. rewrite (H0 w). reflexivity.
Qed.

Lemma m_lit_hit (k : char) (old' new rest : str) (b : bool) :
  re_sub_from (m_lit (k :: old') new) 0 b ((k :: old') ++ rest)
  = new ++ re_sub_from (m_lit (k :: old') new) 0 true rest.
Proof.
  cbn [app re_sub_from]. unfold m_lit at 1.
  replace (startswith (k :: old') (k :: old' ++ rest)) with true
    by (symmetry; apply (startswith_self (k :: old') rest)).
  f_equal. cbn [length Nat.pred].
  replace (length old') with (length old' + 0) by lia.
  destruct (re_sub_from_skip (m_lit (k :: old') new) old' 0
              (N.eqb k NL) rest) as [b' ->].
  apply m_lit_bol.
Qed.

Lemma join_cons2 (sep p q : str) (r : list str) :
  join sep (p :: q :: r) = p ++ sep ++ join sep (q :: r).
Proof. reflexivity. Qed.

Lemma str_replace_join (k : char) (old' new : str) (ps : list str) :
  Forall (never_starts (k :: old')) ps ->
  str_replace (k :: old') new (join (k :: old') ps) = join new ps.
Proof.
  unfold str_replace, re_sub.
  induction ps as [|p ps IH]; intros H; [reflexivity|].
  inversion H as [|p' ps' Hp Hps]; subst.
  destruct ps as [|q r].
  - cbn [join]. rewrite <- (app_nil_r p) at 1.
    rewrite (never_starts_pass (k :: old') new p Hp true []).
    apply app_nil_r.
  - rewrite !join_cons2.
    rewrite (never_starts_pass (k :: old') new p Hp true _).
    f_equal. rewrite m_lit_hit. f_equal. apply IH. exact Hps.
Qed.

Lemma split_from_pass (sep p : str) :
  never_starts sep p -> forall cur w,
  split_from sep 0 cur (p ++ w) = split_from sep 0 (rev p ++ cur) w.
Proof.
  induction p as [|c p IH]; intros H cur w; [reflexivity|].
  cbn [never_starts] in H. destruct H as [H0 H].
  cbn [app split_from]. rewrite (H0 w).
  rewrite (IH H (c :: cur) w). cbn [rev]. rewrite <- app_assoc.
  reflexivity.
Qed.

Lemma split_from_skip (sep a : str) :
  forall k cur r,
    split_from sep (length a + k) cur (a ++ r) = split_from sep k cur r.
Proof.
  induction a as [|c a IH]; intros k cur r; [reflexivity|].
  cbn [app length Nat.add split_from]. apply IH.
Qed.

Lemma split_join (k : char) (sep' : str) (ps : list str) :
  ps <> [] -> Forall (never_starts (k :: sep')) ps ->
  split (k :: sep') (join (k :: sep') ps) = ps.
Proof.
  unfold split. destruct ps as [|p ps]; [congruence|]. intros _.
  revert p. induction ps as [|q r IH]; intros p H.
  - inversion H as [|p' ps' Hp Hps]; subst. cbn [join].
    rewrite <- (app_nil_r p) at 1.
    rewrite (split_from_pass (k :: sep') p Hp [] []).
    cbn [split_from]. rewrite app_nil_r, rev_involutive. reflexivity.
  - inversion H as [|p' ps' Hp Hps]; subst. rewrite join_cons2.
    rewrite (split_from_pass (k :: sep') p Hp [] _).
    cbn [app split_from].
    replace (startswith (k :: sep') (k :: sep' ++ join (k :: sep') (q :: r)))
      with true
      by (symmetry; apply (startswith_self (k :: sep') _)).
    rewrite app_nil_r, rev_involutive. f_equal.
    cbn [length Nat.pred].
    replace (length sep') with (length sep' + 0) by lia.
    rewrite split_from_skip. apply IH. exact Hps.
Qed.

Lemma lacks_never_starts (k : char) (sep' p : str) :
  lacks k p -> never_starts (k :: sep') p.
Proof.
  induction p as [|c p IH]; intros H; cbn [never_starts]; [exact I|].
  split.
  - intros w. cbn [startswith].
    rewrite N.eqb_sym, (H c (or_introl eq_refl)). reflexivity.
  - apply IH. eapply lacks_tail. exact H.
Qed.

Lemma never_starts_app (sep a b : str) :
  never_starts sep a -> never_starts sep b -> never_starts sep (a ++ b).
Proof.
  induction a as [|c a IH]; intros Ha Hb; [exact Hb|].
  cbn [never_starts] in Ha. destruct Ha as [H0 Ha].
  cbn [app never_starts]. split.
  - intros w. rewrite <- app_assoc. apply H0.
  - apply IH; assumption.
Qed.

Lemma never_starts_join (old sep : str) (ls : list str) :
  (forall l, In l ls -> never_starts old l) ->
  (forall l, In l ls -> never_starts old (sep ++ l)) ->
  never_starts old (join sep ls).
Proof.
  intros H1 H2.
  assert (A : forall xs, xs <> [] -> (forall l, In l xs -> In l ls) ->
                         never_starts old (sep ++ join sep xs)).
  { induction xs as [|q xs IH]; intros Hne Hin; [congruence|].
    destruct xs as [|q' r].
    - cbn [join]. apply H2. apply Hin. left. reflexivity.
    - rewrite join_cons2, app_assoc. apply never_starts_app.
      + apply H2. apply Hin. left. reflexivity.
      + apply IH; [discriminate|].
        intros l Hl. apply Hin. right. exact Hl. }
  destruct ls as [|l [|q r]].
  - exact I.
  - cbn [join]. apply H1. left. reflexivity.
  - rewrite join_cons2. apply never_starts_app.
    + apply H1. left. reflexivity.
    + apply A; [discriminate|]. intros x Hx. right. exact Hx.
Qed.

Lemma lines_never_blank (ls : list str) :
  (forall l, In l ls -> l <> [] /\ lacks NL l) ->
  never_starts [NL; NL] (join [NL] ls).
Proof.
  intros H. apply never_starts_join.
  - intros l Hl. apply lacks_never_starts. apply (H l Hl).
  - intros l Hl. destruct (H l Hl) as [Hne Hn].
    destruct l as [|d l]; [congruence|].
    cbn [app never_starts]. split.
    + intros w. cbn [startswith].
      rewrite (N.eqb_sym NL d), (Hn d (or_introl eq_refl)).
      rewrite N.eqb_refl. reflexivity.
    + apply (lacks_never_starts NL [NL] (d :: l) Hn).
Qed.

Lemma breaks_never_double (ls : list str) :
  (forall l, In l ls -> l <> [] /\ lacks 60%N l) ->
  never_starts (BR ++ BR) (join BR ls).
Proof.
  intros H. apply never_starts_join.
  - intros l Hl.
    apply (lacks_never_starts 60%N (lit "br/>" ++ BR) l). apply (H l Hl).
  - intros l Hl. destruct (H l Hl) as [Hne Hn].
    destruct l as [|d l]; [congruence|].
    assert (Hd : N.eqb 60 d = false)
      by (rewrite N.eqb_sym; apply (Hn d (or_introl eq_refl))).
    change (BR ++ d :: l)
      with (60%N :: 98%N :: 114%N :: 47%N :: 62%N :: d :: l).
    change (BR ++ BR)
      with (60%N :: lit "br/>" ++ BR).
    cbn [never_starts].
    repeat (split; [intros w; cbn -[N.eqb]; rewrite ?Hd; reflexivity|]).
    apply (lacks_never_starts 60%N (lit "br/>" ++ BR) (d :: l) Hn).
Qed.

Lemma replace_char_flat (k : char) (new s : str) :
  forall bol,
    re_sub_from (m_lit [k] new) 0 bol s = flat_map (replace_char k new) s.
Proof.
  induction s as [|c s IH]; intros bol; [reflexivity|].
  cbn [re_sub_from flat_map]. unfold m_lit at 1, replace_char at 1.
  cbn [startswith]. rewrite andb_true_r.
  destruct (N.eqb k c); cbn [length Nat.pred app]; rewrite IH; reflexivity.
Qed.

Lemma replace_char_absent (k : char) (new s : str) :
  lacks k s -> flat_map (replace_char k new) s = s.
Proof.
  induction s as [|c s IH]; intros H; [reflexivity|].
  cbn [flat_map]. unfold replace_char at 1.
  rewrite N.eqb_sym, (H c (or_introl eq_refl)). cbn [app].
  f_equal. apply IH. eapply lacks_tail. exact H.
Qed.

Lemma flat_map_join (f : char -> str) (sep : str) (xs : list str) :
  flat_map f (join sep xs) = join (flat_map f sep) (map (flat_map f) xs).
Proof.
  induction xs as [|p xs IH]; [reflexivity|].
  destruct xs as [|q r]; [reflexivity|].
  rewrite join_cons2. cbn [map]. rewrite join_cons2.
  rewrite !flat_map_app. do 2 f_equal. exact IH.
Qed.

Lemma join_chars (c : char) (sep : str) (xs : list str) :
  In c (join sep xs) -> In c sep \/ exists x, In x xs /\ In c x.
Proof.
  induction xs as [|p xs IH]; intros H; [destruct H|].
  destruct xs as [|q r].
  - right. exists p. split; [left; reflexivity | exact H].
  - rewrite join_cons2 in H. apply in_app_or in H.
    destruct H as [H | H].
    + right. exists p. split; [left; reflexivity | exact H].
    + apply in_app_or in H. destruct H as [H | H]; [left; exact H|].
      destruct (IH H) as [Hs | [x [Hx Hc]]]; [left; exact Hs|].
      right. exists x. split; [right; exact Hx | exact Hc].
Qed.

Lemma break_lines (ls : list str) :
  (forall l, In l ls -> lacks NL l) ->
  flat_map (replace_char NL BR) (join [NL] ls) = join BR ls.
Proof.
  intros H. rewrite flat_map_join.
  replace (map (flat_map (replace_char NL BR)) ls) with ls; [reflexivity|].
  symmetry. rewrite <- (map_id ls) at 2. apply map_ext_in.
  intros l Hl. apply replace_char_absent. apply H. exact Hl.
Qed.

(** X26.  A text made of non-empty marker-free lines, grouped into
    blocks by blank lines, gives one body paragraph per block that is
    not blank: the lines of a block are joined by a break tag and the
    result is stripped. *)
Theorem blank_lines_separate_paragraphs (digit : char -> bool)
  (blocks : list (list str)) :
  digit NL = false ->
  Forall (Forall (text_line digit)) blocks ->
  body_paragraphs digit (join [NL; NL] (map (join [NL]) blocks))
  = map strip (filter nonblank (map (join BR) blocks)).
Proof.
  intros Hnl Hb. rewrite Forall_forall in Hb.
  assert (Hl : forall ls l, In ls blocks -> In l ls -> text_line digit l).
  { intros ls l Hls. specialize (Hb ls Hls). rewrite Forall_forall in Hb.
    apply Hb. }
  destruct blocks as [|b0 bs] eqn:E; [reflexivity|]. rewrite <- E in *.
  assert (Hne : map (join BR) blocks <> []) by (rewrite E; discriminate).
  clear E.
  unfold body_paragraphs. fold nonblank. f_equal. f_equal.
  rewrite clean_content_plain.
  - rewrite (str_replace_join NL [NL] (BR ++ BR)).
    + unfold str_replace, re_sub. rewrite replace_char_flat.
      rewrite flat_map_join, map_map.
      replace (map (fun x => flat_map (replace_char NL BR) (join [NL] x))
                 blocks)
        with (map (join BR) blocks).
      * change (flat_map (replace_char NL BR) (BR ++ BR)) with (BR ++ BR).
        apply (split_join 60%N (lit "br/>" ++ BR) _ Hne).
        apply Forall_forall. intros p Hp. apply in_map_iff in Hp.
        destruct Hp as [ls [<- Hls]]. apply breaks_never_double.
        intros l Hin. destruct (Hl ls l Hls Hin) as [H1 [_ [_ H4]]].
        split; assumption.
      * apply map_ext_in. intros ls Hls. symmetry. apply break_lines.
        intros l Hin. apply (Hl ls l Hls Hin).
    + apply Forall_forall. intros p Hp. apply in_map_iff in Hp.
      destruct Hp as [ls [<- Hls]]. apply lines_never_blank.
      intros l Hin. destruct (Hl ls l Hls Hin) as [H1 [_ [H3 _]]].
      split; assumption.
  - intros c Hc. apply join_chars in Hc.
    assert (Hm : marker digit NL = false)
      by (unfold marker; rewrite Hnl; reflexivity).
    destruct Hc as [Hc | [p [Hp Hc]]].
    + destruct Hc as [<- | [<- | []]]; exact Hm.
    + apply in_map_iff in Hp. destruct Hp as [ls [<- Hls]].
      apply join_chars in Hc. destruct Hc as [Hc | [l [Hin Hc]]].
      * destruct Hc as [<- | []]. exact Hm.
      * destruct (Hl ls l Hls Hin) as [_ [H2 _]]. apply H2. exact Hc.
Qed.

Lemma blank_lines_separate_paragraphs_witness :
  ascii_digit NL = false
  /\ Forall (Forall (text_line ascii_digit))
       [[lit "Dear all,"]; [lit " "]; [lit "see you "; lit "soon"]]
  /\ body_paragraphs ascii_digit
       (lit "Dear all," ++ [NL; NL] ++ lit " " ++ [NL; NL]
        ++ lit "see you " ++ [NL] ++ lit "soon")
     = [lit "Dear all,"; lit "see you <br/>soon"].
Proof.
  assert (Hn : ascii_digit NL = false) by reflexivity.
  assert (T : forall l,
             l <> [] ->
             forallb (fun c => negb (marker ascii_digit c)
                               && negb (N.eqb c NL)
                               && negb (N.eqb c 60)) l = true ->
             text_line ascii_digit l).
  { intros l Hne Hf. rewrite forallb_forall in Hf.
    split; [exact Hne|].
    split; [|split]; intros c Hc; specialize (Hf c Hc);
      apply andb_prop in Hf; destruct Hf as [Hf H3];
      apply andb_prop in Hf; destruct Hf as [H1 H2];
      apply negb_true_iff; assumption. }
  assert (Hb : Forall (Forall (text_line ascii_digit))
                 [[lit "Dear all,"]; [lit " "];
                  [lit "see you "; lit "soon"]]).
  { repeat constructor; apply T; (discriminate || reflexivity). }
  split; [exact Hn|]. split; [exact Hb|].
  exact (blank_lines_separate_paragraphs ascii_digit _ Hn Hb).
Defined.

End RendererMore.

(* ------------------------------------------------------------------ *)
(** ** Markup that nothing matches *)

Module RendererSpec.

Import PDFGenerator PDFGeneratorSpec RendererMore.

Lemma never_cons (m : matcher) (bol : bool) (c : char) (rest : str) :
  m bol (c :: rest) = None ->
  never_matches m (N.eqb c NL) rest = true ->
  never_matches m bol (c :: rest) = true.
Proof. intros H H'. cbn [never_matches]. rewrite H. exact H'. Qed.

Lemma re_sub_never (m : matcher) (s : str) :
  forall bol, never_matches m bol s = true -> re_sub_from m 0 bol s = s.
Proof.
  induction s as [|c s IH]; intros bol H; [reflexivity|].
  cbn [never_matches] in H. cbn [re_sub_from].
  destruct (m bol (c :: s)); [discriminate|].
  f_equal. apply IH. exact H.
Qed.

Lemma inline_opener_other (c k : char) :
  inline_opener c = false -> inline_opener k = true -> N.eqb c k = false.
Proof.
  intros Hc Hk. destruct (N.eqb c k) eqn:E; [|reflexivity].
  apply N.eqb_eq in E. subst. congruence.
Qed.

Lemma guarded_miss (digit : char -> bool) (m : matcher) (bol : bool)
  (c : char) (rest : str) :
  guarded digit m ->
  inline_opener c = false ->
  (bol = true -> line_opener digit c = false) ->
  m bol (c :: rest) = None.
Proof.
  intros [[k [Hs Hk]] | [Hf Ht]] Hi Hl.
  - apply Hs. apply inline_opener_other; assumption.
  - destruct bol; [apply Ht; apply Hl; reflexivity | apply Hf].
Qed.

Lemma calm_cons (digit : char -> bool) (bol : bool) (c : char) (s : str) :
  calm digit bol (c :: s) = true ->
  inline_opener c = false
  /\ (bol = true -> line_opener digit c = false)
  /\ calm digit (N.eqb c NL) s = true.
Proof.
  cbn [calm]. intros H.
  apply andb_prop in H. destruct H as [H H3].
  apply andb_prop in H. destruct H as [H1 H2].
  apply negb_true_iff in H1. split; [exact H1|]. split; [|exact H3].
  intros ->. cbn [negb orb] in H2. apply negb_true_iff in H2. exact H2.
Qed.

(** No guarded pattern matches inside calm text, whatever follows it. *)
Lemma never_calm (digit : char -> bool) (m : matcher) :
  guarded digit m ->
  forall s bol rest,
    calm digit bol s = true ->
    (forall bol', never_matches m bol' rest = true) ->
    never_matches m bol (s ++ rest) = true.
Proof.
  intros Hg. induction s as [|c s IH]; intros bol rest Hc Hr.
  - apply Hr.
  - destruct (calm_cons digit bol c s Hc) as [H1 [H2 H3]].
    cbn [app]. apply never_cons.
    + apply (guarded_miss digit); assumption.
    + apply IH; assumption.
Qed.

Lemma never_calm_end (digit : char -> bool) (m : matcher) (s : str)
  (bol : bool) :
  guarded digit m -> calm digit bol s = true ->
  never_matches m bol s = true.
Proof.
  intros Hg Hc. rewrite <- (app_nil_r s).
  apply (never_calm digit m Hg s bol [] Hc). reflexivity.
Qed.

Lemma calm_lacks (digit : char -> bool) (k : char) (s : str) :
  inline_opener k = true ->
  forall bol, calm digit bol s = true -> lacks k s.
Proof.
  intros Hk. induction s as [|c s IH]; intros bol H; [apply lacks_nil|].
  destruct (calm_cons digit bol c s H) as [H1 [_ H3]].
  apply lacks_cons; [apply inline_opener_other; assumption|].
  apply (IH _ H3).
Qed.

Lemma line_opener_parts (digit : char -> bool) (c : char) :
  line_opener digit c = false ->
  N.eqb c 35 = false /\ N.eqb c BULLET = false /\ N.eqb c DASH = false
  /\ N.eqb c 62 = false /\ digit c = false.
Proof.
  unfold line_opener. intros H.
  repeat (apply orb_false_iff in H; destruct H as [H ?]). auto.
Qed.

Ltac anchored_line :=
  right; split;
  [ intros x; reflexivity
  | let c := fresh "c" in
    let rest := fresh "rest" in
    let H := fresh "H" in
    intros c rest H;
    destruct (line_opener_parts _ c H) as [? [? [? [? ?]]]];
    first [ apply m_line_start; assumption
          | apply m_bol_start; assumption
          | apply m_rule_start; assumption ] ].

Ltac inline_key k lemma :=
  left; exists k; split; [apply lemma | reflexivity].

Lemma cascade_guarded (digit : char -> bool) :
  Forall (guarded digit) (cascade digit).
Proof.
  unfold cascade. repeat apply Forall_cons; try apply Forall_nil.
  - anchored_line.
  - anchored_line.
  - anchored_line.
  - inline_key STAR m_span_start.
  - inline_key STAR m_span_start.
  - inline_key 126%N m_span_start.
  - inline_key BACKTICK m_inline_code_start.
  - anchored_line.
  - anchored_line.
  - right. split; [apply m_numbered_unanchored|].
    intros c rest H.
    destruct (line_opener_parts _ c H) as [_ [_ [_ [_ Hd]]]].
    apply m_numbered_no_digit. exact Hd.
  - anchored_line.
  - inline_key BACKTICK m_code_block_start.
  - inline_key PIPE m_table_start.
  - anchored_line.
  - anchored_line.
  - anchored_line.
  - inline_key 91%N m_link_start.
Qed.

(** *** The openers *)

Lemma span_not_open (k : char) (close pre post : str) (bol : bool)
  (b : str) :
  lacks k b -> m_span [k; k] close pre post bol (k :: b) = None.
Proof.
  intros H. unfold m_span. cbn [startswith]. rewrite N.eqb_refl.
  destruct b as [|x b]; [reflexivity|].
  rewrite N.eqb_sym, (H x (or_introl eq_refl)). reflexivity.
Qed.

Lemma span_unclosed (open : str) (k : char) (close pre post : str)
  (bol : bool) (b : str) :
  lacks k b -> m_span open (k :: close) pre post bol (open ++ b) = None.
Proof.
  intros H. unfold m_span.
  rewrite startswith_self, PDFGeneratorSpec.skipn_length_app.
  rewrite (lazy_dots_lacks k close b H). reflexivity.
Qed.

Lemma block_not_open_one (bol : bool) (b : str) :
  no_backtick b -> m_code_block bol (BACKTICK :: b) = None.
Proof.
  intros H. unfold m_code_block.
  rewrite (proj2 (startswith_fence_short b H)). reflexivity.
Qed.

Lemma block_not_open_two (bol : bool) (b : str) :
  no_backtick b -> m_code_block bol (BACKTICK :: BACKTICK :: b) = None.
Proof.
  intros H. unfold m_code_block.
  rewrite (proj1 (startswith_fence_short b H)). reflexivity.
Qed.

Lemma block_unclosed (bol : bool) (b : str) :
  no_backtick b ->
  m_code_block bol (BACKTICK :: BACKTICK :: BACKTICK :: b) = None.
Proof.
  intros H. unfold m_code_block.
  change (startswith fence (BACKTICK :: BACKTICK :: BACKTICK :: b))
    with (startswith fence (fence ++ b)).
  rewrite startswith_self.
  change (skipn 3 (BACKTICK :: BACKTICK :: BACKTICK :: b)) with b.
  rewrite (lazy_any_fence_none b H). reflexivity.
Qed.

Lemma table_unclosed (bol : bool) (b : str) :
  lacks PIPE b -> m_table bol (PIPE :: b) = None.
Proof.
  intros H. unfold m_table. rewrite N.eqb_refl.
  rewrite (lazy_dots_lacks PIPE [] b H). reflexivity.
Qed.

Lemma lacks_skipn (k : char) (n : nat) (s : str) :
  lacks k s -> lacks k (skipn n s).
Proof.
  revert s. induction n as [|n IH]; intros s H; [exact H|].
  destruct s as [|c s]; [exact H|].
  cbn [skipn]. apply IH. eapply lacks_tail. exact H.
Qed.

Lemma link_unclosed (bol : bool) (b : str) :
  lacks 93%N b \/ lacks 41%N b -> m_link bol (91%N :: b) = None.
Proof.
  intros H. unfold m_link. change (N.eqb 91 91) with true. cbv iota.
  destruct H as [H | H].
  - replace (lazy_dots (lit "](") b) with (@None str)
      by (symmetry; apply (lazy_dots_lacks 93%N [40%N] b H)).
    reflexivity.
  - destruct (lazy_dots (lit "](") b) as [g|]; [|reflexivity].
    replace (lazy_dots (lit ")") (skipn (length g + 2) b)) with (@None str)
      by (symmetry; apply (lazy_dots_lacks 41%N [] _);
          apply lacks_skipn; exact H).
    reflexivity.
Qed.

(** A character no pattern but those keyed on it can start with. *)
Ltac miss :=
  first
    [ apply m_line_start; reflexivity
    | apply m_bol_start; reflexivity
    | apply m_span_start; reflexivity
    | apply m_inline_code_start; reflexivity
    | apply m_code_block_start; reflexivity
    | apply m_table_start; reflexivity
    | apply m_link_start; reflexivity
    | apply m_rule_start; reflexivity
    | apply m_numbered_no_digit; assumption ].

Section Openers.

Variable digit : char -> bool.
Variable b : str.
Hypothesis Hd : digit_class digit.
Hypothesis Hb : calm digit false b = true.

Let HS : lacks STAR b := calm_lacks digit STAR b eq_refl false Hb.
Let HT : lacks 126%N b := calm_lacks digit 126%N b eq_refl false Hb.
Let HK : no_backtick b := calm_lacks digit BACKTICK b eq_refl false Hb.
Let HP : lacks PIPE b := calm_lacks digit PIPE b eq_refl false Hb.

Lemma opener_digits :
  digit STAR = false /\ digit 126%N = false /\ digit BACKTICK = false
  /\ digit PIPE = false /\ digit 91%N = false.
Proof.
  repeat split; apply (digit_class_ascii digit _ Hd); reflexivity.
Qed.

Lemma unclosed_never (o : str) (m : matcher) :
  unclosed o b -> In m (cascade digit) ->
  forall bol, never_matches m bol (o ++ b) = true.
Proof.
  intros Ho Hm.
  destruct opener_digits as [D1 [D2 [D3 [D4 D5]]]].
  assert (Hg : guarded digit m).
  { pose proof (cascade_guarded digit) as G.
    rewrite Forall_forall in G. apply G. exact Hm. }
  assert (Hlast : never_matches m false b = true)
    by (apply (never_calm_end digit); assumption).
  unfold cascade in Hm. cbn [In] in Hm.
  destruct Ho as [Ho | [-> Hl]].
  - cbn [In] in Ho.
    repeat (destruct Ho as [<- | Ho]); try destruct Ho;
      repeat (destruct Hm as [<- | Hm]); try destruct Hm;
      intros bol; unfold fence; cbn [app];
      repeat (apply never_cons;
              [first
                 [ miss
                 | apply (span_not_open STAR); exact HS
                 | apply (span_not_open 126%N); exact HT
                 | apply (span_unclosed [STAR] STAR []); exact HS
                 | apply (span_unclosed [126%N; 126%N] 126%N [126%N]);
                   exact HT
                 | apply m_inline_code_double
                 | apply m_inline_code_open; exact HK
                 | apply block_not_open_one; exact HK
                 | apply block_not_open_two; exact HK
                 | apply block_unclosed; exact HK
                 | apply table_unclosed; exact HP ]|]);
      exact Hlast.
  - repeat (destruct Hm as [<- | Hm]); try destruct Hm;
      intros bol; cbn [app];
      (apply never_cons;
       [first [miss | apply link_unclosed; exact Hl] | exact Hlast]).
Qed.

End Openers.

(** *** The claim about the renderer *)

Lemma unmatched_literal (digit : char -> bool) (s : str) :
  unmatched digit s = true -> clean_content digit s = line_breaks s.
Proof.
  intros H. unfold unmatched, cascade in H. cbn [forallb] in H.
  repeat (apply andb_prop in H;
          let K := fresh "K" in destruct H as [K H]).
  rewrite clean_content_steps.
  unfold step_h3, step_h2, step_h1, step_bold, step_italic, step_strike,
    step_code, step_bullet, step_dash, step_numbered, step_quote,
    step_block, step_table, step_checked, step_unchecked, step_rule,
    step_link, re_sub.
  rewrite (re_sub_never _ s true K).
  rewrite (re_sub_never _ s true K0).
  rewrite (re_sub_never _ s true K1).
  rewrite (re_sub_never _ s true K2).
  rewrite (re_sub_never _ s true K3).
  rewrite (re_sub_never _ s true K4).
  rewrite (re_sub_never _ s true K5).
  rewrite (re_sub_never _ s true K6).
  rewrite (re_sub_never _ s true K7).
  rewrite (re_sub_never _ s true K8).
  rewrite (re_sub_never _ s true K9).
  rewrite (re_sub_never _ s true K10).
  rewrite (re_sub_never _ s true K11).
  rewrite (re_sub_never _ s true K12).
  rewrite (re_sub_never _ s true K13).
  rewrite (re_sub_never _ s true K14).
  rewrite (re_sub_never _ s true K15).
  reflexivity.
Qed.

Lemma calm_unmatched (digit : char -> bool) (s : str) :
  calm digit true s = true -> unmatched digit s = true.
Proof.
  intros H. unfold unmatched. apply forallb_forall. intros m Hm.
  apply (never_calm_end digit); [|exact H].
  pose proof (cascade_guarded digit) as G.
  rewrite Forall_forall in G. apply G. exact Hm.
Qed.

Lemma unclosed_unmatched (digit : char -> bool) (a o b : str) :
  digit_class digit ->
  calm digit true a = true -> calm digit false b = true ->
  unclosed o b ->
  unmatched digit (a ++ o ++ b) = true.
Proof.
  intros Hd Ha Hb Ho. unfold unmatched. apply forallb_forall. intros m Hm.
  apply (never_calm digit); [|exact Ha|].
  - pose proof (cascade_guarded digit) as G.
    rewrite Forall_forall in G. apply G. exact Hm.
  - apply (unclosed_never digit b Hd Hb o m Ho Hm).
Qed.

(** C4, as amended.  [clean_content] is a total function: it returns a
    text on every input.  Text in which no pattern of the cascade
    matches comes out literally, its line breaks as [<br/>] tags.  Such
    is calm text, of any number of lines: text without an inline opener
    in which no line starts with a line opener; and such is calm text
    around one opener that nothing closes: a single star, one or two
    tildes, one, two or three backticks (the unterminated code fence,
    also with the code on the lines below), a single pipe, or an
    opening bracket without the closing bracket or the closing
    parenthesis behind it.  The input [**unterminated bold] is no such
    text: the italic pattern matches its two stars as an empty span, and
    the single body paragraph reads [<i></i>unterminated bold]. *)
Theorem renderer_degrades_gracefully (digit : char -> bool)
  (s t a o b : str) :
  (plain digit s ->
   clean_content digit s
   = str_replace [NL] BR (str_replace [NL; NL] (BR ++ BR) s)
   /\ (~ In NL s -> clean_content digit s = s))
  /\ (plain digit t -> digit BACKTICK = false -> ~ In NL t ->
      clean_content digit (fence ++ t) = fence ++ t)
  /\ (unmatched digit s = true -> clean_content digit s = line_breaks s)
  /\ (calm digit true s = true ->
      unmatched digit s = true /\ clean_content digit s = line_breaks s)
  /\ (digit_class digit ->
      calm digit true a = true -> calm digit false b = true ->
      unclosed o b ->
      unmatched digit (a ++ o ++ b) = true
      /\ clean_content digit (a ++ o ++ b) = line_breaks (a ++ o ++ b)
      /\ (~ In NL (a ++ o ++ b) ->
          clean_content digit (a ++ o ++ b) = a ++ o ++ b))
  /\ clean_content ascii_digit (lit "**unterminated bold")
     = lit "<i></i>unterminated bold"
  /\ unmatched ascii_digit (lit "**unterminated bold") = false
  /\ body_paragraphs ascii_digit (lit "**unterminated bold")
     = [lit "<i></i>unterminated bold"]
  /\ body_paragraphs ascii_digit (fence ++ lit "code")
     = [fence ++ lit "code"]
  /\ body_paragraphs ascii_digit (fence ++ [NL] ++ lit "code")
     = [fence ++ BR ++ lit "code"]
  /\ body_paragraphs ascii_digit (lit "~~open") = [lit "~~open"]
  /\ body_paragraphs ascii_digit (lit "*open") = [lit "*open"]
  /\ body_paragraphs ascii_digit ([BACKTICK] ++ lit "open")
     = [[BACKTICK] ++ lit "open"]
  /\ body_paragraphs ascii_digit (lit "[open](") = [lit "[open]("].
Proof.
  split; [|split; [|split; [|split; [|split]]]].
  - intros Hs. rewrite (clean_content_plain digit s Hs).
    split; [reflexivity|]. intros Hnl.
    rewrite (str_replace_absent NL [NL] _ s Hnl).
    apply (str_replace_absent NL [] _ s Hnl).
  - apply unterminated_fence_literal.
  - apply unmatched_literal.
  - intros Hs. pose proof (calm_unmatched digit s Hs) as Hu.
    split; [exact Hu | apply unmatched_literal; exact Hu].
  - intros Hd Ha Hb Ho.
    pose proof (unclosed_unmatched digit a o b Hd Ha Hb Ho) as Hu.
    split; [exact Hu|].
    split; [apply unmatched_literal; exact Hu|].
    intros Hnl. rewrite (unmatched_literal digit _ Hu). unfold line_breaks.
    rewrite (str_replace_absent NL [NL] _ _ Hnl).
    apply (str_replace_absent NL [] _ _ Hnl).
  - repeat split; vm_compute; reflexivity.
Qed.

Lemma renderer_degrades_gracefully_witness :
  plain ascii_digit (lit "Body text")
  /\ plain ascii_digit (lit "code")
  /\ ascii_digit BACKTICK = false
  /\ ~ In NL (lit "Body text")
  /\ ~ In NL (lit "code")
  /\ unmatched ascii_digit (lit "a - b, 2 > 1 #tag") = true
  /\ calm ascii_digit true (lit "a - b, 2 > 1 #tag") = true
  /\ digit_class ascii_digit
  /\ calm ascii_digit true (lit "see: ") = true
  /\ calm ascii_digit false ([NL] ++ lit "x = 1 - 2") = true
  /\ unclosed fence ([NL] ++ lit "x = 1 - 2")
  /\ clean_content ascii_digit (lit "Body text") = lit "Body text"
  /\ clean_content ascii_digit (fence ++ lit "code") = fence ++ lit "code"
  /\ clean_content ascii_digit (lit "a - b, 2 > 1 #tag")
     = line_breaks (lit "a - b, 2 > 1 #tag")
  /\ clean_content ascii_digit
       (lit "see: " ++ fence ++ [NL] ++ lit "x = 1 - 2")
     = line_breaks (lit "see: " ++ fence ++ [NL] ++ lit "x = 1 - 2").
Proof.
  assert (H1 : plain ascii_digit (lit "Body text")).
  { intros c Hc. cbn in Hc.
    repeat (destruct Hc as [<- | Hc]; [reflexivity|]). destruct Hc. }
  assert (H2 : plain ascii_digit (lit "code")).
  { intros c Hc. cbn in Hc.
    repeat (destruct Hc as [<- | Hc]; [reflexivity|]). destruct Hc. }
  assert (H3 : ~ In NL (lit "Body text")).
  { intros Hc. cbn in Hc.
    repeat (destruct Hc as [Hc | Hc]; [discriminate Hc|]). destruct Hc. }
  assert (H4 : ~ In NL (lit "code")).
  { intros Hc. cbn in Hc.
    repeat (destruct Hc as [Hc | Hc]; [discriminate Hc|]). destruct Hc. }
  assert (H5 : unmatched ascii_digit (lit "a - b, 2 > 1 #tag") = true)
    by (vm_compute; reflexivity).
  assert (H6 : calm ascii_digit true (lit "a - b, 2 > 1 #tag") = true)
    by (vm_compute; reflexivity).
  assert (H7 : digit_class ascii_digit).
  { split; [intros c _; reflexivity | reflexivity]. }
  assert (H8 : calm ascii_digit true (lit "see: ") = true)
    by (vm_compute; reflexivity).
  assert (H9 : calm ascii_digit false ([NL] ++ lit "x = 1 - 2") = true)
    by (vm_compute; reflexivity).
  assert (H10 : unclosed fence ([NL] ++ lit "x = 1 - 2")).
  { left. cbn [In]. tauto. }
  destruct (renderer_degrades_gracefully ascii_digit
              (lit "Body text") (lit "code") (lit "see: ") fence
              ([NL] ++ lit "x = 1 - 2")) as [Ha [Hb [_ [_ [He _]]]]].
  destruct (renderer_degrades_gracefully ascii_digit
              (lit "a - b, 2 > 1 #tag") (lit "code") (lit "see: ") fence
              ([NL] ++ lit "x = 1 - 2")) as [_ [_ [Hc _]]].
  split; [exact H1|]. split; [exact H2|]. split; [reflexivity|].
  split; [exact H3|]. split; [exact H4|]. split; [exact H5|].
  split; [exact H6|]. split; [exact H7|]. split; [exact H8|].
  split; [exact H9|]. split; [exact H10|].
  split; [exact (proj2 (Ha H1) H3)|].
  split; [exact (Hb H2 eq_refl H4)|].
  split; [exact (Hc H5)|].
  exact (proj1 (proj2 (He H7 H8 H9 H10))).
Defined.

End RendererSpec.
